(** * chroma-tailwind: the Tailwind formatter, embedded and verified

    A shallow embedding of the Tailwind HTML formatter (package [tailwind]):
    the style differ ([classes], [entryValuesFrom], [darkVariantClasses]),
    the class cache ([get]), the configuration options and the renderer
    ([writeHTML], [shouldHighlight]).

    Conventions.
    - Go [string] is a byte string: [string] of the Standard Library.
    - Go [int] is a 64-bit integer: [Z], with the wrap-around of the additions
      written out ([int_add]).
    - [map[chroma.TokenType]string] is a [gmap Z string]; reading a missing key
      gives the empty string ([mapGet]).
    - [*chroma.Style] is a location ([loc]) into an immutable heap of themes;
      the optional dark theme is an [option loc], [None] being [nil].
    - [[][2]int] is a slice into a store of backing arrays, so that two
      holders of one slice see each other's writes. *)

From Stdlib Require Import ZArith List Ascii String Strings.Byte Permutation Sorted DecimalString Lia.
From Stdlib Require DecimalZ DecimalPos.
From stdpp Require Import base decidable option list gmap strings.

Local Open Scope Z_scope.

(** ** Strings *)

Module Str.

(** [strings.Join(parts, sep)]. *)
Fixpoint Join (parts : list string) (sep : string) : string :=
  match parts with
  | [] => ""
  | [p] => p
  | p :: rest => p +:+ sep +:+ Join rest sep
  end.

(** [strings.Repeat(" ", n)], the padding of [%*d]. *)
Fixpoint spaces (n : nat) : string :=
  match n with
  | O => ""
  | S n' => String " "%char (spaces n')
  end.

(** [strings.Contains(s, sub)] as a proposition. *)
Definition contains (s sub : string) : Prop :=
  ∃ before after, s = before +:+ sub +:+ after.

(** [strings.HasSuffix(s, suffix)] as a proposition. *)
Definition hasSuffix (s suffix : string) : Prop :=
  ∃ before, s = before +:+ suffix.

(** The bytes of a string, as a list. *)
Fixpoint bytes (s : string) : list ascii :=
  match s with
  | EmptyString => []
  | String a s' => a :: bytes s'
  end.

(** [strconv.Itoa] and the verb [%d]: decimal digits, a minus sign for
    negative numbers. *)
Definition Itoa (n : Z) : string := NilZero.string_of_int (Z.to_int n).

End Str.

(** ** Go integers *)

Definition minInt : Z := - 2 ^ 63.
Definition maxInt : Z := 2 ^ 63 - 1.

(** Two's-complement wrap-around of a 64-bit [int]. *)
Definition wrap (x : Z) : Z := (x + 2 ^ 63) mod 2 ^ 64 - 2 ^ 63.

Definition int_add (a b : Z) : Z := wrap (a + b).
Definition int_sub (a b : Z) : Z := wrap (a - b).

(** ** The chroma data model *)

(** Token categories: Go's [type TokenType int]. *)
Abbreviation TokenType := Z (only parsing).

(** Modelled from the spec: the declaration of the token categories is not
    among the sources. The distinguished [Background] pseudo-category and the
    structural pseudo-categories (whole-block wrapper, single line, gutter,
    gutter in a table, highlighted-line marker, table, table cell, anchor
    link, code span) are distinct negative constants; only their being
    distinct is used. *)
Definition Background : TokenType := -1.
Definition PreWrapper : TokenType := -2.
Definition Line : TokenType := -3.
Definition LineNumbers : TokenType := -4.
Definition LineNumbersTable : TokenType := -5.
Definition LineHighlight : TokenType := -6.
Definition LineTable : TokenType := -7.
Definition LineTableTD : TokenType := -8.
Definition LineLink : TokenType := -9.
Definition CodeLine : TokenType := -10.

(** Modelled from the spec: the colour type is not among the sources. A colour
    is either unset, or a concrete RGB value with a canonical lowercase hex
    representation [#rrggbb]; being set and equality are observable. *)
Inductive Colour : Type :=
  | ColourUnset
  | ColourRGB (r g b : byte).

Global Instance byte_eq_dec : EqDecision byte := Byte.byte_eq_dec.
Global Instance Colour_eq_dec : EqDecision Colour.
Proof. solve_decision. Defined.

Definition hexDigit (n : N) : ascii :=
  match n with
  | 0%N => "0" | 1%N => "1" | 2%N => "2" | 3%N => "3"
  | 4%N => "4" | 5%N => "5" | 6%N => "6" | 7%N => "7"
  | 8%N => "8" | 9%N => "9" | 10%N => "a" | 11%N => "b"
  | 12%N => "c" | 13%N => "d" | 14%N => "e" | _ => "f"
  end%char.

Definition hexByte (x : byte) (rest : string) : string :=
  String (hexDigit (Byte.to_N x / 16)) (String (hexDigit (Byte.to_N x mod 16)) rest).

Definition Colour_IsSet (c : Colour) : bool :=
  match c with ColourUnset => false | ColourRGB _ _ _ => true end.

Definition Colour_String (c : Colour) : string :=
  match c with
  | ColourUnset => ""
  | ColourRGB r g b => String "#"%char (hexByte r (hexByte g (hexByte b "")))
  end.

(** Modelled from the spec: the tri-state flag of a style entry
    (unset / yes / no). *)
Inductive Trilean : Type := Pass | Yes | No.

Global Instance Trilean_eq_dec : EqDecision Trilean.
Proof. solve_decision. Defined.

(** Modelled from the spec: a style entry holds an optional foreground colour,
    an optional background colour and the bold, italic and underline flags. *)
Record StyleEntry : Type := mkStyleEntry {
  Colour_ : Colour;
  Background_ : Colour;
  Bold : Trilean;
  Italic : Trilean;
  Underline : Trilean
}.

(** Modelled from the spec: [StyleEntry.Sub] is not among the sources. The
    subtraction is field-wise: a field of the entry that exactly equals the
    corresponding field of [e] is unset in the result, any other field is
    kept. *)
Definition Sub (s e : StyleEntry) : StyleEntry :=
  {| Colour_ := if decide (Colour_ e = Colour_ s) then ColourUnset else Colour_ s;
     Background_ := if decide (Background_ e = Background_ s) then ColourUnset else Background_ s;
     Bold := if decide (Bold e = Bold s) then Pass else Bold s;
     Italic := if decide (Italic e = Italic s) then Pass else Italic s;
     Underline := if decide (Underline e = Underline s) then Pass else Underline s |}.

(** Modelled from the spec: a theme is its lookup from category to style
    entry, the hierarchical fallback already resolved by the theme. *)
Record Style : Type := mkStyle { Get : TokenType → StyleEntry }.

(** Theme objects live in a heap and are compared by address. *)
Abbreviation loc := nat (only parsing).
Abbreviation Heap := (nat → Style) (only parsing).

(** A token: category and literal text. *)
Record Token : Type := mkToken { Type_ : TokenType; Value : string }.

Definition Token_String (t : Token) : string := Value t.

(** ** Slices of highlight ranges *)

(** A slice [[][2]int]: a window of [s_len] elements at offset [s_off] of the
    backing array [s_array]. The nil slice has length 0. *)
Record slice : Type := mkSlice { s_array : nat; s_off : nat; s_len : nat }.

Definition nilSlice : slice := mkSlice 0 0 0.

Abbreviation Store := (gmap nat (list (Z * Z))) (only parsing).

Definition backing (st : Store) (a : nat) : list (Z * Z) := default [] (st !! a).

Definition readSlice (st : Store) (s : slice) : list (Z * Z) :=
  take (s_len s) (drop (s_off s) (backing st (s_array s))).

(** Overwrite the window of [s] with [new] (of the window's length). *)
Definition writeSlice (st : Store) (s : slice) (new : list (Z * Z)) : Store :=
  let old := backing st (s_array s) in
  <[s_array s := take (s_off s) old ++ new ++ drop (s_off s + s_len s) old]> st.

(** ** The formatter *)

(** [PreWrapper]: the two functions around the code block. *)
Record PreWrapperT : Type := mkPreWrapper {
  Start : bool → string → string;
  End_ : bool → string
}.

Record Formatter : Type := mkFormatter {
  standalone : bool;
  prefix : string;
  darkStyle : option loc;
  preWrapper : PreWrapperT;
  inlineCode : bool;
  preventSurroundingPre : bool;
  tabWidth : Z;
  wrapLongLines : bool;
  lineNumbers : bool;
  lineNumbersInTable : bool;
  linkableLineNumbers : bool;
  lineNumbersIDPrefix : string;
  highlightRanges : slice;
  baseLineNumber : Z
}.

Definition nopPreWrapper : PreWrapperT :=
  {| Start := fun _ _ => ""; End_ := fun _ => "" |}.

Definition defaultPreWrapper : PreWrapperT :=
  {| Start := fun code classAttr =>
       if code then "<pre" +:+ classAttr +:+ "><code>" else "<pre" +:+ classAttr +:+ ">";
     End_ := fun code => if code then "</code></pre>" else "</pre>" |}.

(** [New()] before any option is applied. *)
Definition newFormatter : Formatter :=
  {| standalone := false; prefix := ""; darkStyle := None;
     preWrapper := defaultPreWrapper; inlineCode := false;
     preventSurroundingPre := false; tabWidth := 0; wrapLongLines := false;
     lineNumbers := false; lineNumbersInTable := false;
     linkableLineNumbers := false; lineNumbersIDPrefix := "";
     highlightRanges := nilSlice; baseLineNumber := 1 |}.

(** ** Style differ *)

Definition prefixClass (prefix class : string) : string :=
  if decide (prefix = "") then class else prefix +:+ class.

Definition joinClasses (a b : string) : string :=
  if decide (a = "") then b
  else if decide (b = "") then a
  else a +:+ " " +:+ b.

Definition darkClass (f : Formatter) (class : string) : string :=
  "dark:" +:+ prefixClass (prefix f) class.

Definition prefixedClasses (f : Formatter) (classes : list string) : list string :=
  flat_map (fun class => if decide (class = "") then [] else [prefixClass (prefix f) class]) classes.

Definition tabWidthClass (f : Formatter) : string :=
  if negb (tabWidth f =? 0) && negb (tabWidth f =? 8)
  then "[tab-size:" +:+ Str.Itoa (tabWidth f) +:+ "]"
  else "".

Definition baseClasses (f : Formatter) (tt : TokenType) : list string :=
  if decide (tt = PreWrapper) then
    (if (0 <? s_len (highlightRanges f))%nat then ["grid"] else []) ++
    (if wrapLongLines f then ["whitespace-pre-wrap"; "break-words"] else [])
  else if decide (tt = Line) then ["flex"]
  else if decide (tt = LineNumbers ∨ tt = LineNumbersTable) then
    ["whitespace-pre"; "select-none"; "mr-[0.4em]"; "px-[0.4em]"]
  else if decide (tt = LineTable) then
    ["border-separate"; "border-spacing-0"; "p-0"; "m-0"; "border-0"]
  else if decide (tt = LineTableTD) then ["align-top"; "p-0"; "m-0"; "border-0"]
  else if decide (tt = LineLink) then ["outline-none"; "no-underline"; "text-[inherit]"]
  else [].

Record entryValues : Type := mkEntryValues {
  text : string;
  bg : string;
  bold : bool;
  italic : bool;
  underline : bool
}.

Definition entryValuesFrom (entry : StyleEntry) : entryValues :=
  {| text := if Colour_IsSet (Colour_ entry)
             then "text-[" +:+ Colour_String (Colour_ entry) +:+ "]" else "";
     bg := if Colour_IsSet (Background_ entry)
           then "bg-[" +:+ Colour_String (Background_ entry) +:+ "]" else "";
     bold := bool_decide (Bold entry = Yes);
     italic := bool_decide (Italic entry = Yes);
     underline := bool_decide (Underline entry = Yes) |}.

(** The method [entryValues.classes(prefix)]. *)
Definition entryValues_classes (e : entryValues) (prefix : string) : list string :=
  (if decide (text e ≠ "") then [prefixClass prefix (text e)] else []) ++
  (if decide (bg e ≠ "") then [prefixClass prefix (bg e)] else []) ++
  (if bold e then [prefixClass prefix "font-bold"] else []) ++
  (if italic e then [prefixClass prefix "italic"] else []) ++
  (if underline e then [prefixClass prefix "underline"] else []).

Definition darkVariantClasses (f : Formatter) (light dark : entryValues) : list string :=
  (if decide (text dark ≠ "") then [darkClass f (text dark)]
   else if decide (text light ≠ "") then [darkClass f "text-[inherit]"] else []) ++
  (if decide (bg dark ≠ "") then [darkClass f (bg dark)]
   else if decide (bg light ≠ "") then [darkClass f "bg-transparent"] else []) ++
  (if bold dark then [darkClass f "font-bold"]
   else if bold light then [darkClass f "font-normal"] else []) ++
  (if italic dark then [darkClass f "italic"]
   else if italic light then [darkClass f "not-italic"] else []) ++
  (if underline dark then [darkClass f "underline"]
   else if underline light then [darkClass f "no-underline"] else []).

(** Reading [classes[tt]]: a missing key reads as the empty string. *)
Definition mapGet (m : gmap Z string) (tt : TokenType) : string := default "" (m !! tt).

Section Differ.

(** The key set of [chroma.StandardTypes]; the table is not among the
    sources, and the formatter only ranges over its keys. *)
Variable StandardTypes : list TokenType.

(** The entries of category [t] from which the classes are derived: in
    [classes], the body of the loop up to the two [entryValuesFrom]. *)
Definition lightValuesOf (light : Style) (t : TokenType) : entryValues :=
  let bgLight := Get light Background in
  let lightEntry := Get light t in
  entryValuesFrom (if decide (t ≠ Background) then Sub lightEntry bgLight else lightEntry).

Definition darkValuesOf (dark : Style) (t : TokenType) : entryValues :=
  let bgDark := Get dark Background in
  let darkEntry := Get dark t in
  entryValuesFrom (if decide (t ≠ Background) then Sub darkEntry bgDark else darkEntry).

(** The three groups of classes of category [t], in the order they are
    appended to [parts]. *)
Definition partsOf (f : Formatter) (light dark : Style) (t : TokenType) : list string :=
  let lightValues := lightValuesOf light t in
  let darkValues := darkValuesOf dark t in
  prefixedClasses f (baseClasses f t) ++
  entryValues_classes lightValues (prefix f) ++
  darkVariantClasses f lightValues darkValues.

(** The loop [for t := range chroma.StandardTypes { ... classes[t] = ... }]. *)
Definition standardClasses (f : Formatter) (light dark : Style) : gmap Z string :=
  foldr (fun t classes => <[t := Str.Join (partsOf f light dark t) " "]> classes)
        ∅ StandardTypes.

(** [Formatter.classes(light, dark)]; [light] is dereferenced, so it is a
    location, and a nil [dark] defaults to [light]. *)
Definition classes (f : Formatter) (h : Heap) (light : loc) (dark : option loc)
  : gmap Z string :=
  let dark := default light dark in
  let classes := standardClasses f (h light) (h dark) in
  let classes :=
    let tabClass := tabWidthClass f in
    if decide (tabClass ≠ "")
    then <[Background := joinClasses (mapGet classes Background)
                                      (prefixClass (prefix f) tabClass)]> classes
    else classes in
  <[PreWrapper := joinClasses (mapGet classes PreWrapper) (mapGet classes Background)]> classes.

End Differ.


(** ** Class cache *)

Definition classCacheLimit : nat := 32.

Record classCacheEntry : Type := mkEntry {
  e_light : loc;
  e_dark : loc;
  e_cache : gmap Z string
}.

(** The field [cache] of [classCache]: the entries, least recently used
    first. The mutex serialises the calls of [get]; the formatter the cache
    points back to is passed to [get]. *)
Abbreviation classCache := (list classCacheEntry) (only parsing).

Definition newClassCache : classCache := [].

(** The builtin [copy(dst, src)]: the new contents of [dst] and the number of
    elements copied. *)
Definition copy {A : Type} (dst src : list A) : list A * nat :=
  let n := Nat.min (length dst) (length src) in
  (take n src ++ drop n dst, n).

(** The loop [for i := len(c.cache) - 1; i >= 0; i--] of [get], started with
    [n = i + 1]: the greatest index below [n] whose entry has the two
    identities. *)
Fixpoint lookupFrom (c : classCache) (n : nat) (light dark : loc) : option (nat * classCacheEntry) :=
  match n with
  | O => None
  | S i =>
      match c !! i with
      | Some entry =>
          if decide (e_light entry = light ∧ e_dark entry = dark)
          then Some (i, entry)
          else lookupFrom c i light dark
      | None => lookupFrom c i light dark
      end
  end.

Section Cache.

Variable StandardTypes : list TokenType.

(** [classCache.get(light, dark)]: the cache after the call and the mapping
    returned. *)
Definition get (f : Formatter) (h : Heap) (c : classCache) (light : loc) (dark : option loc)
  : classCache * gmap Z string :=
  let dark := default light dark in
  match lookupFrom c (length c) light dark with
  | Some (i, entry) =>
      if decide (i = (length c - 1)%nat) then (c, e_cache entry)
      else
        (* copy(c.cache[i:], c.cache[i+1:]); c.cache[len(c.cache)-1] = entry *)
        let c := take i c ++ fst (copy (drop i c) (drop (S i) c)) in
        let c := <[(length c - 1)%nat := entry]> c in
        (c, e_cache entry)
  | None =>
      let cached := classes StandardTypes f h light (Some dark) in
      let c :=
        if (classCacheLimit <=? length c)%nat
        then let '(arr, n) := copy c (drop 1 c) in take n arr
        else c in
      (c ++ [mkEntry light dark cached], cached)
  end.

End Cache.

(** The identity pair an entry is stored under. *)
Definition keyOf (e : classCacheEntry) : loc * loc := (e_light e, e_dark e).

(** ** Configuration options *)

Definition TabWidth (width : Z) (f : Formatter) : Formatter :=
  {| standalone := standalone f; prefix := prefix f; darkStyle := darkStyle f;
     preWrapper := preWrapper f; inlineCode := inlineCode f;
     preventSurroundingPre := preventSurroundingPre f; tabWidth := width;
     wrapLongLines := wrapLongLines f; lineNumbers := lineNumbers f;
     lineNumbersInTable := lineNumbersInTable f;
     linkableLineNumbers := linkableLineNumbers f;
     lineNumbersIDPrefix := lineNumbersIDPrefix f;
     highlightRanges := highlightRanges f; baseLineNumber := baseLineNumber f |}.

Definition WithDarkStyle (style : option loc) (f : Formatter) : Formatter :=
  {| standalone := standalone f; prefix := prefix f; darkStyle := style;
     preWrapper := preWrapper f; inlineCode := inlineCode f;
     preventSurroundingPre := preventSurroundingPre f; tabWidth := tabWidth f;
     wrapLongLines := wrapLongLines f; lineNumbers := lineNumbers f;
     lineNumbersInTable := lineNumbersInTable f;
     linkableLineNumbers := linkableLineNumbers f;
     lineNumbersIDPrefix := lineNumbersIDPrefix f;
     highlightRanges := highlightRanges f; baseLineNumber := baseLineNumber f |}.

Definition PreventSurroundingPre (b : bool) (f : Formatter) : Formatter :=
  {| standalone := standalone f; prefix := prefix f; darkStyle := darkStyle f;
     preWrapper := if b then nopPreWrapper else defaultPreWrapper;
     inlineCode := inlineCode f;
     preventSurroundingPre := b; tabWidth := tabWidth f;
     wrapLongLines := wrapLongLines f; lineNumbers := lineNumbers f;
     lineNumbersInTable := lineNumbersInTable f;
     linkableLineNumbers := linkableLineNumbers f;
     lineNumbersIDPrefix := lineNumbersIDPrefix f;
     highlightRanges := highlightRanges f; baseLineNumber := baseLineNumber f |}.

(** The assignment [f.highlightRanges = ranges]: the formatter holds the
    caller's slice itself. *)
Definition setHighlightRanges (ranges : slice) (f : Formatter) : Formatter :=
  {| standalone := standalone f; prefix := prefix f; darkStyle := darkStyle f;
     preWrapper := preWrapper f; inlineCode := inlineCode f;
     preventSurroundingPre := preventSurroundingPre f; tabWidth := tabWidth f;
     wrapLongLines := wrapLongLines f; lineNumbers := lineNumbers f;
     lineNumbersInTable := lineNumbersInTable f;
     linkableLineNumbers := linkableLineNumbers f;
     lineNumbersIDPrefix := lineNumbersIDPrefix f;
     highlightRanges := ranges; baseLineNumber := baseLineNumber f |}.

(** [highlightRanges.Less(i, j)] on the two elements. *)
Definition Less (a b : Z * Z) : bool := a.1 <? b.1.

(** What [sort.Sort] leaves behind: the same elements, none less than one
    before it. *)
Definition sortedByStart (l : list (Z * Z)) : Prop :=
  StronglySorted (fun a b => Less b a = false) l.

Definition sortContract (sortSort : list (Z * Z) → list (Z * Z)) (l : list (Z * Z)) : Prop :=
  Permutation l (sortSort l) ∧ sortedByStart (sortSort l).

(** A sort that meets the contract, for the closed instances: insertion
    sort with [Less] of [highlightRanges], each element placed before the
    first element of the sorted prefix it is less than. *)
Fixpoint insertSorted (x : Z * Z) (l : list (Z * Z)) : list (Z * Z) :=
  match l with
  | [] => [x]
  | y :: l' => if Less x y then x :: y :: l' else y :: insertSorted x l'
  end.

Definition insertionSort (l : list (Z * Z)) : list (Z * Z) :=
  fold_left (fun acc x => insertSorted x acc) l [].

Section Options.

(** [sort.Sort] of the Go library; its choice among equal start lines is not
    fixed, so it is a parameter. *)
Variable sortSort : list (Z * Z) → list (Z * Z).

(** The option [HighlightLines(ranges)] applied to the formatter: the slice
    is stored, then sorted in place through it. *)
Definition HighlightLines (ranges : slice) (st : Store) (f : Formatter) : Store * Formatter :=
  let f := setHighlightRanges ranges f in
  (writeSlice st (highlightRanges f) (sortSort (readSlice st (highlightRanges f))), f).

End Options.

(** ** Renderer *)

(** The byte [0x22], and a value between two of them. *)
Definition dquote : string := String (ascii_of_nat 34) "".
Definition quoted (s : string) : string := dquote +:+ s +:+ dquote.

(** [html.EscapeString] of the Go library: it escapes only the five bytes
    ampersand, apostrophe, less-than, greater-than and double quote, the last
    as [&#34;]. *)
Definition escapeByte (c : ascii) : string :=
  if Ascii.eqb c "&" then "&amp;"
  else if Ascii.eqb c "'" then "&#39;"
  else if Ascii.eqb c "<" then "&lt;"
  else if Ascii.eqb c ">" then "&gt;"
  else if Ascii.eqb c (ascii_of_nat 34) then "&#34;"
  else String c "".

Fixpoint EscapeString (s : string) : string :=
  match s with
  | EmptyString => ""
  | String c rest => escapeByte c +:+ EscapeString rest
  end.

(** The line feed of the Go literals. *)
Definition nl : string := String (ascii_of_nat 10) "".

(** [fmt.Sprintf] with the verb [%*d]: the decimal number, padded with spaces
    on the left to [width] bytes. *)
Definition padLeft (width : nat) (s : string) : string :=
  Str.spaces (width - String.length s) +:+ s.

(** Go's [error] values. *)
Abbreviation error := string (only parsing).

(** An [io.Writer]: the state of the sink, and [Write] giving the state after
    the call and the error returned. *)
Record Writer : Type := mkWriter {
  sink : Type;
  Write : sink → string → sink * option error
}.

(** A [bytes.Buffer]: every write is appended and succeeds. *)
Definition bufferWriter : Writer :=
  {| sink := string; Write := fun buf p => (buf +:+ p, None) |}.

(** Rendering steps: computations over the sink. *)
Definition Render (W : Writer) (A : Type) : Type := sink W → A * sink W.

Global Instance Render_ret (W : Writer) : MRet (Render W) := λ A x w, (x, w).
Global Instance Render_bind (W : Writer) : MBind (Render W) :=
  λ A B k m w, let '(a, w') := m w in k a w'.

(** [fmt.Fprint(w, s)] and [fmt.Fprintf(w, ...)] as statements: one call of
    [Write] with the formatted text; the count and the error they return are
    dropped, as in every call of [writeHTML]. *)
Definition Fprint (W : Writer) (s : string) : Render W unit :=
  λ w, (tt, fst (Write W w s)).

(** [if cond { body }]. *)
Definition when (W : Writer) (cond : bool) (body : Render W unit) : Render W unit :=
  if cond then body else mret tt.

(** The loop of [shouldHighlight] over the ranges from [highlightIndex] on. *)
Fixpoint skipEnded (rest : list (Z * Z)) (highlightIndex : nat) (line : Z) (next : bool)
  : nat * bool :=
  match rest with
  | [] => (highlightIndex, next)
  | hr :: rest' =>
      if hr.2 <? line then skipEnded rest' (S highlightIndex) line true
      else (highlightIndex, next)
  end.

(** [Formatter.shouldHighlight(highlightIndex, line)], on the contents of
    [f.highlightRanges]. The index starts at 0 and is only incremented: it is
    a [nat]. *)
Definition shouldHighlight (ranges : list (Z * Z)) (highlightIndex : nat) (line : Z)
  : bool * bool :=
  let '(highlightIndex, next) :=
    skipEnded (drop highlightIndex ranges) highlightIndex line false in
  match ranges !! highlightIndex with
  | Some hrange =>
      if (hrange.1 <=? line) && (line <=? hrange.2) then (true, next) else (false, next)
  | None => (false, next)
  end.

Definition lineID (f : Formatter) (line : Z) : string :=
  lineNumbersIDPrefix f +:+ Str.Itoa line.

Definition lineIDAttribute (f : Formatter) (line : Z) : string :=
  if negb (linkableLineNumbers f) then ""
  else " id=" +:+ quoted (lineID f line).

Section Renderer.

(** Parts that are not among the sources: the key set of the table of
    standard categories, the line splitter of the tokenizer package, and
    [strings.TrimSpace] and [strings.Fields] of the Go library, whose white
    space is Unicode's. *)
Variable StandardTypes : list TokenType.
Variable SplitTokensIntoLines : list Token → list (list Token).
Variable TrimSpace : string → string.
Variable Fields : string → list string.

Definition classAttr (f : Formatter) (classes : gmap Z string) (tt : TokenType)
  (extraClasses : list string) : string :=
  let parts := let cls := TrimSpace (mapGet classes tt) in
               if decide (cls ≠ "") then [cls] else [] in
  let parts :=
    parts ++
    flat_map (fun extra =>
      let extra := TrimSpace extra in
      if decide (extra = "") then []
      else
        let prefixed := prefixedClasses f (Fields extra) in
        if (0 <? length prefixed)%nat then [Str.Join prefixed " "] else [])
      extraClasses in
  if decide (length parts = 0%nat) then ""
  else " class=" +:+ quoted (Str.Join parts " ").

Definition lineTitleWithLinkIfNeeded (f : Formatter) (classes : gmap Z string)
  (lineDigits : nat) (line : Z) : string :=
  let title := padLeft lineDigits (Str.Itoa line) in
  if negb (linkableLineNumbers f) then title
  else "<a" +:+ classAttr f classes LineLink [] +:+ " href=" +:+ quoted ("#" +:+ lineID f line)
       +:+ ">" +:+ title +:+ "</a>".

(** What is written for one token: the escaped text, in a span when the
    category has classes. *)
Definition tokenHTML (f : Formatter) (classes : gmap Z string) (token : Token) : string :=
  let html := EscapeString (Token_String token) in
  let attr := classAttr f classes (Type_ token) [] in
  if decide (attr ≠ "") then "<span" +:+ attr +:+ ">" +:+ html +:+ "</span>" else html.

Section Writes.

Variable W : Writer.

(** The loop [for _, token := range tokens]. *)
Fixpoint writeTokens (f : Formatter) (classes : gmap Z string) (tokens : list Token)
  : Render W unit :=
  match tokens with
  | [] => mret tt
  | token :: rest =>
      Fprint W (tokenHTML f classes token) ;;
      writeTokens f classes rest
  end.

(** The body of the loop over the lines of the code block. *)
Definition writeLine (f : Formatter) (classes : gmap Z string) (wrapInTable : bool)
  (lineDigits : nat) (line : Z) (highlight : bool) (tokens : list Token) : Render W unit :=
  when W (negb (preventSurroundingPre f || inlineCode f)) (
    Fprint W "<span" ;;
    (if highlight then
       let lineClasses :=
         TrimSpace (Str.Join [mapGet classes Line; mapGet classes LineHighlight] " ") in
       when W (bool_decide (lineClasses ≠ "")) (Fprint W (" class=" +:+ quoted lineClasses)) ;;
       Fprint W ">"
     else Fprint W (classAttr f classes Line [] +:+ ">")) ;;
    when W (lineNumbers f && negb wrapInTable) (
      Fprint W ("<span" +:+ classAttr f classes LineNumbers [] +:+ lineIDAttribute f line
                +:+ ">" +:+ lineTitleWithLinkIfNeeded f classes lineDigits line +:+ "</span>")) ;;
    Fprint W ("<span" +:+ classAttr f classes CodeLine [] +:+ ">")) ;;
  writeTokens f classes tokens ;;
  when W (negb (preventSurroundingPre f || inlineCode f)) (
    Fprint W "</span>" ;;
    Fprint W "</span>").

(** The loop [for index, tokens := range lines] of the code block, entered
    at [index] with the cursor [highlightIndex]. *)
Fixpoint writeLines (f : Formatter) (ranges : list (Z * Z)) (classes : gmap Z string)
  (wrapInTable : bool) (lineDigits : nat) (lines : list (list Token))
  (index : Z) (highlightIndex : nat) : Render W unit :=
  match lines with
  | [] => mret tt
  | tokens :: rest =>
      let line := int_add (baseLineNumber f) index in
      let '(highlight, next) := shouldHighlight ranges highlightIndex line in
      let highlightIndex := if next then S highlightIndex else highlightIndex in
      writeLine f classes wrapInTable lineDigits line highlight tokens ;;
      writeLines f ranges classes wrapInTable lineDigits rest (index + 1) highlightIndex
  end.

(** The loop [for index := range lines] of the line-number column. *)
Fixpoint writeNumbers (f : Formatter) (ranges : list (Z * Z)) (classes : gmap Z string)
  (lineDigits : nat) (lines : list (list Token))
  (index : Z) (highlightIndex : nat) : Render W unit :=
  match lines with
  | [] => mret tt
  | _ :: rest =>
      let line := int_add (baseLineNumber f) index in
      let '(highlight, next) := shouldHighlight ranges highlightIndex line in
      let highlightIndex := if next then S highlightIndex else highlightIndex in
      when W highlight (Fprint W ("<span" +:+ classAttr f classes LineHighlight [] +:+ ">")) ;;
      Fprint W ("<span" +:+ classAttr f classes LineNumbersTable [] +:+ lineIDAttribute f line
                +:+ ">" +:+ lineTitleWithLinkIfNeeded f classes lineDigits line
                +:+ nl +:+ "</span>") ;;
      when W highlight (Fprint W "</span>") ;;
      writeNumbers f ranges classes lineDigits rest (index + 1) highlightIndex
  end.

(** [Formatter.writeHTML(w, style, tokens)]: the cache after the call and the
    error returned, over the sink. The formatter's cache is threaded
    explicitly; [style] is dereferenced, so it is a location. *)
Definition writeHTML (f : Formatter) (h : Heap) (st : Store) (c : classCache)
  (style : loc) (tokens : list Token) : Render W (classCache * option error) :=
  let '(c, classes) := get StandardTypes f h c style (darkStyle f) in
  let ranges := readSlice st (highlightRanges f) in
  when W (standalone f) (
    Fprint W ("<html>" +:+ nl) ;;
    Fprint W ("<body" +:+ classAttr f classes Background [] +:+ ">" +:+ nl)) ;;
  let wrapInTable := lineNumbers f && lineNumbersInTable f in
  let lines := SplitTokensIntoLines tokens in
  let lineDigits :=
    String.length
      (Str.Itoa (int_sub (int_add (baseLineNumber f) (Z.of_nat (length lines))) 1)) in
  when W wrapInTable (
    Fprint W ("<div" +:+ classAttr f classes PreWrapper [] +:+ ">" +:+ nl) ;;
    Fprint W ("<table" +:+ classAttr f classes LineTable [] +:+ "><tr>") ;;
    Fprint W ("<td" +:+ classAttr f classes LineTableTD [] +:+ ">" +:+ nl) ;;
    Fprint W (Start (preWrapper f) false (classAttr f classes PreWrapper [])) ;;
    writeNumbers f ranges classes lineDigits lines 0 0%nat ;;
    Fprint W (End_ (preWrapper f) false) ;;
    Fprint W ("</td>" +:+ nl) ;;
    Fprint W ("<td" +:+ classAttr f classes LineTableTD ["w-full"] +:+ ">" +:+ nl)) ;;
  Fprint W (Start (preWrapper f) true (classAttr f classes PreWrapper [])) ;;
  writeLines f ranges classes wrapInTable lineDigits lines 0 0%nat ;;
  Fprint W (End_ (preWrapper f) true) ;;
  when W wrapInTable (
    Fprint W ("</td></tr></table>" +:+ nl) ;;
    Fprint W ("</div>" +:+ nl)) ;;
  when W (standalone f) (
    Fprint W (nl +:+ "</body>" +:+ nl) ;;
    Fprint W ("</html>" +:+ nl)) ;;
  mret (c, None).

(** [Formatter.Format(w, style, iterator)]; the iterator is the list of the
    tokens it yields. *)
Definition Format (f : Formatter) (h : Heap) (st : Store) (c : classCache)
  (style : loc) (iterator : list Token) : Render W (classCache * option error) :=
  writeHTML f h st c style iterator.

End Writes.

End Renderer.

(** ** Instances for closed examples *)

Module Sample.

(** [strings.TrimSpace] and [strings.Fields] restricted to the ASCII white
    space (tab, line feed, vertical tab, form feed, carriage return, space),
    on which they agree with the Go library for ASCII text. *)
Fixpoint trimLeft (s : string) : string :=
  match s with
  | EmptyString => ""
  | String a s' => if Ascii.is_space a then trimLeft s' else s
  end.

Definition TrimSpace (s : string) : string :=
  String.rev (trimLeft (String.rev (trimLeft s))).

Definition Fields (s : string) : list string := String.words s.

(** Modelled from the spec: the line splitter is not among the sources. A line
    boundary occurs at each newline found inside token text; a token with
    embedded newlines is split across the boundaries, each fragment keeping
    the category. [splitAfter cur s] cuts [s] after each line feed, [cur]
    being the reversed fragment read so far. *)
Fixpoint splitAfter (cur : string) (s : string) : list string :=
  match s with
  | EmptyString => [String.rev cur]
  | String a s' =>
      if Ascii.eqb a (ascii_of_nat 10)
      then String.rev (String a cur) :: splitAfter "" s'
      else splitAfter (String a cur) s'
  end.

Fixpoint flushParts (tt : TokenType) (parts : list string) (line : list Token)
  : list (list Token) * list Token :=
  match parts with
  | [] => ([], line)
  | [p] => ([], line ++ [mkToken tt p])
  | p :: rest =>
      let '(out, line') := flushParts tt rest [] in
      ((line ++ [mkToken tt p]) :: out, line')
  end.

Fixpoint splitGo (tokens : list Token) (line : list Token) : list (list Token) :=
  match tokens with
  | [] => if (0 <? length line)%nat then [line] else []
  | token :: rest =>
      let '(out, line') := flushParts (Type_ token) (splitAfter "" (Value token)) line in
      out ++ splitGo rest line'
  end.

Definition SplitTokensIntoLines (tokens : list Token) : list (list Token) :=
  let out := splitGo tokens [] in
  match last out with
  | Some [t] => if decide (Value t = "") then take (length out - 1) out else out
  | _ => out
  end.

Definition Keyword : TokenType := 1000.
Definition NameFunction : TokenType := 2002.
Definition Text : TokenType := 8000.

Definition StandardTypes : list TokenType :=
  [Background; PreWrapper; Line; LineNumbers; LineNumbersTable; LineHighlight;
   LineTable; LineTableTD; LineLink; CodeLine; Keyword; NameFunction; Text].

Definition white : Colour := ColourRGB xff xff xff.
Definition ink : Colour := ColourRGB x24 x29 x2e.
Definition red : Colour := ColourRGB xd7 x3a x49.
Definition night : Colour := ColourRGB x0d x11 x17.
Definition salmon : Colour := ColourRGB xff x7b x72.
Definition cream : Colour := ColourRGB xff xff xcc.

(** A light theme: dark text on white, keywords red and bold, function names
    underlined, highlighted lines on cream. Every entry but the background's
    carries the background's colours, as an entry resolved by inheritance
    does. *)
Definition lightStyle : Style :=
  mkStyle (fun t =>
    if decide (t = Background) then mkStyleEntry ink white Pass Pass Pass
    else if decide (t = Keyword) then mkStyleEntry red white Yes Pass Pass
    else if decide (t = NameFunction) then mkStyleEntry ink white Pass Pass Yes
    else if decide (t = LineHighlight) then mkStyleEntry ink cream Pass Pass Pass
    else mkStyleEntry ink white Pass Pass Pass).

(** A dark theme: keywords salmon and not bold, nothing for function names. *)
Definition darkStyle : Style :=
  mkStyle (fun t =>
    if decide (t = Background) then mkStyleEntry white night Pass Pass Pass
    else if decide (t = Keyword) then mkStyleEntry salmon night Pass Pass Pass
    else mkStyleEntry white night Pass Pass Pass).

(** A theme whose keywords are white on white: the foreground of the
    category is the background colour of the theme, while the text of the
    theme is dark. *)
Definition paleStyle : Style :=
  mkStyle (fun t =>
    if decide (t = Keyword) then mkStyleEntry white white Pass Pass Pass
    else mkStyleEntry ink white Pass Pass Pass).

Definition paleHeap : Heap := fun _ => paleStyle.

(** The heap: the light theme at address 0, the dark theme at address 1, and
    a second copy of the light theme everywhere else. *)
Definition heap : Heap :=
  fun l => match l with O => lightStyle | 1%nat => darkStyle | _ => lightStyle end.

(** A sink that refuses every write and counts the calls. *)
Definition brokenWriter : Writer :=
  {| sink := nat; Write := fun calls _ => (S calls, Some "write failed") |}.

(** A formatter with the dark theme at address 1, and a short token stream of
    two lines. *)
Definition themed : Formatter := WithDarkStyle (Some 1%nat) newFormatter.

Definition tokens : list Token :=
  [mkToken Keyword "func"; mkToken Text " "; mkToken NameFunction "main";
   mkToken Text ("() {" +:+ nl); mkToken Text ("<a&b>" +:+ nl)].

(** The caller's array of highlight ranges, unsorted, and the slice over the
    whole of it. *)
Definition callerStore : Store := {[ 0%nat := [(7, 8); (3, 5)] ]}.
Definition callerSlice : slice := mkSlice 0 0 2.

(** Six lines, numbered 1 to 6 from the default base line number. *)
Definition sixLines : list (list Token) :=
  [[mkToken Text "a"]; [mkToken Text "b"]; [mkToken Text "c"];
   [mkToken Text "d"]; [mkToken Text "e"]; [mkToken Text "f"]].

(** A line of the code block holding the plain text [t], as rendered with
    the light theme alone: unmarked, and marked as highlighted. *)
Definition plainLine (t : string) : string :=
  "<span class=" +:+ quoted "flex" +:+ "><span>" +:+ t +:+ "</span></span>".

Definition markedLine (t : string) : string :=
  "<span class=" +:+ quoted "flex bg-[#ffffcc] dark:bg-[#ffffcc]" +:+ "><span>" +:+ t
  +:+ "</span></span>".

(** Thirty-three calls of [get], each with a light theme of its own. *)
Definition manyAccesses : list (nat * option nat) :=
  map (λ n, (n, None)) (seq 0 33).

End Sample.

(** ** Vocabulary of the properties *)

(** The five style fields the differ looks at. *)
Inductive Field : Type := FText | FBg | FBold | FItalic | FUnderline.

(** A field of a style entry is set: a colour that is set, a flag that is
    [Yes]. *)
Definition entrySet (fld : Field) (e : StyleEntry) : bool :=
  match fld with
  | FText => Colour_IsSet (Colour_ e)
  | FBg => Colour_IsSet (Background_ e)
  | FBold => bool_decide (Bold e = Yes)
  | FItalic => bool_decide (Italic e = Yes)
  | FUnderline => bool_decide (Underline e = Yes)
  end.

(** Two entries agree on a field. *)
Definition fieldEq (fld : Field) (e1 e2 : StyleEntry) : Prop :=
  match fld with
  | FText => Colour_ e1 = Colour_ e2
  | FBg => Background_ e1 = Background_ e2
  | FBold => Bold e1 = Bold e2
  | FItalic => Italic e1 = Italic e2
  | FUnderline => Underline e1 = Underline e2
  end.

(** The field is set in the values the classes are derived from. *)
Definition fieldSet (fld : Field) (e : entryValues) : bool :=
  match fld with
  | FText => bool_decide (text e ≠ "")
  | FBg => bool_decide (bg e ≠ "")
  | FBold => bold e
  | FItalic => italic e
  | FUnderline => underline e
  end.

(** The class name of a set field, before any prefix. *)
Definition fieldClass (fld : Field) (e : entryValues) : string :=
  match fld with
  | FText => text e
  | FBg => bg e
  | FBold => "font-bold"
  | FItalic => "italic"
  | FUnderline => "underline"
  end.

(** The dark-mode reset class name of a field. *)
Definition resetClass (fld : Field) : string :=
  match fld with
  | FText => "text-[inherit]"
  | FBg => "bg-transparent"
  | FBold => "font-normal"
  | FItalic => "not-italic"
  | FUnderline => "no-underline"
  end.

(** [strings.HasPrefix(s, p)]. *)
Fixpoint hasPrefix (p s : string) : bool :=
  match p with
  | EmptyString => true
  | String a p' =>
      match s with
      | EmptyString => false
      | String b s' => Ascii.eqb a b && hasPrefix p' s'
      end
  end.

(** The field a class name belongs to: text and background classes by their
    stem, the flag classes and the resets by name. *)
Definition fieldOfName (name : string) : option Field :=
  if hasPrefix "text-[" name then Some FText
  else if hasPrefix "bg-" name then Some FBg
  else if decide (name = "font-bold" ∨ name = "font-normal") then Some FBold
  else if decide (name = "italic" ∨ name = "not-italic") then Some FItalic
  else if decide (name = "underline" ∨ name = "no-underline") then Some FUnderline
  else None.

(** [c] is a class of field [fld]: a name of that field, prefixed, with or
    without the dark marker. *)
Definition ofField (f : Formatter) (fld : Field) (c : string) : Prop :=
  ∃ name, fieldOfName name = Some fld ∧
          (c = prefixClass (prefix f) name ∨ c = darkClass f name).

(** The first byte of a class name is none of the bytes of the dark marker. *)
Definition plainHead (name : string) : bool :=
  match name with
  | EmptyString => false
  | String c _ =>
      negb (Ascii.eqb c "d" || Ascii.eqb c "a" || Ascii.eqb c "r" || Ascii.eqb c "k"
            || Ascii.eqb c ":")
  end.

(** The tab-size class for width [n], prefixed. *)
Definition tabSizeClass (f : Formatter) (n : Z) : string :=
  prefixClass (prefix f) ("[tab-size:" +:+ Str.Itoa n +:+ "]").

(** *** The classes of a class string *)

Section MappingParts.

Variable StandardTypes : list TokenType.

(** The classes [classes] joins for category [t] in its loop over the
    standard categories, in order; none for any other category. *)
Definition standardParts (f : Formatter) (light dark : Style) (t : TokenType) : list string :=
  if decide (t ∈ StandardTypes) then partsOf f light dark t else [].

(** The tab-size class [classes] appends, if any. *)
Definition tabParts (f : Formatter) : list string :=
  if decide (tabWidthClass f ≠ "") then [prefixClass (prefix f) (tabWidthClass f)] else [].

(** The classes of the class string of [t] in the mapping, in order: those
    of the loop, for [Background] followed by the tab-size class, for the
    whole-block wrapper followed by all the classes of [Background]. *)
Definition mappingParts (f : Formatter) (light dark : Style) (t : TokenType) : list string :=
  if decide (t = PreWrapper)
  then standardParts f light dark PreWrapper ++ standardParts f light dark Background
       ++ tabParts f
  else if decide (t = Background) then standardParts f light dark Background ++ tabParts f
  else standardParts f light dark t.

End MappingParts.

(** *** Recency order of a sequence of accesses *)

(** Moving a key to the most-recently-used end. *)
Definition touch (k : nat * nat) (order : list (nat * nat)) : list (nat * nat) :=
  filter (λ k', k' ≠ k) order ++ [k].

(** The distinct keys of a sequence of accesses, least recently accessed
    first. *)
Definition recencyOrder (accesses : list (nat * nat)) : list (nat * nat) :=
  fold_left (λ order k, touch k order) accesses [].

(** One access on a least-recently-used list of keys with capacity [cap]: a
    key already held moves to the most-recently-used end; a new key is added
    there, after the least recently used key is dropped if the list is
    full. *)
Definition lruStep (cap : nat) (k : nat * nat) (keys : list (nat * nat)) : list (nat * nat) :=
  if decide (k ∈ keys) then filter (λ k', k' ≠ k) keys ++ [k]
  else (if (cap <=? length keys)%nat then drop 1 keys else keys) ++ [k].

(** The last [n] elements of a list. *)
Definition lastN {A : Type} (n : nat) (l : list A) : list A := drop (length l - n) l.

(** The identity pair a call [get(light, dark)] looks up. *)
Definition accessKey (a : nat * option nat) : nat * nat := (a.1, default a.1 a.2).

Section CacheRuns.

Variable StandardTypes : list TokenType.

(** The cache after a sequence of calls of [get], from the state [c]. *)
Definition cacheAfter (f : Formatter) (h : Heap) (c : classCache)
  (accesses : list (nat * option nat)) : classCache :=
  fold_left (λ c a, fst (get StandardTypes f h c a.1 a.2)) accesses c.

End CacheRuns.

(** *** Highlighting *)

(** The line number lies inside the inclusive range. *)
Definition inRange (line : Z) (hr : Z * Z) : bool := (hr.1 <=? line) && (line <=? hr.2).

(** The line number lies inside some configured range. *)
Definition inSomeRange (ranges : list (Z * Z)) (line : Z) : bool :=
  existsb (inRange line) ranges.

(** *** Writes *)

(** The calls of [Write] with the elements of [chunks], one after the other,
    whatever each call returns. *)
Definition writeAll (W : Writer) (chunks : list string) (w : sink W) : sink W :=
  fold_left (λ w p, fst (Write W w p)) chunks w.

(** The computation [m] returns [a] and issues exactly the writes [chunks],
    on every sink. *)
Definition Writes {A : Type} (m : ∀ W : Writer, Render W A) (a : A) (chunks : list string) : Prop :=
  ∀ (W : Writer) (w : sink W), m W w = (a, writeAll W chunks w).

(** [strings.Join(chunks, "")]: what a buffer holds after the writes. *)
Fixpoint concatAll (chunks : list string) : string :=
  match chunks with
  | [] => ""
  | p :: rest => p +:+ concatAll rest
  end.

Section Marked.

Variable TrimSpace : string → string.
Variable Fields : string → list string.
Variable W : Writer.

(** The code block with each line marked by a given predicate on line
    numbers: the property the cursor of [writeLines] is compared with. *)
Fixpoint writeLinesMarked (mark : Z → bool) (f : Formatter) (classes : gmap Z string)
  (wrapInTable : bool) (lineDigits : nat) (lines : list (list Token)) (index : Z)
  : Render W unit :=
  match lines with
  | [] => mret tt
  | tokens :: rest =>
      let line := int_add (baseLineNumber f) index in
      writeLine TrimSpace Fields W f classes wrapInTable lineDigits line (mark line) tokens ;;
      writeLinesMarked mark f classes wrapInTable lineDigits rest (index + 1)
  end.

(** The same for the line-number column. *)
Fixpoint writeNumbersMarked (mark : Z → bool) (f : Formatter) (classes : gmap Z string)
  (lineDigits : nat) (lines : list (list Token)) (index : Z) : Render W unit :=
  match lines with
  | [] => mret tt
  | _ :: rest =>
      let line := int_add (baseLineNumber f) index in
      when W (mark line)
        (Fprint W ("<span" +:+ classAttr TrimSpace Fields f classes LineHighlight [] +:+ ">")) ;;
      Fprint W ("<span" +:+ classAttr TrimSpace Fields f classes LineNumbersTable []
                +:+ lineIDAttribute f line +:+ ">"
                +:+ lineTitleWithLinkIfNeeded TrimSpace Fields f classes lineDigits line
                +:+ nl +:+ "</span>") ;;
      when W (mark line) (Fprint W "</span>") ;;
      writeNumbersMarked mark f classes lineDigits rest (index + 1)
  end.

End Marked.

Section LineElements.

Variable TrimSpace : string → string.
Variable Fields : string → list string.

(** The writes of one line element of the code block: the opening of the
    line, carrying the classes of [Line] and, when the line is marked as
    highlighted, those of [LineHighlight] as well; the inline line number;
    the opening of the code; one write per token; the two closings. *)
Definition lineWrites (f : Formatter) (classes : gmap Z string) (wrapInTable : bool)
  (lineDigits : nat) (line : Z) (highlight : bool) (tokens : list Token) : list string :=
  (["<span"] ++
   (if highlight then
      (if bool_decide
            (TrimSpace (Str.Join [mapGet classes Line; mapGet classes LineHighlight] " ") ≠ "")
       then [" class=" +:+
             quoted (TrimSpace
                       (Str.Join [mapGet classes Line; mapGet classes LineHighlight] " "))]
       else []) ++ [">"]
    else [classAttr TrimSpace Fields f classes Line [] +:+ ">"]) ++
   (if lineNumbers f && negb wrapInTable
    then ["<span" +:+ classAttr TrimSpace Fields f classes LineNumbers []
          +:+ lineIDAttribute f line +:+ ">"
          +:+ lineTitleWithLinkIfNeeded TrimSpace Fields f classes lineDigits line
          +:+ "</span>"]
    else []) ++
   ["<span" +:+ classAttr TrimSpace Fields f classes CodeLine [] +:+ ">"]) ++
  map (tokenHTML TrimSpace Fields f classes) tokens ++ ["</span>"; "</span>"].

(** The writes of the code block whose lines are marked by [mark]. *)
Fixpoint codeBlockWrites (mark : Z → bool) (f : Formatter) (classes : gmap Z string)
  (wrapInTable : bool) (lineDigits : nat) (lines : list (list Token)) (index : Z)
  : list string :=
  match lines with
  | [] => []
  | tokens :: rest =>
      let line := int_add (baseLineNumber f) index in
      lineWrites f classes wrapInTable lineDigits line (mark line) tokens ++
      codeBlockWrites mark f classes wrapInTable lineDigits rest (index + 1)
  end.

(** The writes of the line-number column whose lines are marked by [mark]:
    the number of a marked line sits inside an element carrying the classes
    of [LineHighlight]. *)
Fixpoint numberColumnWrites (mark : Z → bool) (f : Formatter) (classes : gmap Z string)
  (lineDigits : nat) (lines : list (list Token)) (index : Z) : list string :=
  match lines with
  | [] => []
  | _ :: rest =>
      let line := int_add (baseLineNumber f) index in
      (if mark line
       then ["<span" +:+ classAttr TrimSpace Fields f classes LineHighlight [] +:+ ">"]
       else []) ++
      ["<span" +:+ classAttr TrimSpace Fields f classes LineNumbersTable []
       +:+ lineIDAttribute f line +:+ ">"
       +:+ lineTitleWithLinkIfNeeded TrimSpace Fields f classes lineDigits line
       +:+ nl +:+ "</span>"] ++
      (if mark line then ["</span>"] else []) ++
      numberColumnWrites mark f classes lineDigits rest (index + 1)
  end.

End LineElements.

(** ** Further options and methods *)

(** The wrapper installed by [InlineCode]: a [code] element around the code,
    nothing around the line numbers. *)
Definition inlinePreWrapper : PreWrapperT :=
  {| Start := fun code classAttr => if code then "<code" +:+ classAttr +:+ ">" else "";
     End_ := fun code => if code then "</code>" else "" |}.

(** The option [Standalone(b)]. *)
Definition Standalone (b : bool) (f : Formatter) : Formatter :=
  {| standalone := b;
     prefix := prefix f;
     darkStyle := darkStyle f;
     preWrapper := preWrapper f;
     inlineCode := inlineCode f;
     preventSurroundingPre := preventSurroundingPre f;
     tabWidth := tabWidth f;
     wrapLongLines := wrapLongLines f;
     lineNumbers := lineNumbers f;
     lineNumbersInTable := lineNumbersInTable f;
     linkableLineNumbers := linkableLineNumbers f;
     lineNumbersIDPrefix := lineNumbersIDPrefix f;
     highlightRanges := highlightRanges f;
     baseLineNumber := baseLineNumber f |}.

(** The option [ClassPrefix(prefix)]. *)
Definition ClassPrefix (p : string) (f : Formatter) : Formatter :=
  {| standalone := standalone f;
     prefix := p;
     darkStyle := darkStyle f;
     preWrapper := preWrapper f;
     inlineCode := inlineCode f;
     preventSurroundingPre := preventSurroundingPre f;
     tabWidth := tabWidth f;
     wrapLongLines := wrapLongLines f;
     lineNumbers := lineNumbers f;
     lineNumbersInTable := lineNumbersInTable f;
     linkableLineNumbers := linkableLineNumbers f;
     lineNumbersIDPrefix := lineNumbersIDPrefix f;
     highlightRanges := highlightRanges f;
     baseLineNumber := baseLineNumber f |}.

(** The option [InlineCode(b)]: the flag is set to [b], and the wrapper is
    replaced whatever [b] is. *)
Definition InlineCode (b : bool) (f : Formatter) : Formatter :=
  {| standalone := standalone f;
     prefix := prefix f;
     darkStyle := darkStyle f;
     preWrapper := inlinePreWrapper;
     inlineCode := b;
     preventSurroundingPre := preventSurroundingPre f;
     tabWidth := tabWidth f;
     wrapLongLines := wrapLongLines f;
     lineNumbers := lineNumbers f;
     lineNumbersInTable := lineNumbersInTable f;
     linkableLineNumbers := linkableLineNumbers f;
     lineNumbersIDPrefix := lineNumbersIDPrefix f;
     highlightRanges := highlightRanges f;
     baseLineNumber := baseLineNumber f |}.

(** The option [WithPreWrapper(wrapper)]. *)
Definition WithPreWrapper (wrapper : PreWrapperT) (f : Formatter) : Formatter :=
  {| standalone := standalone f;
     prefix := prefix f;
     darkStyle := darkStyle f;
     preWrapper := wrapper;
     inlineCode := inlineCode f;
     preventSurroundingPre := preventSurroundingPre f;
     tabWidth := tabWidth f;
     wrapLongLines := wrapLongLines f;
     lineNumbers := lineNumbers f;
     lineNumbersInTable := lineNumbersInTable f;
     linkableLineNumbers := linkableLineNumbers f;
     lineNumbersIDPrefix := lineNumbersIDPrefix f;
     highlightRanges := highlightRanges f;
     baseLineNumber := baseLineNumber f |}.

(** The option [WrapLongLines(b)]. *)
Definition WrapLongLines (b : bool) (f : Formatter) : Formatter :=
  {| standalone := standalone f;
     prefix := prefix f;
     darkStyle := darkStyle f;
     preWrapper := preWrapper f;
     inlineCode := inlineCode f;
     preventSurroundingPre := preventSurroundingPre f;
     tabWidth := tabWidth f;
     wrapLongLines := b;
     lineNumbers := lineNumbers f;
     lineNumbersInTable := lineNumbersInTable f;
     linkableLineNumbers := linkableLineNumbers f;
     lineNumbersIDPrefix := lineNumbersIDPrefix f;
     highlightRanges := highlightRanges f;
     baseLineNumber := baseLineNumber f |}.

(** The option [WithLineNumbers(b)]. *)
Definition WithLineNumbers (b : bool) (f : Formatter) : Formatter :=
  {| standalone := standalone f;
     prefix := prefix f;
     darkStyle := darkStyle f;
     preWrapper := preWrapper f;
     inlineCode := inlineCode f;
     preventSurroundingPre := preventSurroundingPre f;
     tabWidth := tabWidth f;
     wrapLongLines := wrapLongLines f;
     lineNumbers := b;
     lineNumbersInTable := lineNumbersInTable f;
     linkableLineNumbers := linkableLineNumbers f;
     lineNumbersIDPrefix := lineNumbersIDPrefix f;
     highlightRanges := highlightRanges f;
     baseLineNumber := baseLineNumber f |}.

(** The option [LineNumbersInTable(b)]. *)
Definition LineNumbersInTable (b : bool) (f : Formatter) : Formatter :=
  {| standalone := standalone f;
     prefix := prefix f;
     darkStyle := darkStyle f;
     preWrapper := preWrapper f;
     inlineCode := inlineCode f;
     preventSurroundingPre := preventSurroundingPre f;
     tabWidth := tabWidth f;
     wrapLongLines := wrapLongLines f;
     lineNumbers := lineNumbers f;
     lineNumbersInTable := b;
     linkableLineNumbers := linkableLineNumbers f;
     lineNumbersIDPrefix := lineNumbersIDPrefix f;
     highlightRanges := highlightRanges f;
     baseLineNumber := baseLineNumber f |}.

(** The option [WithLinkableLineNumbers(b, prefix)]. *)
Definition WithLinkableLineNumbers (b : bool) (p : string) (f : Formatter) : Formatter :=
  {| standalone := standalone f;
     prefix := prefix f;
     darkStyle := darkStyle f;
     preWrapper := preWrapper f;
     inlineCode := inlineCode f;
     preventSurroundingPre := preventSurroundingPre f;
     tabWidth := tabWidth f;
     wrapLongLines := wrapLongLines f;
     lineNumbers := lineNumbers f;
     lineNumbersInTable := lineNumbersInTable f;
     linkableLineNumbers := b;
     lineNumbersIDPrefix := p;
     highlightRanges := highlightRanges f;
     baseLineNumber := baseLineNumber f |}.

(** The option [BaseLineNumber(n)]. *)
Definition BaseLineNumber (n : Z) (f : Formatter) : Formatter :=
  {| standalone := standalone f;
     prefix := prefix f;
     darkStyle := darkStyle f;
     preWrapper := preWrapper f;
     inlineCode := inlineCode f;
     preventSurroundingPre := preventSurroundingPre f;
     tabWidth := tabWidth f;
     wrapLongLines := wrapLongLines f;
     lineNumbers := lineNumbers f;
     lineNumbersInTable := lineNumbersInTable f;
     linkableLineNumbers := linkableLineNumbers f;
     lineNumbersIDPrefix := lineNumbersIDPrefix f;
     highlightRanges := highlightRanges f;
     baseLineNumber := n |}.

(** [highlightRanges.Len()]. *)
Definition highlightRanges_Len (h : slice) : nat := s_len h.

(** [highlightRanges.Less(i, j)] on the slice: [None] is the panic of an
    index out of range. Indices are [nat]: [sort.Sort] passes none below 0. *)
Definition highlightRanges_Less (st : Store) (h : slice) (i j : nat) : option bool :=
  match readSlice st h !! i, readSlice st h !! j with
  | Some a, Some b => Some (Less a b)
  | _, _ => None
  end.

(** [highlightRanges.Swap(i, j)]: [h[i], h[j] = h[j], h[i]], written through
    the slice into the backing array. *)
Definition highlightRanges_Swap (st : Store) (h : slice) (i j : nat) : option Store :=
  match readSlice st h !! i, readSlice st h !! j with
  | Some a, Some b => Some (writeSlice st h (<[j := a]> (<[i := b]> (readSlice st h))))
  | _, _ => None
  end.

(** *** Vocabulary of the further properties *)

(** A string without its first [n] bytes. *)
Fixpoint dropBytes (n : nat) (s : string) : string :=
  match n, s with
  | O, _ => s
  | S n', String _ s' => dropBytes n' s'
  | S _, EmptyString => ""
  end.

(** The class [c], generated under the empty prefix, with the prefix [p]
    put in front of its name: behind the dark marker when it has one. *)
Definition underPrefix (p c : string) : string :=
  if hasPrefix "dark:" c then "dark:" +:+ p +:+ dropBytes 5 c else p +:+ c.

(** The number of elements of [chunks] equal to [p]. *)
Definition countWrites (p : string) (chunks : list string) : nat :=
  length (filter (λ q, q = p) chunks).

(** A write that neither opens nor closes a line. *)
Definition plainWrite (c : string) : Prop := c ≠ "<span" ∧ c ≠ "</span>".

(** A writer that records the arguments of the calls of [Write], in order. *)
Definition logWriter : Writer :=
  {| sink := list string; Write := fun calls p => (calls ++ [p], None) |}.

(** Two formatters built with the further options. *)
Module SampleOptions.

Definition inlineNumbered : Formatter :=
  InlineCode true
    (WithLinkableLineNumbers true "L"
       (BaseLineNumber 10 (WithLineNumbers true (WrapLongLines true newFormatter)))).

Definition customWrapper : Formatter :=
  WithPreWrapper nopPreWrapper (LineNumbersInTable true newFormatter).

End SampleOptions.

(** *** The claim on write failures, as the specification states it *)

(** On a sink whose every write fails with the error [e], [Format] returns
    [e]. *)
Definition propagatesWriteError : Prop :=
  ∀ (W : Writer) (f : Formatter) (h : Heap) (st : Store) (c : classCache) (style : loc)
    (iterator : list Token) (w : sink W) (e : error),
    (∀ w' p, snd (Write W w' p) = Some e) →
    snd (fst (Format Sample.StandardTypes Sample.SplitTokensIntoLines Sample.TrimSpace
                     Sample.Fields W f h st c style iterator w)) = Some e.

(** *** The claim on the background colour, as the specification states it *)

(** A category other than [Background] whose foreground colour is the
    background colour of its theme has no [text-[...]] class in its class
    string; stated for a single theme. *)
Definition suppressesTextOnBackground : Prop :=
  ∀ (f : Formatter) (h : Heap) (light : loc) (t : TokenType),
    In t Sample.StandardTypes → t ≠ Background →
    Colour_ (Get (h light) t) = Background_ (Get (h light) Background) →
    ¬ Str.contains (mapGet (classes Sample.StandardTypes f h light None) t) "text-[".

(** * Properties *)

(** ** Strings *)

Lemma app_nil_l (t : string) : "" +:+ t = t.
Proof. reflexivity. Qed.

Lemma app_cons (a : ascii) (s t : string) : String a s +:+ t = String a (s +:+ t).
Proof. reflexivity. Qed.

Lemma app_nil_r (s : string) : s +:+ "" = s.
Proof. induction s as [|a s IH]; [reflexivity|]. by rewrite app_cons, IH. Qed.

Lemma app_assoc_s (s t u : string) : (s +:+ t) +:+ u = s +:+ t +:+ u.
Proof. induction s as [|a s IH]; [reflexivity|]. by rewrite !app_cons, IH. Qed.

Lemma app_eq_nil (s t : string) : s +:+ t = "" → s = "" ∧ t = "".
Proof. destruct s; [rewrite app_nil_l; auto | rewrite app_cons; discriminate]. Qed.

Lemma bytes_app (s t : string) : Str.bytes (s +:+ t) = Str.bytes s ++ Str.bytes t.
Proof. induction s as [|a s IH]; [reflexivity|]. rewrite app_cons. simpl. by rewrite IH. Qed.

Lemma bytes_inj (s t : string) : Str.bytes s = Str.bytes t → s = t.
Proof.
  revert t. induction s as [|a s IH]; intros [|b t] H; simpl in H; try discriminate; auto.
  injection H as -> H. f_equal. auto.
Qed.

Lemma contains_refl (s : string) : Str.contains s s.
Proof. exists "", "". by rewrite app_nil_l, app_nil_r. Qed.

Lemma contains_app_l (s t c : string) : Str.contains s c → Str.contains (s +:+ t) c.
Proof.
  intros (a & b & ->). exists a, (b +:+ t). by rewrite !app_assoc_s.
Qed.

Lemma contains_app_r (s t c : string) : Str.contains t c → Str.contains (s +:+ t) c.
Proof.
  intros (a & b & ->). exists (s +:+ a), b. by rewrite !app_assoc_s.
Qed.


Lemma Join_cons (p : string) (rest : list string) (sep : string) :
  rest ≠ [] → Str.Join (p :: rest) sep = p +:+ sep +:+ Str.Join rest sep.
Proof. destruct rest; [done | reflexivity]. Qed.

Lemma Join_contains (parts : list string) (sep c : string) :
  In c parts → Str.contains (Str.Join parts sep) c.
Proof.
  induction parts as [|p rest IH]; [done|].
  intros [-> | Hin].
  - destruct rest; [apply contains_refl|].
    rewrite Join_cons by done. apply contains_app_l, contains_refl.
  - destruct rest as [|q rest]; [done|].
    rewrite Join_cons by done. apply contains_app_r, contains_app_r, IH, Hin.
Qed.

Lemma Join_app (p1 p2 : list string) (sep : string) :
  p1 ≠ [] → p2 ≠ [] →
  Str.Join (p1 ++ p2) sep = Str.Join p1 sep +:+ sep +:+ Str.Join p2 sep.
Proof.
  intros H1 H2. induction p1 as [|p rest IH]; [done|].
  destruct rest as [|q rest].
  - simpl app. by rewrite Join_cons.
  - change ((p :: q :: rest) ++ p2) with (p :: ((q :: rest) ++ p2)).
    rewrite Join_cons by done. rewrite IH by done.
    rewrite (Join_cons p (q :: rest)) by done. by rewrite !app_assoc_s.
Qed.

Lemma Join_nil_inv (parts : list string) (sep : string) :
  Str.Join parts sep ≠ "" → parts ≠ [].
Proof. by destruct parts. Qed.

(** A string that reappears behind a marker: if [D ++ P ++ X = P ++ Y] then
    [Y] starts with a byte of the marker [D]. *)
Lemma rotate_head (P D : list ascii) (X Y : list ascii) :
  D ≠ [] → D ++ P ++ X = P ++ Y → ∃ c Y', Y = c :: Y' ∧ In c D.
Proof.
  revert D. induction P as [|p P IH]; intros D HD Heq.
  - destruct D as [|d D]; [done|]. simpl in Heq. subst Y.
    exists d, (D ++ X). split; [reflexivity | by left].
  - destruct D as [|d D]; [done|]. simpl in Heq. injection Heq as -> Heq.
    destruct (IH (D ++ [p])) as (c & Y' & -> & Hc).
    + by destruct D.
    + rewrite <- Heq. by rewrite <- !app_assoc.
    + exists c, Y'. split; [done|].
      apply in_app_or in Hc as [Hc | [-> | []]]; [by right | by left].
Qed.

Lemma prefixClass_app (p c : string) : prefixClass p c = p +:+ c.
Proof. unfold prefixClass. case_decide; [by subst|done]. Qed.

Lemma prefixClass_inj (p c1 c2 : string) : prefixClass p c1 = prefixClass p c2 → c1 = c2.
Proof. rewrite !prefixClass_app. apply String.app_inj. Qed.

Lemma darkClass_inj (f : Formatter) (c1 c2 : string) : darkClass f c1 = darkClass f c2 → c1 = c2.
Proof. unfold darkClass. intros H. by apply String.app_inj, prefixClass_inj in H. Qed.

Lemma prefix_ne_dark (f : Formatter) (n1 n2 : string) :
  plainHead n1 = true → prefixClass (prefix f) n1 ≠ darkClass f n2.
Proof.
  intros Hp Heq. unfold darkClass in Heq. rewrite !prefixClass_app in Heq.
  apply (f_equal Str.bytes) in Heq. rewrite !bytes_app in Heq. symmetry in Heq.
  apply rotate_head in Heq as (c & Y' & HY & Hc); [|done].
  destruct n1 as [|a n1]; [done|]. simpl in HY. injection HY as <- _.
  simpl in Hp, Hc.
  destruct Hc as [<-|[<-|[<-|[<-|[<-|[]]]]]]; done.
Qed.

(** ** Style differ: class names and fields *)

Lemma fieldOfName_plainHead (name : string) (fld : Field) :
  fieldOfName name = Some fld → plainHead name = true.
Proof.
  unfold fieldOfName. destruct name as [|c name].
  - simpl. repeat case_decide; naive_solver.
  - cbn [hasPrefix].
    destruct (Ascii.eqb_spec "t" c) as [<-|_]; [done|].
    destruct (Ascii.eqb_spec "b" c) as [<-|_]; [done|].
    cbn [andb]. repeat case_decide; try done;
      repeat match goal with H : _ ∨ _ |- _ => destruct H as [H|H] end;
      by simplify_eq.
Qed.

Lemma fieldOfName_reset (fld : Field) : fieldOfName (resetClass fld) = Some fld.
Proof. by destruct fld. Qed.

Lemma resetClass_inj (fld fld' : Field) : resetClass fld = resetClass fld' → fld = fld'.
Proof. by destruct fld, fld'. Qed.

Lemma fieldClass_from (fld : Field) (entry : StyleEntry) :
  fieldSet fld (entryValuesFrom entry) = true →
  fieldOfName (fieldClass fld (entryValuesFrom entry)) = Some fld ∧
  plainHead (fieldClass fld (entryValuesFrom entry)) = true ∧
  ∀ fld', fieldClass fld (entryValuesFrom entry) ≠ resetClass fld'.
Proof.
  destruct entry as [c b bo it un].
  destruct fld; simpl; intros Hset.
  - destruct c; [done|]. repeat split; [done..|]. by intros [].
  - destruct b; [done|]. repeat split; [done..|]. by intros [].
  - repeat split; [done..|]. by intros [].
  - repeat split; [done..|]. by intros [].
  - repeat split; [done..|]. by intros [].
Qed.

Lemma fieldSet_from (fld : Field) (entry : StyleEntry) :
  fieldSet fld (entryValuesFrom entry) = entrySet fld entry.
Proof.
  destruct entry as [c b bo it un]. destruct fld; simpl; try done.
  - by destruct c.
  - by destruct b.
Qed.

Lemma ofField_prefix (f : Formatter) (fld : Field) (n : string) :
  plainHead n = true → ofField f fld (prefixClass (prefix f) n) → fieldOfName n = Some fld.
Proof.
  intros Hp (name & Hname & [Heq | Heq]).
  - by apply prefixClass_inj in Heq as ->.
  - by apply prefix_ne_dark in Heq.
Qed.

Lemma ofField_dark (f : Formatter) (fld : Field) (n : string) :
  ofField f fld (darkClass f n) → fieldOfName n = Some fld.
Proof.
  intros (name & Hname & [Heq | Heq]).
  - symmetry in Heq. apply prefix_ne_dark in Heq; [done|].
    by eapply fieldOfName_plainHead.
  - by apply darkClass_inj in Heq as ->.
Qed.

(** The light classes are the prefixed class names of the set fields. *)
Lemma in_light_classes (e : entryValues) (p c : string) :
  In c (entryValues_classes e p) ↔
  ∃ fld, fieldSet fld e = true ∧ c = prefixClass p (fieldClass fld e).
Proof.
  unfold entryValues_classes. rewrite !in_app_iff. split.
  - intros [H|[H|[H|[H|H]]]].
    + case_decide; [|done]. destruct H as [<-|[]]. exists FText. simpl. by rewrite bool_decide_eq_true.
    + case_decide; [|done]. destruct H as [<-|[]]. exists FBg. simpl. by rewrite bool_decide_eq_true.
    + destruct (bold e) eqn:?; [|done]. destruct H as [<-|[]]. by exists FBold.
    + destruct (italic e) eqn:?; [|done]. destruct H as [<-|[]]. by exists FItalic.
    + destruct (underline e) eqn:?; [|done]. destruct H as [<-|[]]. by exists FUnderline.
  - intros (fld & Hset & ->). destruct fld; simpl in Hset.
    + left. apply bool_decide_eq_true in Hset. rewrite decide_True by done. by left.
    + right; left. apply bool_decide_eq_true in Hset. rewrite decide_True by done. by left.
    + do 2 right; left. rewrite Hset. by left.
    + do 3 right; left. rewrite Hset. by left.
    + do 4 right. rewrite Hset. by left.
Qed.

(** The dark classes: for each field, the dark-prefixed class of the dark
    value when the dark field is set, the reset when only the light field
    is. *)
Lemma in_dark_classes (f : Formatter) (l d : entryValues) (c : string) :
  In c (darkVariantClasses f l d) ↔
  ∃ fld, (fieldSet fld d = true ∧ c = darkClass f (fieldClass fld d)) ∨
         (fieldSet fld d = false ∧ fieldSet fld l = true ∧ c = darkClass f (resetClass fld)).
Proof.
  unfold darkVariantClasses. rewrite !in_app_iff. split.
  - intros [H|[H|[H|[H|H]]]].
    + exists FText. simpl. revert H.
      destruct (decide (text d ≠ "")) as [Hd|Hd].
      { intros [<-|[]]. left. by rewrite bool_decide_eq_true. }
      destruct (decide (text l ≠ "")) as [Hl|Hl]; [|done].
      intros [<-|[]]. right. by rewrite bool_decide_eq_false, bool_decide_eq_true.
    + exists FBg. simpl. revert H.
      destruct (decide (bg d ≠ "")) as [Hd|Hd].
      { intros [<-|[]]. left. by rewrite bool_decide_eq_true. }
      destruct (decide (bg l ≠ "")) as [Hl|Hl]; [|done].
      intros [<-|[]]. right. by rewrite bool_decide_eq_false, bool_decide_eq_true.
    + exists FBold. simpl. destruct (bold d), (bold l); try done; destruct H as [<-|[]]; auto.
    + exists FItalic. simpl. destruct (italic d), (italic l); try done; destruct H as [<-|[]]; auto.
    + exists FUnderline. simpl.
      destruct (underline d), (underline l); try done; destruct H as [<-|[]]; auto.
  - intros (fld & [(Hd & ->) | (Hd & Hl & ->)]); destruct fld; simpl in *;
      rewrite ?bool_decide_eq_true, ?bool_decide_eq_false in *.
    + left. rewrite decide_True by done. by left.
    + right; left. rewrite decide_True by done. by left.
    + do 2 right; left. rewrite Hd. by left.
    + do 3 right; left. rewrite Hd. by left.
    + do 4 right. rewrite Hd. by left.
    + left. rewrite decide_False by naive_solver. rewrite decide_True by done. by left.
    + right; left. rewrite decide_False by naive_solver. rewrite decide_True by done. by left.
    + do 2 right; left. rewrite Hd, Hl. by left.
    + do 3 right; left. rewrite Hd, Hl. by left.
    + do 4 right. rewrite Hd, Hl. by left.
Qed.

(** ** Style differ: the mapping *)

Lemma mapGet_insert (m : gmap Z string) (k t : Z) (v : string) :
  mapGet (<[k := v]> m) t = if decide (k = t) then v else mapGet m t.
Proof. unfold mapGet. rewrite lookup_insert. by case_decide. Qed.

Lemma contains_joinClasses_l (a b c : string) :
  Str.contains a c → Str.contains (joinClasses a b) c.
Proof.
  intros Hc. unfold joinClasses. case_decide as Ha.
  - subst a. destruct Hc as (x & y & Hxy). symmetry in Hxy.
    apply app_eq_nil in Hxy as [_ Hxy]. apply app_eq_nil in Hxy as [-> _].
    exists "", b. by rewrite !app_nil_l.
  - case_decide; [done|]. by apply contains_app_l.
Qed.

Lemma contains_joinClasses_r (a b c : string) :
  Str.contains b c → Str.contains (joinClasses a b) c.
Proof.
  intros Hc. unfold joinClasses. case_decide as Ha; [done|].
  case_decide as Hb.
  - subst b. destruct Hc as (x & y & Hxy). symmetry in Hxy.
    apply app_eq_nil in Hxy as [_ Hxy]. apply app_eq_nil in Hxy as [-> _].
    exists "", a. by rewrite !app_nil_l.
  - by apply contains_app_r, contains_app_r.
Qed.

(** Two names of one class have one field. *)
Ltac same_field Hof Hname :=
  let E := fresh "E" in
  pose proof (eq_trans (eq_sym Hof) Hname) as E; injection E as E; subst.

Section DifferFacts.

Variable StandardTypes : list TokenType.

Lemma standardClasses_lookup (f : Formatter) (L D : Style) (t : TokenType) :
  standardClasses StandardTypes f L D !! t =
  if decide (t ∈ StandardTypes) then Some (Str.Join (partsOf f L D t) " ") else None.
Proof.
  unfold standardClasses. induction StandardTypes as [|t0 ST IH].
  { cbn [foldr]. rewrite lookup_empty.
    destruct (decide (t ∈ @nil Z)) as [Hin|_]; [by apply elem_of_nil in Hin | done]. }
  simpl foldr. rewrite lookup_insert. destruct (decide (t0 = t)) as [->|Heq].
  - rewrite decide_True; [done | by left].
  - rewrite IH. destruct (decide (t ∈ ST)) as [Hin|Hin].
    + rewrite decide_True; [done | by right].
    + rewrite decide_False; [done|]. by intros [?|?]%elem_of_cons.
Qed.

Lemma standardClasses_get (f : Formatter) (L D : Style) (t : TokenType) :
  In t StandardTypes →
  mapGet (standardClasses StandardTypes f L D) t = Str.Join (partsOf f L D t) " ".
Proof.
  intros Hin%list_elem_of_In. unfold mapGet. rewrite standardClasses_lookup.
  by rewrite decide_True.
Qed.

Lemma classes_Background (f : Formatter) (h : Heap) (light : loc) (dark : option loc) :
  mapGet (classes StandardTypes f h light dark) Background =
  let s := mapGet (standardClasses StandardTypes f (h light) (h (default light dark))) Background in
  if decide (tabWidthClass f ≠ "")
  then joinClasses s (prefixClass (prefix f) (tabWidthClass f)) else s.
Proof.
  unfold classes. rewrite mapGet_insert. rewrite decide_False by done.
  case_decide; [|done]. rewrite mapGet_insert. by rewrite decide_True.
Qed.

Lemma classes_PreWrapper (f : Formatter) (h : Heap) (light : loc) (dark : option loc) :
  mapGet (classes StandardTypes f h light dark) PreWrapper =
  joinClasses
    (mapGet (standardClasses StandardTypes f (h light) (h (default light dark))) PreWrapper)
    (mapGet (classes StandardTypes f h light dark) Background).
Proof.
  rewrite classes_Background. unfold classes. rewrite mapGet_insert. rewrite decide_True by done.
  case_decide; [|done]. rewrite !mapGet_insert. rewrite decide_False by done.
  by rewrite decide_True.
Qed.

Lemma classes_other (f : Formatter) (h : Heap) (light : loc) (dark : option loc) (t : TokenType) :
  t ≠ Background → t ≠ PreWrapper →
  mapGet (classes StandardTypes f h light dark) t =
  mapGet (standardClasses StandardTypes f (h light) (h (default light dark))) t.
Proof.
  intros Hb Hp. unfold classes. rewrite mapGet_insert. rewrite decide_False by done.
  case_decide; [|done]. rewrite mapGet_insert. by rewrite decide_False.
Qed.

(** Every class derived for a standard category is in its class string. *)
Lemma classes_contains (f : Formatter) (h : Heap) (light : loc) (dark : option loc)
  (t : TokenType) (c : string) :
  In t StandardTypes →
  In c (partsOf f (h light) (h (default light dark)) t) →
  Str.contains (mapGet (classes StandardTypes f h light dark) t) c.
Proof.
  intros Hin Hc.
  assert (Str.contains
            (mapGet (standardClasses StandardTypes f (h light) (h (default light dark))) t) c)
    as Hstd.
  { rewrite standardClasses_get by done. by apply Join_contains. }
  destruct (decide (t = PreWrapper)) as [->|Hp].
  { rewrite classes_PreWrapper. by apply contains_joinClasses_l. }
  destruct (decide (t = Background)) as [->|Hb].
  { rewrite classes_Background. cbv zeta. case_decide; [|done].
    by apply contains_joinClasses_l. }
  by rewrite classes_other.
Qed.


Lemma light_no_field (f : Formatter) (fld : Field) (entry : StyleEntry) (c : string) :
  fieldSet fld (entryValuesFrom entry) = false →
  In c (entryValues_classes (entryValuesFrom entry) (prefix f)) → ¬ ofField f fld c.
Proof.
  intros Hl Hcin Hof. apply in_light_classes in Hcin as (fld2 & Hl2 & ->).
  destruct (fieldClass_from fld2 _ Hl2) as (Hname & Hplain & _).
  apply ofField_prefix in Hof; [|done]. same_field Hof Hname. congruence.
Qed.

Lemma dark_only_reset (f : Formatter) (fld : Field) (lv : entryValues) (entry : StyleEntry)
  (c : string) :
  fieldSet fld (entryValuesFrom entry) = false →
  In c (darkVariantClasses f lv (entryValuesFrom entry)) → ofField f fld c →
  fieldSet fld lv = true ∧ c = darkClass f (resetClass fld).
Proof.
  intros Hd Hcin Hof.
  apply in_dark_classes in Hcin as (fld2 & [(Hd2 & ->) | (Hd2 & Hl2 & ->)]).
  - apply ofField_dark in Hof.
    destruct (fieldClass_from fld2 _ Hd2) as (Hname & _ & _).
    same_field Hof Hname. congruence.
  - apply ofField_dark in Hof. pose proof (fieldOfName_reset fld2) as Hname.
    by same_field Hof Hname.
Qed.

Lemma entrySet_Sub_eq (fld : Field) (s e : StyleEntry) :
  fieldEq fld s e → entrySet fld (Sub s e) = false.
Proof.
  destruct fld; simpl; intros Heq; rewrite decide_True by done; done.
Qed.

Lemma entrySet_Sub_ne (fld : Field) (s e : StyleEntry) :
  ¬ fieldEq fld s e → entrySet fld (Sub s e) = entrySet fld s.
Proof.
  destruct fld; simpl; intros Hne; rewrite decide_False by (by intros ?); done.
Qed.

Lemma fieldClass_Sub_ne (fld : Field) (s e : StyleEntry) :
  ¬ fieldEq fld s e →
  fieldClass fld (entryValuesFrom (Sub s e)) = fieldClass fld (entryValuesFrom s).
Proof.
  destruct fld; simpl; intros Hne; try done; rewrite decide_False by (by intros ?); done.
Qed.

(** C3. For a standard category [t] other than [Background], each entry is
    subtracted field by field against the [Background] entry of its own
    theme, each field against the same field of the background entry: a
    field equal to the background's is unset in the values the classes are
    derived from, so the light entry gives no class of that field and the
    dark entry no dark-prefixed class of its value (the reset of the field
    remains possible, when the light field is set), while a field that
    differs is kept; with both fields equal to their background's no class of
    the field is derived at all. For [Background] itself the values are those
    of the entries as they are. The class string of [t] is made of the
    structural classes and of the classes of these values. A set field that
    differs from the same field of the background entry has its class in the
    class string, whatever the other fields of the background entry are: a
    foreground colour is compared with the foreground colour of the
    [Background] entry, never with its background colour, so a foreground
    equal to the theme's background colour keeps its [text-[...]] class
    unless it is also the foreground of the [Background] entry. *)
Theorem C3_background_subtraction (f : Formatter) (h : Heap) (light : loc) (dark : option loc)
  (t : TokenType) (fld : Field) :
  In t StandardTypes →
  let L := h light in
  let D := h (default light dark) in
  let lv := lightValuesOf L t in
  let dv := darkValuesOf D t in
  (t ≠ Background →
     (fieldEq fld (Get L t) (Get L Background) →
        fieldSet fld lv = false ∧
        ∀ c, In c (entryValues_classes lv (prefix f)) → ¬ ofField f fld c) ∧
     (¬ fieldEq fld (Get L t) (Get L Background) →
        fieldSet fld lv = entrySet fld (Get L t)) ∧
     (fieldEq fld (Get D t) (Get D Background) →
        fieldSet fld dv = false ∧
        ∀ c, In c (darkVariantClasses f lv dv) → ofField f fld c →
             fieldSet fld lv = true ∧ c = darkClass f (resetClass fld)) ∧
     (¬ fieldEq fld (Get D t) (Get D Background) →
        fieldSet fld dv = entrySet fld (Get D t)) ∧
     (fieldEq fld (Get L t) (Get L Background) →
      fieldEq fld (Get D t) (Get D Background) →
        ∀ c, In c (entryValues_classes lv (prefix f) ++ darkVariantClasses f lv dv) →
             ¬ ofField f fld c)) ∧
  (t = Background →
     lv = entryValuesFrom (Get L Background) ∧
     dv = entryValuesFrom (Get D Background) ∧
     fieldSet fld lv = entrySet fld (Get L Background) ∧
     fieldSet fld dv = entrySet fld (Get D Background)) ∧
  (t ≠ Background → t ≠ PreWrapper →
     mapGet (classes StandardTypes f h light dark) t =
     Str.Join (prefixedClasses f (baseClasses f t) ++
               entryValues_classes lv (prefix f) ++
               darkVariantClasses f lv dv) " ") ∧
  (t ≠ Background →
   ¬ fieldEq fld (Get L t) (Get L Background) → entrySet fld (Get L t) = true →
     In (prefixClass (prefix f) (fieldClass fld (entryValuesFrom (Get L t))))
        (entryValues_classes lv (prefix f)) ∧
     Str.contains (mapGet (classes StandardTypes f h light dark) t)
                  (prefixClass (prefix f) (fieldClass fld (entryValuesFrom (Get L t))))) ∧
  (t ≠ Background →
   Colour_IsSet (Colour_ (Get L t)) = true →
   Colour_ (Get L t) ≠ Colour_ (Get L Background) →
     Str.contains (mapGet (classes StandardTypes f h light dark) t)
                  (prefixClass (prefix f)
                     ("text-[" +:+ Colour_String (Colour_ (Get L t)) +:+ "]"))).
Proof.
  intros Hin L D lv dv.
  assert (∀ fld0, t ≠ Background →
            ¬ fieldEq fld0 (Get L t) (Get L Background) → entrySet fld0 (Get L t) = true →
            In (prefixClass (prefix f) (fieldClass fld0 (entryValuesFrom (Get L t))))
               (entryValues_classes lv (prefix f)) ∧
            Str.contains (mapGet (classes StandardTypes f h light dark) t)
              (prefixClass (prefix f) (fieldClass fld0 (entryValuesFrom (Get L t)))))
    as Hkept.
  { intros fld0 Hne Hneq Hset.
    assert (lv = entryValuesFrom (Sub (Get L t) (Get L Background))) as Hlv.
    { unfold lv, lightValuesOf. by rewrite decide_True. }
    assert (In (prefixClass (prefix f) (fieldClass fld0 (entryValuesFrom (Get L t))))
               (entryValues_classes lv (prefix f))) as Hc.
    { apply in_light_classes. exists fld0. rewrite Hlv. split.
      - by rewrite fieldSet_from, entrySet_Sub_ne.
      - by rewrite fieldClass_Sub_ne. }
    split; [exact Hc|]. apply classes_contains; [done|].
    unfold partsOf. fold L lv. apply in_or_app. right. apply in_or_app. by left. }
  split; [|split; [|split; [|split]]].
  - intros Hne.
    assert (lv = entryValuesFrom (Sub (Get L t) (Get L Background))) as Hlv.
    { unfold lv, lightValuesOf. by rewrite decide_True. }
    assert (dv = entryValuesFrom (Sub (Get D t) (Get D Background))) as Hdv.
    { unfold dv, darkValuesOf. by rewrite decide_True. }
    assert (fieldEq fld (Get L t) (Get L Background) → fieldSet fld lv = false) as HL.
    { intros Heq. by rewrite Hlv, fieldSet_from, entrySet_Sub_eq. }
    assert (fieldEq fld (Get D t) (Get D Background) → fieldSet fld dv = false) as HD.
    { intros Heq. by rewrite Hdv, fieldSet_from, entrySet_Sub_eq. }
    split; [|split; [|split; [|split]]].
    + intros Heq. split; [by apply HL|].
      intros c Hc. specialize (HL Heq). rewrite Hlv in HL, Hc. by eapply light_no_field.
    + intros Hneq. by rewrite Hlv, fieldSet_from, entrySet_Sub_ne.
    + intros Heq. split; [by apply HD|].
      intros c Hc Hof. specialize (HD Heq). rewrite Hdv in HD, Hc.
      by eapply dark_only_reset.
    + intros Hneq. by rewrite Hdv, fieldSet_from, entrySet_Sub_ne.
    + intros HeqL HeqD c Hc Hof. specialize (HL HeqL). specialize (HD HeqD).
      apply in_app_or in Hc as [Hc|Hc].
      * rewrite Hlv in HL, Hc. exact (light_no_field f fld _ c HL Hc Hof).
      * rewrite Hdv in HD, Hc.
        destruct (dark_only_reset f fld lv _ c HD Hc Hof) as [Hset _]. congruence.
  - intros ->.
    assert (lv = entryValuesFrom (Get L Background)) as Hlv.
    { unfold lv, lightValuesOf. by rewrite decide_False by (by intros ?). }
    assert (dv = entryValuesFrom (Get D Background)) as Hdv.
    { unfold dv, darkValuesOf. by rewrite decide_False by (by intros ?). }
    split; [exact Hlv|]. split; [exact Hdv|]. split.
    + by rewrite Hlv, fieldSet_from.
    + by rewrite Hdv, fieldSet_from.
  - intros Hb Hp. rewrite classes_other by done. by rewrite standardClasses_get.
  - apply Hkept.
  - intros Hne Hset Hneq.
    destruct (Hkept FText Hne Hneq Hset) as [_ Hc]. revert Hc.
    cbn [fieldClass entryValuesFrom text]. by rewrite Hset.
Qed.

Lemma in_prefixedClasses (f : Formatter) (l : list string) (c : string) :
  In c (prefixedClasses f l) → ∃ name, In name l ∧ c = prefixClass (prefix f) name.
Proof.
  unfold prefixedClasses. rewrite in_flat_map. intros (name & Hin & Hc).
  case_decide; [done|]. destruct Hc as [<-|[]]. by exists name.
Qed.

Lemma baseClasses_no_tab (f : Formatter) (t : TokenType) (name x : string) :
  In name (baseClasses f t) → name ≠ "[tab-size:" +:+ x.
Proof.
  unfold baseClasses.
  repeat case_decide;
    try destruct (0 <? s_len (highlightRanges f))%nat;
    try destruct (wrapLongLines f);
    simpl; intros Hin; intuition (subst; discriminate).
Qed.

Lemma tab_fieldOfName (x : string) : fieldOfName ("[tab-size:" +:+ x) = None.
Proof.
  unfold fieldOfName. rewrite !app_cons. cbn [hasPrefix Ascii.eqb Bool.eqb andb].
  repeat (rewrite decide_False by (intros [?|?]; discriminate)). done.
Qed.

(** No class derived for a category is a tab-size class. *)
Lemma parts_no_tab (f : Formatter) (L D : Style) (t : TokenType) (c : string) (n : Z) :
  In c (partsOf f L D t) → c ≠ tabSizeClass f n.
Proof.
  unfold partsOf, tabSizeClass. rewrite !in_app_iff. intros [Hc|[Hc|Hc]] Heq.
  - apply in_prefixedClasses in Hc as (name & Hin & ->).
    apply prefixClass_inj in Heq. exact (baseClasses_no_tab f t _ _ Hin Heq).
  - apply in_light_classes in Hc as (fld & Hset & ->).
    apply prefixClass_inj in Heq.
    destruct (fieldClass_from fld _ Hset) as (Hname & _ & _).
    unfold lightValuesOf in Heq. rewrite Heq, tab_fieldOfName in Hname. done.
  - symmetry in Heq.
    apply in_dark_classes in Hc as (fld & [(_ & ->) | (_ & _ & ->)]);
      by apply prefix_ne_dark in Heq.
Qed.

Lemma tabWidthClass_default (f : Formatter) :
  tabWidth f = 0 ∨ tabWidth f = 8 → tabWidthClass f = "".
Proof. unfold tabWidthClass. by intros [-> | ->]. Qed.

Lemma tabWidthClass_set (f : Formatter) :
  tabWidth f ≠ 0 → tabWidth f ≠ 8 →
  tabWidthClass f = "[tab-size:" +:+ Str.Itoa (tabWidth f) +:+ "]".
Proof.
  intros H0 H8. unfold tabWidthClass.
  destruct (Z.eqb_spec (tabWidth f) 0); [done|].
  by destruct (Z.eqb_spec (tabWidth f) 8).
Qed.

Lemma tabSizeClass_nonempty (f : Formatter) (n : Z) : tabSizeClass f n ≠ "".
Proof.
  unfold tabSizeClass. rewrite prefixClass_app. intros H.
  apply app_eq_nil in H as [_ H]. discriminate.
Qed.

Lemma joinClasses_suffix (a b : string) : b ≠ "" → Str.hasSuffix (joinClasses a b) b.
Proof.
  intros Hb. unfold joinClasses. case_decide; [by exists ""|].
  rewrite decide_False by done. exists (a +:+ " "). by rewrite app_assoc_s.
Qed.

End DifferFacts.

(** ** Class cache *)

Lemma lookupFrom_Some (c : classCache) (n : nat) (light dark : loc) (i : nat)
  (e : classCacheEntry) :
  lookupFrom c n light dark = Some (i, e) →
  (i < n)%nat ∧ c !! i = Some e ∧ keyOf e = (light, dark) ∧
  ∀ j e', (i < j < n)%nat → c !! j = Some e' → keyOf e' ≠ (light, dark).
Proof.
  induction n as [|n IH]; [done|]. simpl.
  destruct (c !! n) as [entry|] eqn:Hn.
  - case_decide as Hk.
    + intros [= <- <-]. split; [lia|]. split; [done|]. split.
      { unfold keyOf. by destruct Hk as [-> ->]. }
      intros j e' Hj. lia.
    + intros Hl. destruct (IH Hl) as (Hi & Hc & Hkey & Hlater).
      split; [lia|]. split; [done|]. split; [done|].
      intros j e' Hj Hje. destruct (decide (j = n)) as [->|Hne].
      * rewrite Hn in Hje. injection Hje as <-. unfold keyOf. intros [= ? ?]. apply Hk. by split.
      * apply (Hlater j e'); [lia | done].
  - intros Hl. destruct (IH Hl) as (Hi & Hc & Hkey & Hlater).
    split; [lia|]. split; [done|]. split; [done|].
    intros j e' Hj Hje. destruct (decide (j = n)) as [->|Hne]; [congruence|].
    apply (Hlater j e'); [lia | done].
Qed.

Lemma lookupFrom_None (c : classCache) (n : nat) (light dark : loc) :
  lookupFrom c n light dark = None →
  ∀ j e', (j < n)%nat → c !! j = Some e' → keyOf e' ≠ (light, dark).
Proof.
  induction n as [|n IH]; [intros _ j e' Hj; lia|]. simpl.
  destruct (c !! n) as [entry|] eqn:Hn.
  - case_decide as Hk; [done|]. intros Hl j e' Hj Hje.
    destruct (decide (j = n)) as [->|Hne].
    + rewrite Hn in Hje. injection Hje as <-. unfold keyOf. intros [= ? ?]. apply Hk. by split.
    + apply (IH Hl j e'); [lia | done].
  - intros Hl j e' Hj Hje. destruct (decide (j = n)) as [->|Hne]; [congruence|].
    apply (IH Hl j e'); [lia | done].
Qed.

Lemma lookupFrom_last (c : classCache) (e : classCacheEntry) (light dark : loc) :
  keyOf e = (light, dark) →
  lookupFrom (c ++ [e]) (length (c ++ [e])) light dark = Some (length c, e).
Proof.
  intros [= <- <-]. rewrite length_app. simpl length.
  replace (length c + 1)%nat with (S (length c)) by lia. simpl.
  rewrite list_lookup_middle by done. by rewrite decide_True.
Qed.

Lemma copy_shift {A : Type} (e : A) (l : list A) :
  ∃ x, fst (copy (e :: l) l) = l ++ [x].
Proof.
  unfold copy. simpl length. rewrite Nat.min_r by lia. simpl fst.
  rewrite firstn_all.
  assert (length (drop (length l) (e :: l)) = 1%nat) as Hlen.
  { rewrite length_drop. simpl. lia. }
  destruct (drop (length l) (e :: l)) as [|x [|y tl]]; simpl in Hlen; try lia.
  by exists x.
Qed.

Section CacheFacts.

Variable StandardTypes : list TokenType.

(** A hit: the entry found moves to the end, its mapping is returned. *)
Lemma get_hit (f : Formatter) (h : Heap) (c : classCache) (light : loc) (dark : option loc)
  (i : nat) (e : classCacheEntry) :
  lookupFrom c (length c) light (default light dark) = Some (i, e) →
  get StandardTypes f h c light dark = (take i c ++ drop (S i) c ++ [e], e_cache e).
Proof.
  intros Hl. unfold get. rewrite Hl.
  apply lookupFrom_Some in Hl as (Hi & Hc & _ & _).
  pose proof (take_drop_middle c i e Hc) as Hsplit.
  case_decide as Hlast.
  - f_equal. rewrite <- Hsplit at 1. f_equal.
    rewrite drop_ge by lia. done.
  - f_equal.
    rewrite (drop_S c e i Hc).
    destruct (copy_shift e (drop (S i) c)) as (x & ->).
    assert (length (take i c ++ drop (S i) c ++ [x]) = length c) as Hlen.
    { rewrite !length_app, length_take, length_drop. simpl. lia. }
    rewrite Hlen.
    rewrite app_assoc. rewrite insert_app_r_alt.
    2:{ rewrite length_app, length_take, length_drop. lia. }
    rewrite length_app, length_take, length_drop.
    replace (length c - 1 - (i `min` length c + (length c - S i)))%nat with 0%nat by lia.
    simpl. by rewrite <- app_assoc.
Qed.

(** A miss: the mapping is computed and appended, after the first entry is
    dropped when the cache is full. *)
Lemma get_miss (f : Formatter) (h : Heap) (c : classCache) (light : loc) (dark : option loc) :
  lookupFrom c (length c) light (default light dark) = None →
  get StandardTypes f h c light dark =
  ((if (classCacheLimit <=? length c)%nat then drop 1 c else c) ++
     [mkEntry light (default light dark)
        (classes StandardTypes f h light (Some (default light dark)))],
   classes StandardTypes f h light (Some (default light dark))).
Proof.
  intros Hl. unfold get. rewrite Hl. f_equal. f_equal.
  destruct (classCacheLimit <=? length c)%nat; [|done].
  unfold copy. rewrite length_drop. rewrite Nat.min_r by lia.
  rewrite take_app_le by (rewrite length_take, length_drop; lia).
  rewrite take_take. rewrite Nat.min_id.
  apply take_ge. rewrite length_drop. lia.
Qed.

End CacheFacts.

(** ** Least-recently-used lists *)

Section LruLists.

Context {K : Type} `{EqDecision K}.

Lemma filter_ne_notin (k : K) (l : list K) : k ∉ l → filter (λ k', k' ≠ k) l = l.
Proof.
  induction l as [|x l IH]; [done|]. intros Hn.
  apply not_elem_of_cons in Hn as [Hx Hl].
  rewrite filter_cons_True by done. by rewrite IH.
Qed.

Lemma filter_ne_middle (k : K) (l1 l2 : list K) :
  k ∉ l1 → k ∉ l2 → filter (λ k', k' ≠ k) (l1 ++ k :: l2) = l1 ++ l2.
Proof.
  intros H1 H2. rewrite filter_app. rewrite filter_cons_False by naive_solver.
  by rewrite !filter_ne_notin.
Qed.

Lemma filter_ne_shorter (k : K) (l : list K) :
  k ∈ l → (length (filter (λ k', k' ≠ k) l) < length l)%nat.
Proof.
  intros (l1 & l2 & ->)%list_elem_of_split.
  rewrite filter_app. rewrite filter_cons_False by naive_solver.
  rewrite !length_app. simpl.
  pose proof (length_filter (λ k', k' ≠ k) l1).
  pose proof (length_filter (λ k', k' ≠ k) l2). lia.
Qed.

Lemma filter_ne_absent (k : K) (l : list K) : k ∉ filter (λ k', k' ≠ k) l.
Proof. by intros [Hk _]%list_elem_of_filter. Qed.

Lemma elem_of_drop_inv (x : K) (n : nat) (l : list K) : x ∈ drop n l → x ∈ l.
Proof. apply subseteq_drop. Qed.

Lemma NoDup_split_elem (k : K) (l : list K) :
  NoDup l → k ∈ l → ∃ l1 l2, l = (l1 ++ k :: l2) ∧ (k ∉ l1) ∧ (k ∉ l2).
Proof.
  intros Hnd (l1 & l2 & ->)%list_elem_of_split. exists l1, l2. split; [done|].
  apply NoDup_app in Hnd as (_ & Hdisj & Hnd2).
  apply NoDup_cons in Hnd2 as [Hk2 _]. split; [|done].
  intros Hk1. apply (Hdisj k Hk1). by left.
Qed.

End LruLists.

Lemma touch_NoDup (k : nat * nat) (r : list (nat * nat)) : NoDup r → NoDup (touch k r).
Proof.
  intros Hnd. unfold touch. apply NoDup_app. split; [by apply NoDup_filter|].
  split; [|apply NoDup_singleton].
  intros x Hx ->%list_elem_of_singleton. by apply filter_ne_absent in Hx.
Qed.

Lemma recencyOrder_snoc (accesses : list (nat * nat)) (k : nat * nat) :
  recencyOrder (accesses ++ [k]) = touch k (recencyOrder accesses).
Proof. unfold recencyOrder. by rewrite fold_left_app. Qed.

Lemma recencyOrder_NoDup (accesses : list (nat * nat)) : NoDup (recencyOrder accesses).
Proof.
  induction accesses as [|k accesses IH] using rev_ind; [apply NoDup_nil_2|].
  rewrite recencyOrder_snoc. by apply touch_NoDup.
Qed.

Lemma lruStep_NoDup (cap : nat) (k : nat * nat) (keys : list (nat * nat)) :
  NoDup keys → NoDup (lruStep cap k keys).
Proof.
  intros Hnd. unfold lruStep. case_decide as Hk; [by apply touch_NoDup|].
  apply NoDup_app. split.
  - destruct (cap <=? length keys)%nat; [|done].
    destruct keys as [|x keys]; [done|]. simpl. by apply NoDup_cons in Hnd as [_ ?].
  - split; [|apply NoDup_singleton].
    intros x Hx ->%list_elem_of_singleton. apply Hk.
    destruct (cap <=? length keys)%nat; [|done]. by eapply elem_of_drop_inv.
Qed.

Lemma lruStep_length (cap : nat) (k : nat * nat) (keys : list (nat * nat)) :
  (0 < cap)%nat → (length keys ≤ cap)%nat → (length (lruStep cap k keys) ≤ cap)%nat.
Proof.
  intros Hcap Hlen. unfold lruStep. case_decide as Hk.
  - rewrite length_app. simpl. apply filter_ne_shorter in Hk. lia.
  - rewrite length_app. simpl. destruct (Nat.leb_spec cap (length keys)).
    + rewrite length_drop. lia.
    + lia.
Qed.

(** The last [cap] keys of the recency order follow the least-recently-used
    discipline. *)
Lemma lastN_touch (cap : nat) (k : nat * nat) (r : list (nat * nat)) :
  (0 < cap)%nat → NoDup r →
  lastN cap (touch k r) = lruStep cap k (lastN cap r).
Proof.
  intros Hcap Hnd. unfold lastN, touch, lruStep.
  destruct (decide (k ∈ r)) as [Hin|Hout].
  - destruct (NoDup_split_elem k r Hnd Hin) as (r1 & r2 & -> & Hk1 & Hk2).
    rewrite filter_ne_middle by done. rewrite <- (app_assoc r1 r2 [k]).
    rewrite !length_app. simpl length.
    set (d := (length r1 + S (length r2) - cap)%nat).
    replace (length r1 + (length r2 + 1) - cap)%nat with d by lia.
    destruct (decide (d ≤ length r1)%nat) as [Hd|Hd].
    + rewrite (drop_app_le r1 (k :: r2)) by done.
      rewrite decide_True by (apply elem_of_app; right; by left).
      rewrite filter_ne_middle; [|by intros ?%elem_of_drop_inv|done].
      rewrite (drop_app_le r1) by done. by rewrite <- app_assoc.
    + rewrite (drop_app_ge r1 (k :: r2)) by lia.
      rewrite (drop_app_ge r1 (r2 ++ [k])) by lia.
      destruct (d - length r1)%nat as [|m] eqn:Hm; [lia|].
      change (drop (S m) (k :: r2)) with (drop m r2).
      rewrite decide_False by (by intros ?%elem_of_drop_inv).
      rewrite length_drop.
      destruct (Nat.leb_spec cap (length r2 - m)); [|lia].
      rewrite drop_drop. rewrite drop_app_le by lia.
      by replace (m + 1)%nat with (S m) by lia.
  - rewrite filter_ne_notin by done.
    rewrite decide_False by (by intros ?%elem_of_drop_inv).
    rewrite length_app, length_drop. simpl length.
    destruct (Nat.leb_spec cap (length r - (length r - cap))) as [Hfull|Hfree].
    + rewrite drop_drop. rewrite drop_app_le by lia. do 2 f_equal. lia.
    + replace (length r + 1 - cap)%nat with 0%nat by lia.
      by replace (length r - cap)%nat with 0%nat by lia.
Qed.

Lemma filter_key_middle (k : nat * nat) (c1 c2 : classCache) (e : classCacheEntry) :
  keyOf e = k → k ∉ keyOf <$> c1 → k ∉ keyOf <$> c2 →
  filter (λ e', keyOf e' ≠ k) (c1 ++ e :: c2) = c1 ++ c2.
Proof.
  intros He H1 H2.
  assert (∀ l : classCache, k ∉ keyOf <$> l → filter (λ e', keyOf e' ≠ k) l = l) as Hall.
  { induction l as [|x l IH]; [done|]. rewrite fmap_cons. intros Hn.
    apply not_elem_of_cons in Hn as [Hx Hl].
    rewrite filter_cons_True by done. by rewrite IH. }
  rewrite filter_app. rewrite filter_cons_False by naive_solver.
  by rewrite !Hall.
Qed.

Lemma recencyOrder_distinct (accesses : list (nat * nat)) :
  NoDup accesses → recencyOrder accesses = accesses.
Proof.
  induction accesses as [|k accesses IH] using rev_ind; [done|].
  intros Hnd. apply NoDup_app in Hnd as (Hnd & Hdisj & _).
  rewrite recencyOrder_snoc, IH by done. unfold touch.
  rewrite filter_ne_notin; [done|]. intros Hk. apply (Hdisj k Hk). by left.
Qed.

Section CacheTheorems.

Variable StandardTypes : list TokenType.

Lemma get_hit_split (f : Formatter) (h : Heap) (c : classCache) (light : loc)
  (dark : option loc) (i : nat) (e : classCacheEntry) :
  lookupFrom c (length c) light (default light dark) = Some (i, e) →
  ∃ c1 c2, c = c1 ++ e :: c2 ∧ keyOf e = (light, default light dark) ∧
           get StandardTypes f h c light dark = (c1 ++ c2 ++ [e], e_cache e).
Proof.
  intros Hl. exists (take i c), (drop (S i) c).
  rewrite (get_hit StandardTypes f h c light dark i e Hl).
  apply lookupFrom_Some in Hl as (_ & Hc & Hkey & _).
  split; [by rewrite take_drop_middle | done].
Qed.

Lemma lookupFrom_absent (c : classCache) (light dark : loc) :
  (light, dark) ∉ keyOf <$> c → lookupFrom c (length c) light dark = None.
Proof.
  intros Hn. destruct (lookupFrom c (length c) light dark) as [[i e]|] eqn:Hl; [|done].
  apply lookupFrom_Some in Hl as (_ & Hc & Hkey & _). exfalso. apply Hn.
  rewrite <- Hkey. apply list_elem_of_fmap. exists e. split; [done|].
  by eapply list_elem_of_lookup_2.
Qed.

Lemma lookupFrom_present (c : classCache) (light dark : loc) :
  (light, dark) ∈ keyOf <$> c → ∃ i e, lookupFrom c (length c) light dark = Some (i, e).
Proof.
  intros (e & Hkey & He)%list_elem_of_fmap.
  destruct (lookupFrom c (length c) light dark) as [[i e']|] eqn:Hl; [by eauto|].
  apply list_elem_of_lookup in He as (j & Hj).
  exfalso. eapply (lookupFrom_None c _ light dark Hl j e); [|done|done].
  by eapply lookup_lt_Some.
Qed.

(** The keys of the cache follow the least-recently-used discipline. *)
Lemma keys_get (f : Formatter) (h : Heap) (c : classCache) (light : loc) (dark : option loc) :
  NoDup (keyOf <$> c) →
  keyOf <$> fst (get StandardTypes f h c light dark) =
  lruStep classCacheLimit (light, default light dark) (keyOf <$> c).
Proof.
  intros Hnd.
  destruct (lookupFrom c (length c) light (default light dark)) as [[i e]|] eqn:Hl.
  - destruct (get_hit_split f h c light dark i e Hl) as (c1 & c2 & -> & Hkey & ->).
    cbn [fst]. rewrite !fmap_app, !fmap_cons in *. simpl fmap. rewrite Hkey in *.
    apply NoDup_app in Hnd as (_ & Hdisj & Hnd2).
    apply NoDup_cons in Hnd2 as [Hk2 _].
    unfold lruStep. rewrite decide_True by (apply elem_of_app; right; by left).
    rewrite filter_ne_middle; [by rewrite <- app_assoc| |done].
    intros Hk1. apply (Hdisj _ Hk1). by left.
  - rewrite (get_miss StandardTypes f h c light dark Hl). cbn [fst].
    unfold lruStep. rewrite decide_False.
    2:{ intros Hin. apply lookupFrom_present in Hin as (i & e & Hs). congruence. }
    rewrite fmap_app, length_fmap.
    destruct (classCacheLimit <=? length c)%nat; [|done]. by rewrite fmap_drop.
Qed.

Lemma cacheAfter_snoc (f : Formatter) (h : Heap) (c : classCache)
  (accesses : list (nat * option nat)) (a : nat * option nat) :
  cacheAfter StandardTypes f h c (accesses ++ [a]) =
  fst (get StandardTypes f h (cacheAfter StandardTypes f h c accesses) a.1 a.2).
Proof. unfold cacheAfter. by rewrite fold_left_app. Qed.

(** From the empty cache: the keys are distinct, at most the limit, and the
    last keys of the recency order. *)
Lemma cacheAfter_invariant (f : Formatter) (h : Heap) (accesses : list (nat * option nat)) :
  let c := cacheAfter StandardTypes f h newClassCache accesses in
  NoDup (keyOf <$> c) ∧ (length c ≤ classCacheLimit)%nat ∧
  keyOf <$> c = lastN classCacheLimit (recencyOrder (accessKey <$> accesses)).
Proof.
  induction accesses as [|a accesses IH] using rev_ind.
  { simpl. split; [apply NoDup_nil_2|]. split; [unfold classCacheLimit; lia | done]. }
  destruct IH as (Hnd & Hlen & Hkeys). cbv zeta.
  rewrite cacheAfter_snoc.
  set (c := cacheAfter StandardTypes f h newClassCache accesses) in *.
  pose proof (keys_get f h c a.1 a.2 Hnd) as Hstep.
  split; [|split].
  - rewrite Hstep. by apply lruStep_NoDup.
  - rewrite <- (length_fmap keyOf), Hstep. apply lruStep_length.
    + unfold classCacheLimit. lia.
    + by rewrite length_fmap.
  - rewrite Hstep, Hkeys, fmap_app. simpl fmap. rewrite recencyOrder_snoc.
    symmetry. apply lastN_touch; [unfold classCacheLimit; lia|].
    apply recencyOrder_NoDup.
Qed.

(** After a call, the pair looked up is the last entry, with the mapping
    returned. *)
Lemma get_last (f : Formatter) (h : Heap) (c : classCache) (light : loc) (dark : option loc) :
  ∃ c' e, get StandardTypes f h c light dark = (c' ++ [e], e_cache e) ∧
          keyOf e = (light, default light dark).
Proof.
  destruct (lookupFrom c (length c) light (default light dark)) as [[i e]|] eqn:Hl.
  - destruct (get_hit_split f h c light dark i e Hl) as (c1 & c2 & _ & Hkey & ->).
    exists (c1 ++ c2), e. by rewrite <- app_assoc.
  - rewrite (get_miss StandardTypes f h c light dark Hl). by eexists _, (mkEntry _ _ _).
Qed.

(** C4. From the empty cache and for every sequence of calls of [get]: the
    cache never holds more than 32 entries, and its keys are the last 32 keys
    of the recency order of the calls. A miss appends the new entry, after
    dropping the first, least recently used, entry when the cache is full; a
    hit moves the entry to the most-recently-used end. In a full cache,
    looking up a new pair evicts the least recently used pair, but not when
    that pair was looked up just before; and after calls on more than 32
    distinct pairs the first pair is gone. *)
Theorem C4_strict_lru (f : Formatter) (h : Heap) (accesses : list (nat * option nat)) :
  let c := cacheAfter StandardTypes f h newClassCache accesses in
  (length c ≤ classCacheLimit)%nat ∧
  keyOf <$> c = lastN classCacheLimit (recencyOrder (accessKey <$> accesses)) ∧
  (∀ light dark, accessKey (light, dark) ∉ keyOf <$> c →
     get StandardTypes f h c light dark =
     ((if (classCacheLimit <=? length c)%nat then drop 1 c else c) ++
        [mkEntry light (default light dark)
           (classes StandardTypes f h light (Some (default light dark)))],
      classes StandardTypes f h light (Some (default light dark)))) ∧
  (∀ light dark e, e ∈ c → keyOf e = accessKey (light, dark) →
     get StandardTypes f h c light dark =
     (filter (λ e', keyOf e' ≠ keyOf e) c ++ [e], e_cache e)) ∧
  (∀ e0 rest k', c = e0 :: rest → length c = classCacheLimit →
     accessKey k' ∉ keyOf <$> c →
     (keyOf e0 ∉ keyOf <$> fst (get StandardTypes f h c k'.1 k'.2)) ∧
     (keyOf e0 ∈ keyOf <$> cacheAfter StandardTypes f h c
                             [(e_light e0, Some (e_dark e0)); k'])) ∧
  (NoDup (accessKey <$> accesses) → (classCacheLimit < length accesses)%nat →
     keyOf <$> c = lastN classCacheLimit (accessKey <$> accesses) ∧
     ∀ a0 rest, accesses = a0 :: rest → accessKey a0 ∉ keyOf <$> c).
Proof.
  intros c. destruct (cacheAfter_invariant f h accesses) as (Hnd & Hlen & Hkeys).
  fold c in Hnd, Hlen, Hkeys.
  split; [done|]. split; [done|]. split; [|split; [|split]].
  - intros light dark Hout. apply get_miss. by apply lookupFrom_absent.
  - intros light dark e He Hkey. unfold accessKey in Hkey. simpl in Hkey.
    assert ((light, default light dark) ∈ keyOf <$> c) as Hin.
    { rewrite <- Hkey. by apply list_elem_of_fmap_2. }
    apply lookupFrom_present in Hin as (i & e' & Hl).
    destruct (get_hit_split f h c light dark i e' Hl) as (c1 & c2 & Hc & Hkey' & ->).
    rewrite Hc in Hnd, He |- *. rewrite fmap_app, fmap_cons in Hnd.
    apply NoDup_app in Hnd as (_ & Hdisj & Hnd2).
    apply NoDup_cons in Hnd2 as [Hk2 _].
    assert (keyOf e' ∉ keyOf <$> c1) as Hk1.
    { intros Hk1. apply (Hdisj _ Hk1). by left. }
    assert (e = e') as ->.
    { apply elem_of_app in He as [He|He].
      - exfalso. apply Hk1. rewrite Hkey', <- Hkey. by apply list_elem_of_fmap_2.
      - apply elem_of_cons in He as [He|He]; [done|].
        exfalso. apply Hk2. rewrite Hkey', <- Hkey. by apply list_elem_of_fmap_2. }
    rewrite filter_key_middle by done. by rewrite <- app_assoc.
  - intros e0 rest k' Hc Hfull Hout.
    assert (2 ≤ classCacheLimit)%nat as Hcap by (unfold classCacheLimit; lia).
    rewrite Hc in Hnd, Hfull, Hout |- *.
    assert (accessKey k' ≠ keyOf e0) as Hne.
    { intros Heq. apply Hout. rewrite Heq, fmap_cons. by left. }
    assert (accessKey k' ∉ keyOf <$> rest) as Hrest.
    { intros Hin. apply Hout. rewrite fmap_cons. by right. }
    pose proof Hnd as Hnd0. rewrite fmap_cons in Hnd0.
    apply NoDup_cons in Hnd0 as [Hk0 Hndrest].
    split.
    + rewrite (keys_get f h (e0 :: rest) k'.1 k'.2 Hnd).
      unfold lruStep. rewrite decide_False by done.
      rewrite length_fmap, Hfull, Nat.leb_refl. rewrite fmap_cons. cbn [drop].
      rewrite drop_0. intros [Hin | Hin%list_elem_of_singleton]%elem_of_app; [done|].
      by apply Hne.
    + unfold cacheAfter. cbn [fold_left fst snd].
      set (c1 := fst (get StandardTypes f h (e0 :: rest) (e_light e0) (Some (e_dark e0)))).
      assert (keyOf <$> c1 = (keyOf <$> rest) ++ [keyOf e0]) as Hk1.
      { unfold c1. rewrite (keys_get f h (e0 :: rest) _ _ Hnd). cbn [default].
        unfold lruStep. rewrite fmap_cons.
        change (e_light e0, e_dark e0) with (keyOf e0).
        rewrite decide_True by (by left).
        rewrite filter_cons_False by naive_solver. by rewrite filter_ne_notin. }
      assert (NoDup (keyOf <$> c1)) as Hnd1.
      { rewrite Hk1. apply NoDup_app. split; [done|]. split; [|apply NoDup_singleton].
        by intros x Hx ->%list_elem_of_singleton. }
      rewrite (keys_get f h c1 k'.1 k'.2 Hnd1). rewrite Hk1.
      unfold lruStep. rewrite decide_False.
      2:{ intros [Hin | Hin%list_elem_of_singleton]%elem_of_app; [done|]. by apply Hne. }
      rewrite length_app, length_fmap. simpl length in *.
      destruct (Nat.leb_spec classCacheLimit (length rest + 1)) as [_|Hlt]; [|lia].
      destruct rest as [|e1 rest]; [simpl in Hfull; lia|].
      rewrite fmap_cons. cbn [app drop]. rewrite drop_0.
      apply elem_of_app. left. apply elem_of_app. right. by left.
  - intros Hdist Hmany.
    rewrite recencyOrder_distinct in Hkeys by done. split; [done|].
    intros a0 rest -> Hin. rewrite Hkeys in Hin. unfold lastN in Hin.
    rewrite fmap_cons in Hin, Hdist. apply NoDup_cons in Hdist as [Hk0 _].
    rewrite length_cons, length_fmap in Hin. rewrite length_cons in Hmany.
    destruct (S (length rest) - classCacheLimit)%nat as [|m] eqn:Hm; [lia|].
    cbn [drop] in Hin. by apply elem_of_drop_inv in Hin.
Qed.

(** C5. Two calls of [get] in succession with the same two identities return
    the same mapping; the second call returns the mapping stored by the first
    as the last entry, whatever the formatter and the themes have become, and
    leaves the cache as it is. On any hit the mapping returned is the stored
    one, the call does not depend on the formatter or on the themes, and the
    cache after it holds the same entries in another order. *)
Theorem C5_get_idempotent (f1 f2 : Formatter) (h1 h2 : Heap) (c : classCache)
  (light : loc) (dark : option loc) :
  let r1 := get StandardTypes f1 h1 c light dark in
  let r2 := get StandardTypes f2 h2 (fst r1) light dark in
  snd r2 = snd r1 ∧ fst r2 = fst r1 ∧
  (∃ e, last (fst r1) = Some e ∧ keyOf e = accessKey (light, dark) ∧ e_cache e = snd r1) ∧
  (∀ i e, lookupFrom c (length c) light (default light dark) = Some (i, e) →
     snd r1 = e_cache e ∧ Permutation c (fst r1) ∧
     get StandardTypes f2 h2 c light dark = r1).
Proof.
  intros r1 r2.
  destruct (get_last f1 h1 c light dark) as (c' & e & Hr1 & Hkey).
  fold r1 in Hr1.
  assert (r2 = (c' ++ [e], e_cache e)) as Hr2.
  { unfold r2. rewrite Hr1. cbn [fst].
    rewrite (get_hit StandardTypes f2 h2 (c' ++ [e]) light dark (length c') e).
    - rewrite take_app_length. rewrite drop_ge by (rewrite length_app; simpl; lia).
      done.
    - by apply lookupFrom_last. }
  split; [by rewrite Hr2, Hr1|]. split; [by rewrite Hr2, Hr1|]. split.
  - exists e. rewrite Hr1. cbn [fst snd]. by rewrite last_snoc.
  - intros i e1 Hl.
    pose proof (get_hit StandardTypes f1 h1 c light dark i e1 Hl) as Hg1.
    pose proof (get_hit StandardTypes f2 h2 c light dark i e1 Hl) as Hg2.
    fold r1 in Hg1. rewrite Hg2, Hg1. cbn [fst snd].
    split; [done|]. split; [|done].
    apply lookupFrom_Some in Hl as (_ & Hc & _ & _).
    rewrite <- (take_drop_middle c i e1 Hc) at 1.
    apply Permutation_app_head, Permutation_cons_append.
Qed.

End CacheTheorems.

(** ** Renderer: the writes of a computation *)

Lemma writeAll_app (W : Writer) (c1 c2 : list string) (w : sink W) :
  writeAll W (c1 ++ c2) w = writeAll W c2 (writeAll W c1 w).
Proof. unfold writeAll. by rewrite fold_left_app. Qed.

Lemma Writes_ret {A : Type} (a : A) : Writes (λ W, mret a) a [].
Proof. by intros W w. Qed.

Lemma Writes_Fprint (s : string) : Writes (λ W, Fprint W s) tt [s].
Proof. by intros W w. Qed.

Lemma Writes_bind {A B : Type} (m : ∀ W, Render W A) (k : ∀ W, A → Render W B)
  (a : A) (b : B) (c1 c2 : list string) :
  Writes m a c1 → Writes (λ W, k W a) b c2 → Writes (λ W, m W ≫= k W) b (c1 ++ c2).
Proof.
  intros Hm Hk W w. unfold mbind, Render_bind. rewrite Hm, Hk. by rewrite writeAll_app.
Qed.

Lemma Writes_when (b : bool) (body : ∀ W, Render W unit) (chunks : list string) :
  Writes body tt chunks → Writes (λ W, when W b (body W)) tt (if b then chunks else []).
Proof. intros Hb. destruct b; [done | apply Writes_ret]. Qed.

Lemma Writes_if {A : Type} (b : bool) (m1 m2 : ∀ W, Render W A) (a : A)
  (c1 c2 : list string) :
  Writes m1 a c1 → Writes m2 a c2 →
  Writes (λ W, if b then m1 W else m2 W) a (if b then c1 else c2).
Proof. by destruct b. Qed.

(** One step of a sequence of writes. *)
Ltac writes_step :=
  first
    [ eapply Writes_bind
    | eapply Writes_when
    | eapply Writes_if
    | eapply Writes_Fprint
    | eapply Writes_ret ].

Lemma concatAll_app (c1 c2 : list string) :
  concatAll (c1 ++ c2) = concatAll c1 +:+ concatAll c2.
Proof.
  induction c1 as [|p c1 IH]; [done|]. simpl. by rewrite IH, app_assoc_s.
Qed.

(** On a buffer the writes are appended in order. *)
Lemma writeAll_buffer (chunks : list string) (w : string) :
  writeAll bufferWriter chunks w = w +:+ concatAll chunks.
Proof.
  revert w. induction chunks as [|p chunks IH]; intros w; simpl.
  - by rewrite app_nil_r.
  - rewrite IH. by rewrite app_assoc_s.
Qed.


Section RendererFacts.

Variable StandardTypes : list TokenType.
Variable SplitTokensIntoLines : list Token → list (list Token).
Variable TrimSpace : string → string.
Variable Fields : string → list string.

Lemma writeTokens_writes (f : Formatter) (classes : gmap Z string) (tokens : list Token) :
  Writes (λ W, writeTokens TrimSpace Fields W f classes tokens) tt
         (map (tokenHTML TrimSpace Fields f classes) tokens).
Proof.
  induction tokens as [|token rest IH]; [apply Writes_ret|].
  simpl writeTokens. simpl map.
  change (?x :: ?l) with ([x] ++ l). eapply Writes_bind; [apply Writes_Fprint | exact IH].
Qed.

(** A line is written as a prefix and a suffix that do not depend on its
    tokens, around one write per token. *)
Lemma writeLine_writes (f : Formatter) (classes : gmap Z string) (wrapInTable : bool)
  (lineDigits : nat) (line : Z) (highlight : bool) :
  ∃ pre post, ∀ tokens,
    Writes (λ W, writeLine TrimSpace Fields W f classes wrapInTable lineDigits line
                           highlight tokens)
           tt (pre ++ map (tokenHTML TrimSpace Fields f classes) tokens ++ post).
Proof.
  eexists _, _. intros tokens. unfold writeLine.
  eapply Writes_bind; [|eapply Writes_bind; [apply writeTokens_writes|]].
  - repeat writes_step.
  - repeat writes_step.
Qed.

Lemma writeLines_writes (f : Formatter) (ranges : list (Z * Z)) (classes : gmap Z string)
  (wrapInTable : bool) (lineDigits : nat) (lines : list (list Token))
  (index : Z) (highlightIndex : nat) :
  ∃ chunks,
    Writes (λ W, writeLines TrimSpace Fields W f ranges classes wrapInTable lineDigits
                            lines index highlightIndex) tt chunks ∧
    ∀ tokens token, In tokens lines → In token tokens →
                    In (tokenHTML TrimSpace Fields f classes token) chunks.
Proof.
  revert index highlightIndex.
  induction lines as [|tokens rest IH]; intros index highlightIndex.
  { exists []. split; [apply Writes_ret | by intros ? ? []]. }
  simpl writeLines.
  destruct (shouldHighlight ranges highlightIndex (int_add (baseLineNumber f) index))
    as [highlight next].
  destruct (IH (index + 1) (if next then S highlightIndex else highlightIndex))
    as (chunks & Hw & Hin).
  destruct (writeLine_writes f classes wrapInTable lineDigits
              (int_add (baseLineNumber f) index) highlight) as (pre & post & Hline).
  eexists. split.
  - eapply Writes_bind; [apply Hline | exact Hw].
  - intros toks token [<- | Hrest] Htok.
    + apply in_or_app. left. apply in_or_app. right. apply in_or_app. left.
      by apply in_map.
    + apply in_or_app. right. by eapply Hin.
Qed.

Lemma writeNumbers_writes (f : Formatter) (ranges : list (Z * Z)) (classes : gmap Z string)
  (lineDigits : nat) (lines : list (list Token)) (index : Z) (highlightIndex : nat) :
  ∃ chunks,
    Writes (λ W, writeNumbers TrimSpace Fields W f ranges classes lineDigits
                              lines index highlightIndex) tt chunks.
Proof.
  revert index highlightIndex.
  induction lines as [|tokens rest IH]; intros index highlightIndex.
  { exists []. apply Writes_ret. }
  simpl writeNumbers.
  destruct (shouldHighlight ranges highlightIndex (int_add (baseLineNumber f) index))
    as [highlight next].
  destruct (IH (index + 1) (if next then S highlightIndex else highlightIndex))
    as (chunks & Hw).
  eexists. repeat (first [exact Hw | writes_step]).
Qed.

(** [writeHTML] returns the cache after [get] and no error, and issues a
    sequence of writes that is the same on every sink; every token of every
    line is one of the writes. *)
Lemma writeHTML_writes (f : Formatter) (h : Heap) (st : Store) (c : classCache)
  (style : loc) (tokens : list Token) :
  let r := get StandardTypes f h c style (darkStyle f) in
  ∃ chunks,
    Writes (λ W, writeHTML StandardTypes SplitTokensIntoLines TrimSpace Fields W
                           f h st c style tokens) (fst r, None) chunks ∧
    ∀ line token, In line (SplitTokensIntoLines tokens) → In token line →
                  In (tokenHTML TrimSpace Fields f (snd r) token) chunks.
Proof.
  intros r. unfold writeHTML. fold r. destruct r as [c' classes]. cbn [fst snd].
  set (lines := SplitTokensIntoLines tokens).
  set (lineDigits := String.length _).
  destruct (writeLines_writes f (readSlice st (highlightRanges f)) classes
              (lineNumbers f && lineNumbersInTable f) lineDigits lines 0 0)
    as (body & Hbody & Hin).
  destruct (writeNumbers_writes f (readSlice st (highlightRanges f)) classes
              lineDigits lines 0 0) as (numbers & Hnumbers).
  eexists. split.
  - repeat (first [exact Hbody | exact Hnumbers | writes_step]).
  - intros line token Hline Htoken.
    apply in_or_app. right. apply in_or_app. right. apply in_or_app. right.
    apply in_or_app. left. by eapply Hin.
Qed.

(** ** Highlight ranges: the cursor *)

Lemma wrap_small (x : Z) : minInt ≤ x ≤ maxInt → wrap x = x.
Proof.
  unfold minInt, maxInt, wrap. intros Hx.
  rewrite Z.mod_small by lia. lia.
Qed.

Lemma sorted_lookup (ranges : list (Z * Z)) (i j : nat) (ri rj : Z * Z) :
  sortedByStart ranges → (i < j)%nat →
  ranges !! i = Some ri → ranges !! j = Some rj → ri.1 ≤ rj.1.
Proof.
  intros Hs. revert i j. induction Hs as [|a l Hs IH Hall]; intros i j Hij Hi Hj; [done|].
  destruct j as [|j]; [lia|]. simpl in Hj.
  destruct i as [|i].
  - injection Hi as <-. rewrite Forall_forall in Hall.
    specialize (Hall rj). unfold Less in Hall.
    assert (rj ∈ l) as Hin by (by eapply list_elem_of_lookup_2).
    specialize (Hall Hin). apply Z.ltb_ge in Hall. done.
  - simpl in Hi. apply (IH i j); [lia | done | done].
Qed.

Lemma inSomeRange_true (ranges : list (Z * Z)) (line : Z) :
  inSomeRange ranges line = true ↔
  ∃ j r, ranges !! j = Some r ∧ r.1 ≤ line ≤ r.2.
Proof.
  unfold inSomeRange, inRange. rewrite existsb_exists. split.
  - intros (r & Hin & Hr). apply list_elem_of_In, list_elem_of_lookup in Hin as (j & Hj).
    exists j, r. split; [done|]. apply andb_true_iff in Hr as [?%Z.leb_le ?%Z.leb_le]. lia.
  - intros (j & r & Hj & Hr). exists r. split.
    + apply list_elem_of_In. by eapply list_elem_of_lookup_2.
    + apply andb_true_iff. split; apply Z.leb_le; lia.
Qed.

Lemma inSomeRange_perm (l1 l2 : list (Z * Z)) (line : Z) :
  Permutation l1 l2 → inSomeRange l1 line = inSomeRange l2 line.
Proof.
  intros Hp. unfold inSomeRange.
  destruct (existsb (inRange line) l2) eqn:H2.
  - apply existsb_exists in H2 as (r & Hin & Hr). apply existsb_exists.
    exists r. split; [|done]. eapply Permutation_in; [symmetry; exact Hp | done].
  - destruct (existsb (inRange line) l1) eqn:H1; [|done].
    apply existsb_exists in H1 as (r & Hin & Hr).
    assert (existsb (inRange line) l2 = true) as H2'; [|congruence].
    apply existsb_exists. exists r. split; [|done]. by eapply Permutation_in.
Qed.

(** The loop of [shouldHighlight]: it stops at the first range from the
    cursor on that has not ended before the line. *)
Lemma skipEnded_spec (rest : list (Z * Z)) (highlightIndex : nat) (line : Z) (next : bool) :
  ∃ k, skipEnded rest highlightIndex line next =
         ((highlightIndex + k)%nat, next || (0 <? k)%nat) ∧
       (k ≤ length rest)%nat ∧
       (∀ j r, (j < k)%nat → rest !! j = Some r → r.2 < line) ∧
       (∀ r, rest !! k = Some r → line ≤ r.2).
Proof.
  revert highlightIndex next.
  induction rest as [|hr rest IH]; intros highlightIndex next.
  - exists 0%nat. simpl. rewrite Nat.add_0_r, orb_false_r.
    split; [done|]. split; [done|]. split; [intros; lia | done].
  - simpl. destruct (Z.ltb_spec hr.2 line) as [Hlt|Hge].
    + destruct (IH (S highlightIndex) true) as (k & -> & Hk & Hbefore & Hat).
      exists (S k). split.
      { f_equal; [lia|]. by rewrite orb_true_r. }
      split; [simpl; lia|]. split.
      * intros j r Hj Hjr. destruct j as [|j]; [by injection Hjr as <-|].
        apply (Hbefore j r); [lia | done].
      * intros r Hr. by apply Hat.
    + exists 0%nat. rewrite Nat.add_0_r, orb_false_r.
      split; [done|]. split; [simpl; lia|]. split; [intros; lia|].
      intros r [= <-]. done.
Qed.

(** With ranges sorted by start line, and every range before the cursor
    ended before the line, [shouldHighlight] answers whether the line lies in
    some range, and the cursor the caller keeps is again behind ended ranges
    only. *)
Lemma shouldHighlight_spec (ranges : list (Z * Z)) (highlightIndex : nat) (line : Z) :
  sortedByStart ranges →
  (∀ j r, (j < highlightIndex)%nat → ranges !! j = Some r → r.2 < line) →
  let '(highlight, next) := shouldHighlight ranges highlightIndex line in
  highlight = inSomeRange ranges line ∧
  ∀ j r, (j < (if next then S highlightIndex else highlightIndex))%nat →
         ranges !! j = Some r → r.2 < line.
Proof.
  intros Hsorted Hpassed. unfold shouldHighlight.
  destruct (skipEnded_spec (drop highlightIndex ranges) highlightIndex line false)
    as (k & -> & Hk & Hbefore & Hat).
  cbn [orb].
  assert (∀ j r, (j < highlightIndex + k)%nat → ranges !! j = Some r → r.2 < line) as Hall.
  { intros j r Hj Hjr. destruct (decide (j < highlightIndex)%nat) as [Hlt|Hge].
    - by apply (Hpassed j r).
    - apply (Hbefore (j - highlightIndex)%nat r); [lia|].
      rewrite lookup_drop. by replace (highlightIndex + (j - highlightIndex))%nat with j by lia. }
  assert (∀ j r, (j < (if (0 <? k)%nat then S highlightIndex else highlightIndex))%nat →
                 ranges !! j = Some r → r.2 < line) as Hcursor.
  { intros j r Hj. apply Hall. destruct (Nat.ltb_spec 0 k); lia. }
  assert (∀ r, ranges !! (highlightIndex + k)%nat = Some r → line ≤ r.2) as Hstop.
  { intros r Hr. apply Hat. by rewrite lookup_drop. }
  destruct (ranges !! (highlightIndex + k)%nat) as [hr|] eqn:Hcur.
  - destruct ((hr.1 <=? line) && (line <=? hr.2)) eqn:Hin; (split; [|done]).
    + symmetry. apply inSomeRange_true. exists (highlightIndex + k)%nat, hr.
      split; [done|]. apply andb_true_iff in Hin as [?%Z.leb_le ?%Z.leb_le]. lia.
    + symmetry. apply not_true_is_false. intros (j & r & Hj & Hr)%inSomeRange_true.
      specialize (Hstop hr eq_refl).
      destruct (decide (j < highlightIndex + k)%nat) as [Hlt|Hge].
      { specialize (Hall j r Hlt Hj). lia. }
      destruct (decide (j = highlightIndex + k)%nat) as [->|Hne].
      { rewrite Hcur in Hj. injection Hj as <-.
        apply andb_false_iff in Hin as [?%Z.leb_gt | ?%Z.leb_gt]; lia. }
      assert (hr.1 ≤ r.1) as Hle.
      { apply (sorted_lookup ranges (highlightIndex + k) j); [done | lia | done | done]. }
      apply andb_false_iff in Hin as [?%Z.leb_gt | ?%Z.leb_gt]; lia.
  - split; [|done]. symmetry. apply not_true_is_false.
    intros (j & r & Hj & Hr)%inSomeRange_true.
    destruct (decide (j < highlightIndex + k)%nat) as [Hlt|Hge].
    { specialize (Hall j r Hlt Hj). lia. }
    apply lookup_ge_None in Hcur. apply lookup_lt_Some in Hj. lia.
Qed.

Lemma Render_bind_ext {W : Writer} {A B : Type} (m : Render W A) (k1 k2 : A → Render W B)
  (w : sink W) :
  (∀ a w', k1 a w' = k2 a w') → (m ≫= k1) w = (m ≫= k2) w.
Proof. intros Hk. unfold mbind, Render_bind. destruct (m w) as [a w']. apply Hk. Qed.

(** With sorted ranges and no overflow of the line numbers, the cursor marks
    exactly the lines that lie in some range. *)
Lemma writeLines_marked (W : Writer) (f : Formatter) (ranges : list (Z * Z))
  (classes : gmap Z string) (wrapInTable : bool) (lineDigits : nat)
  (lines : list (list Token)) (index : Z) (highlightIndex : nat) (w : sink W) :
  sortedByStart ranges →
  minInt ≤ baseLineNumber f + index →
  baseLineNumber f + index + Z.of_nat (length lines) - 1 ≤ maxInt →
  (∀ j r, (j < highlightIndex)%nat → ranges !! j = Some r →
          r.2 < baseLineNumber f + index) →
  writeLines TrimSpace Fields W f ranges classes wrapInTable lineDigits lines index
             highlightIndex w =
  writeLinesMarked TrimSpace Fields W (inSomeRange ranges) f classes wrapInTable lineDigits
                   lines index w.
Proof.
  intros Hsorted. revert index highlightIndex w.
  induction lines as [|tokens rest IH]; intros index highlightIndex w Hmin Hmax Hpassed;
    [done|].
  simpl writeLines. simpl writeLinesMarked.
  rewrite length_cons, Nat2Z.inj_succ in Hmax.
  unfold int_add. rewrite wrap_small by lia.
  pose proof (shouldHighlight_spec ranges highlightIndex (baseLineNumber f + index)
                Hsorted Hpassed) as Hspec.
  destruct (shouldHighlight ranges highlightIndex (baseLineNumber f + index))
    as [highlight next].
  destruct Hspec as [-> Hcursor].
  apply Render_bind_ext. intros _ w'. apply IH; [lia | lia |].
  intros j r Hj Hjr. specialize (Hcursor j r Hj Hjr). lia.
Qed.

Lemma writeNumbers_marked (W : Writer) (f : Formatter) (ranges : list (Z * Z))
  (classes : gmap Z string) (lineDigits : nat)
  (lines : list (list Token)) (index : Z) (highlightIndex : nat) (w : sink W) :
  sortedByStart ranges →
  minInt ≤ baseLineNumber f + index →
  baseLineNumber f + index + Z.of_nat (length lines) - 1 ≤ maxInt →
  (∀ j r, (j < highlightIndex)%nat → ranges !! j = Some r →
          r.2 < baseLineNumber f + index) →
  writeNumbers TrimSpace Fields W f ranges classes lineDigits lines index highlightIndex w =
  writeNumbersMarked TrimSpace Fields W (inSomeRange ranges) f classes lineDigits lines index w.
Proof.
  intros Hsorted. revert index highlightIndex w.
  induction lines as [|tokens rest IH]; intros index highlightIndex w Hmin Hmax Hpassed;
    [done|].
  simpl writeNumbers. simpl writeNumbersMarked.
  rewrite length_cons, Nat2Z.inj_succ in Hmax.
  unfold int_add. rewrite wrap_small by lia.
  pose proof (shouldHighlight_spec ranges highlightIndex (baseLineNumber f + index)
                Hsorted Hpassed) as Hspec.
  destruct (shouldHighlight ranges highlightIndex (baseLineNumber f + index))
    as [highlight next].
  destruct Hspec as [-> Hcursor].
  apply Render_bind_ext. intros _ w1. apply Render_bind_ext. intros _ w2.
  apply Render_bind_ext. intros _ w3. apply IH; [lia | lia |].
  intros j r Hj Hjr. specialize (Hcursor j r Hj Hjr). lia.
Qed.

Lemma marked_ext (W : Writer) (mark1 mark2 : Z → bool) (f : Formatter)
  (classes : gmap Z string) (wrapInTable : bool) (lineDigits : nat)
  (lines : list (list Token)) (index : Z) (w : sink W) :
  (∀ line, mark1 line = mark2 line) →
  writeLinesMarked TrimSpace Fields W mark1 f classes wrapInTable lineDigits lines index w =
  writeLinesMarked TrimSpace Fields W mark2 f classes wrapInTable lineDigits lines index w.
Proof.
  intros Hm. revert index w. induction lines as [|tokens rest IH]; intros index w; [done|].
  simpl. rewrite Hm. apply Render_bind_ext. intros _ w'. apply IH.
Qed.

Lemma numbers_marked_ext (W : Writer) (mark1 mark2 : Z → bool) (f : Formatter)
  (classes : gmap Z string) (lineDigits : nat)
  (lines : list (list Token)) (index : Z) (w : sink W) :
  (∀ line, mark1 line = mark2 line) →
  writeNumbersMarked TrimSpace Fields W mark1 f classes lineDigits lines index w =
  writeNumbersMarked TrimSpace Fields W mark2 f classes lineDigits lines index w.
Proof.
  intros Hm. revert index w. induction lines as [|tokens rest IH]; intros index w; [done|].
  simpl. rewrite Hm. apply Render_bind_ext. intros _ w1. apply Render_bind_ext. intros _ w2.
  apply Render_bind_ext. intros _ w3. apply IH.
Qed.

(** ** The slice of highlight ranges *)

Lemma readSlice_length (st : Store) (s : slice) :
  (s_off s + s_len s ≤ length (backing st (s_array s)))%nat →
  length (readSlice st s) = s_len s.
Proof. intros Hv. unfold readSlice. rewrite length_take, length_drop. lia. Qed.

Lemma readSlice_writeSlice (st : Store) (s : slice) (new : list (Z * Z)) :
  (s_off s + s_len s ≤ length (backing st (s_array s)))%nat →
  length new = s_len s →
  readSlice (writeSlice st s new) s = new.
Proof.
  intros Hv Hlen. unfold readSlice, writeSlice, backing at 1.
  rewrite lookup_insert_eq. cbn [default from_option]. unfold id.
  rewrite drop_app_length'; [|rewrite length_take; lia].
  rewrite take_app_length'; done.
Qed.

Lemma sortContract_length (sortSort : list (Z * Z) → list (Z * Z)) (l : list (Z * Z)) :
  sortContract sortSort l → length (sortSort l) = length l.
Proof. intros [Hp _]. symmetry. by apply Permutation_length. Qed.

Lemma HighlightLines_ranges (sortSort : list (Z * Z) → list (Z * Z)) (ranges : slice)
  (st : Store) (f0 : Formatter) :
  sortContract sortSort (readSlice st ranges) →
  (s_off ranges + s_len ranges ≤ length (backing st (s_array ranges)))%nat →
  highlightRanges (snd (HighlightLines sortSort ranges st f0)) = ranges ∧
  baseLineNumber (snd (HighlightLines sortSort ranges st f0)) = baseLineNumber f0 ∧
  readSlice (fst (HighlightLines sortSort ranges st f0)) ranges =
    sortSort (readSlice st ranges).
Proof.
  intros Hsort Hv. unfold HighlightLines. cbn [fst snd setHighlightRanges highlightRanges
    baseLineNumber]. split; [done|]. split; [done|].
  apply readSlice_writeSlice; [done|].
  rewrite sortContract_length by done. by apply readSlice_length.
Qed.

(** ** Renderer: the claims *)

(** C10. Applying the option stores the caller's slice itself in the
    formatter and sorts the backing array through it: read through the
    caller's slice, the array is afterwards the sorted permutation of what it
    held, the other arrays are untouched, and a later render depends on the
    store only through the contents of that slice at the time of the
    render. *)
Theorem C10_highlight_lines_sorts_in_place (sortSort : list (Z * Z) → list (Z * Z))
  (ranges : slice) (st : Store) (f0 : Formatter) :
  sortContract sortSort (readSlice st ranges) →
  (s_off ranges + s_len ranges ≤ length (backing st (s_array ranges)))%nat →
  let st' := fst (HighlightLines sortSort ranges st f0) in
  let f := snd (HighlightLines sortSort ranges st f0) in
  highlightRanges f = ranges ∧
  readSlice st' ranges = sortSort (readSlice st ranges) ∧
  Permutation (readSlice st ranges) (readSlice st' ranges) ∧
  sortedByStart (readSlice st' ranges) ∧
  (∀ a, a ≠ s_array ranges → st' !! a = st !! a) ∧
  (∀ (W : Writer) (h : Heap) (st1 st2 : Store) (c : classCache) (style : loc)
     (tokens : list Token) (w : sink W),
     readSlice st1 ranges = readSlice st2 ranges →
     writeHTML StandardTypes SplitTokensIntoLines TrimSpace Fields W f h st1 c style tokens w =
     writeHTML StandardTypes SplitTokensIntoLines TrimSpace Fields W f h st2 c style tokens w).
Proof.
  intros Hsort Hvalid st' f.
  destruct (HighlightLines_ranges sortSort ranges st f0 Hsort Hvalid) as (Hr & _ & Hread).
  fold st' f in Hr, Hread. destruct Hsort as [Hperm Hsorted].
  split; [done|]. split; [done|]. rewrite Hread.
  split; [done|]. split; [done|]. split.
  - intros a Ha. unfold st', HighlightLines, writeSlice. cbn [fst].
    by rewrite lookup_insert_ne.
  - intros W h st1 st2 c style tokens w Hsame. unfold writeHTML. by rewrite Hr, Hsame.
Qed.

(** C1, as the code has it. [Format] returns nil on every sink, failing or
    not: the result of each write is dropped, so the error of a failed write
    is not returned and the render is not cut short; the writes issued are
    the same sequence on every sink. *)
Theorem C1_format_returns_nil (W : Writer) (f : Formatter) (h : Heap) (st : Store)
  (c : classCache) (style : loc) (iterator : list Token) (w : sink W) :
  snd (fst (Format StandardTypes SplitTokensIntoLines TrimSpace Fields W
                   f h st c style iterator w)) = None ∧
  ∃ chunks, ∀ (W' : Writer) (w' : sink W'),
    Format StandardTypes SplitTokensIntoLines TrimSpace Fields W' f h st c style iterator w' =
    ((fst (get StandardTypes f h c style (darkStyle f)), None), writeAll W' chunks w').
Proof.
  destruct (writeHTML_writes f h st c style iterator) as (chunks & Hw & _).
  split.
  - unfold Format. by rewrite (Hw W w).
  - exists chunks. intros W' w'. unfold Format. by rewrite (Hw W' w').
Qed.







End RendererFacts.

Lemma Writes_eq {A : Type} (m : ∀ W, Render W A) (a : A) (c1 c2 : list string) :
  Writes m a c1 → c1 = c2 → Writes m a c2.
Proof. by intros H <-. Qed.

Lemma Writes_when_false (body : ∀ W, Render W unit) :
  Writes (λ W, when W false (body W)) tt [].
Proof. apply Writes_ret. Qed.

Lemma Writes_when_true (body : ∀ W, Render W unit) (chunks : list string) :
  Writes body tt chunks → Writes (λ W, when W true (body W)) tt chunks.
Proof. done. Qed.

(** ** Highlighted lines in the output *)

Section HighlightClaims.

Variable TrimSpace : string → string.
Variable Fields : string → list string.

Lemma writeLines_suppressed (f : Formatter) (ranges : list (Z * Z)) (classes : gmap Z string)
  (wrapInTable : bool) (lineDigits : nat) (lines : list (list Token))
  (index : Z) (highlightIndex : nat) :
  preventSurroundingPre f || inlineCode f = true →
  Writes (λ W, writeLines TrimSpace Fields W f ranges classes wrapInTable lineDigits
                          lines index highlightIndex) tt
         (map (tokenHTML TrimSpace Fields f classes) (List.concat lines)).
Proof.
  intros Hoff. revert index highlightIndex.
  induction lines as [|tokens rest IH]; intros index highlightIndex; [apply Writes_ret|].
  simpl writeLines.
  destruct (shouldHighlight ranges highlightIndex (int_add (baseLineNumber f) index))
    as [highlight next].
  unfold writeLine. rewrite Hoff. cbn [negb].
  eapply Writes_eq.
  - eapply Writes_bind; [|apply IH].
    eapply Writes_bind; [apply Writes_when_false|].
    eapply Writes_bind; [apply writeTokens_writes|].
    apply Writes_when_false.
  - cbn [List.concat]. rewrite map_app. cbn [app]. by rewrite List.app_nil_r.
Qed.

Lemma writeLine_explicit (f : Formatter) (classes : gmap Z string) (wrapInTable : bool)
  (lineDigits : nat) (line : Z) (highlight : bool) (tokens : list Token) :
  preventSurroundingPre f || inlineCode f = false →
  Writes (λ W, writeLine TrimSpace Fields W f classes wrapInTable lineDigits line
                         highlight tokens)
         tt (lineWrites TrimSpace Fields f classes wrapInTable lineDigits line highlight
                        tokens).
Proof.
  intros Hon. unfold writeLine. rewrite Hon. cbn [negb].
  eapply Writes_eq.
  - eapply Writes_bind.
    { apply Writes_when_true. eapply Writes_bind; [apply Writes_Fprint|].
      repeat writes_step. }
    eapply Writes_bind; [apply writeTokens_writes|].
    apply Writes_when_true. repeat writes_step.
  - reflexivity.
Qed.

Lemma writeLinesMarked_explicit (mark : Z → bool) (f : Formatter) (classes : gmap Z string)
  (wrapInTable : bool) (lineDigits : nat) (lines : list (list Token)) (index : Z) :
  preventSurroundingPre f || inlineCode f = false →
  Writes (λ W, writeLinesMarked TrimSpace Fields W mark f classes wrapInTable lineDigits
                                lines index)
         tt (codeBlockWrites TrimSpace Fields mark f classes wrapInTable lineDigits lines
                             index).
Proof.
  intros Hon. revert index. induction lines as [|tokens rest IH]; intros index.
  { apply Writes_ret. }
  simpl writeLinesMarked.
  eapply Writes_eq; [eapply Writes_bind; [by apply writeLine_explicit | apply IH]|].
  reflexivity.
Qed.

Lemma writeNumbersMarked_explicit (mark : Z → bool) (f : Formatter)
  (classes : gmap Z string) (lineDigits : nat) (lines : list (list Token)) (index : Z) :
  Writes (λ W, writeNumbersMarked TrimSpace Fields W mark f classes lineDigits lines index)
         tt (numberColumnWrites TrimSpace Fields mark f classes lineDigits lines index).
Proof.
  revert index. induction lines as [|tokens rest IH]; intros index.
  { apply Writes_ret. }
  simpl writeNumbersMarked.
  eapply Writes_eq.
  - eapply Writes_bind; [apply Writes_when, Writes_Fprint|].
    eapply Writes_bind; [apply Writes_Fprint|].
    eapply Writes_bind; [apply Writes_when, Writes_Fprint | apply IH].
  - reflexivity.
Qed.

(** C7. The option sorts the configured ranges by start line. On the
    ranges it leaves, the matcher answers, for a cursor behind ended ranges
    only, whether the line lies inside some configured inclusive range, and
    leaves the caller a cursor that is again behind ended ranges only,
    although it only moves forward. So, for lines numbered upwards from the
    base line number without overflow: the code block, when line elements
    are written, is written line by line with the classes of [LineHighlight]
    on exactly the lines whose number lies in some configured range; the
    line-number column wraps exactly the numbers of those lines in an
    element with the classes of [LineHighlight]; and with the line elements
    suppressed the code block consists of the token writes alone, no line
    being marked. *)
Theorem C7_highlight_iff_in_range (sortSort : list (Z * Z) → list (Z * Z)) (ranges : slice)
  (st : Store) (f0 : Formatter) (W : Writer) (classes : gmap Z string)
  (wrapInTable : bool) (lineDigits : nat) (lines : list (list Token)) (w : sink W) :
  let configured := readSlice st ranges in
  let st' := fst (HighlightLines sortSort ranges st f0) in
  let f := snd (HighlightLines sortSort ranges st f0) in
  let used := readSlice st' (highlightRanges f) in
  sortContract sortSort configured →
  (s_off ranges + s_len ranges ≤ length (backing st (s_array ranges)))%nat →
  minInt ≤ baseLineNumber f0 →
  baseLineNumber f0 + Z.of_nat (length lines) - 1 ≤ maxInt →
  Permutation configured used ∧ sortedByStart used ∧
  (∀ highlightIndex line,
     (∀ j r, (j < highlightIndex)%nat → used !! j = Some r → r.2 < line) →
     fst (shouldHighlight used highlightIndex line) = inSomeRange configured line ∧
     ∀ j r, (j < (if snd (shouldHighlight used highlightIndex line)
                  then S highlightIndex else highlightIndex))%nat →
            used !! j = Some r → r.2 < line) ∧
  (preventSurroundingPre f || inlineCode f = false →
     writeLines TrimSpace Fields W f used classes wrapInTable lineDigits lines 0 0 w
     = (tt, writeAll W (codeBlockWrites TrimSpace Fields (inSomeRange configured) f classes
                                        wrapInTable lineDigits lines 0) w)) ∧
  (preventSurroundingPre f || inlineCode f = true →
     writeLines TrimSpace Fields W f used classes wrapInTable lineDigits lines 0 0 w
     = (tt, writeAll W (map (tokenHTML TrimSpace Fields f classes) (List.concat lines)) w)) ∧
  writeNumbers TrimSpace Fields W f used classes lineDigits lines 0 0 w
  = (tt, writeAll W (numberColumnWrites TrimSpace Fields (inSomeRange configured) f classes
                                        lineDigits lines 0) w) ∧
  writeLines TrimSpace Fields W f used classes wrapInTable lineDigits lines 0 0 w =
    writeLinesMarked TrimSpace Fields W (inSomeRange configured) f classes wrapInTable
                     lineDigits lines 0 w ∧
  writeNumbers TrimSpace Fields W f used classes lineDigits lines 0 0 w =
    writeNumbersMarked TrimSpace Fields W (inSomeRange configured) f classes
                       lineDigits lines 0 w ∧
  (∀ line, inSomeRange configured line = true ↔
           ∃ r, In r configured ∧ r.1 ≤ line ≤ r.2).
Proof.
  intros configured st' f used Hsort Hvalid Hmin Hmax.
  destruct (HighlightLines_ranges sortSort ranges st f0 Hsort Hvalid) as (Hr & Hbase & Hread).
  fold st' f in Hr, Hbase, Hread. fold configured in Hread.
  assert (used = sortSort configured) as Hused by (unfold used; by rewrite Hr).
  destruct Hsort as [Hperm Hsorted]. rewrite <- Hused in Hperm, Hsorted.
  split; [done|]. split; [done|].
  assert (∀ line, inSomeRange used line = inSomeRange configured line) as Hmark.
  { intros line. symmetry. by apply inSomeRange_perm. }
  assert (writeLines TrimSpace Fields W f used classes wrapInTable lineDigits lines 0 0 w =
          writeLinesMarked TrimSpace Fields W (inSomeRange configured) f classes wrapInTable
                           lineDigits lines 0 w) as Hlines.
  { rewrite writeLines_marked; [by apply marked_ext | done | | | intros; lia].
    - rewrite Hbase. lia.
    - rewrite Hbase. lia. }
  assert (writeNumbers TrimSpace Fields W f used classes lineDigits lines 0 0 w =
          writeNumbersMarked TrimSpace Fields W (inSomeRange configured) f classes
                             lineDigits lines 0 w) as Hnumbers.
  { rewrite writeNumbers_marked; [by apply numbers_marked_ext | done | | | intros; lia].
    - rewrite Hbase. lia.
    - rewrite Hbase. lia. }
  split; [|split; [|split; [|split; [|split; [|split]]]]].
  - intros highlightIndex line Hpassed.
    pose proof (shouldHighlight_spec used highlightIndex line Hsorted Hpassed) as Hspec.
    destruct (shouldHighlight used highlightIndex line) as [highlight next].
    destruct Hspec as [-> Hcursor]. cbn [fst snd]. by rewrite Hmark.
  - intros Hon. rewrite Hlines. by apply writeLinesMarked_explicit.
  - intros Hoff. by apply writeLines_suppressed.
  - rewrite Hnumbers. apply writeNumbersMarked_explicit.
  - exact Hlines.
  - exact Hnumbers.
  - intros line. rewrite inSomeRange_true. split.
    + intros (j & r & Hj & Hr'). exists r. split; [|done].
      apply list_elem_of_In. by eapply list_elem_of_lookup_2.
    + intros (r & Hin & Hr'). apply list_elem_of_In, list_elem_of_lookup in Hin as (j & Hj).
      by exists j, r.
Qed.

End HighlightClaims.

(** ** Closed instances *)

(** C1, as the specification states it, fails: on a sink that refuses every
    write, rendering one keyword returns nil, not the sink's error, and all
    eight writes of the render are issued. *)
Lemma C1_counterexample :
  (∀ w p, snd (Write Sample.brokenWriter w p) = Some "write failed") ∧
  Format Sample.StandardTypes Sample.SplitTokensIntoLines Sample.TrimSpace Sample.Fields
         Sample.brokenWriter newFormatter Sample.heap ∅ newClassCache 0%nat
         [mkToken Sample.Keyword "func"] 0%nat
  = ((fst (get Sample.StandardTypes newFormatter Sample.heap newClassCache 0%nat None), None),
     8%nat) ∧
  ¬ propagatesWriteError.
Proof.
  split; [done|]. split; [by vm_compute|].
  intros Hclaim.
  specialize (Hclaim Sample.brokenWriter newFormatter Sample.heap ∅ newClassCache 0%nat
                     [mkToken Sample.Keyword "func"] 0%nat "write failed"
                     (λ _ _, eq_refl)).
  vm_compute in Hclaim. discriminate.
Qed.


Lemma C3_witness :
  In Sample.NameFunction Sample.StandardTypes ∧
  fieldSet FText (lightValuesOf Sample.lightStyle Sample.NameFunction) = false ∧
  (∀ c, In c (entryValues_classes (lightValuesOf Sample.lightStyle Sample.NameFunction) "") →
        ¬ ofField Sample.themed FText c) ∧
  mapGet (classes Sample.StandardTypes Sample.themed Sample.heap 0%nat (Some 1%nat))
         Sample.NameFunction = "underline dark:no-underline".
Proof.
  assert (In Sample.NameFunction Sample.StandardTypes) as Hin by (simpl; tauto).
  split; [exact Hin|].
  pose proof (C3_background_subtraction Sample.StandardTypes Sample.themed Sample.heap
                0%nat (Some 1%nat) Sample.NameFunction FText Hin)
    as (Hsub & _ & Hstring & _).
  assert (Sample.NameFunction ≠ Background) as Hne by discriminate.
  destruct (Hsub Hne) as (Hlight & _).
  split; [exact (proj1 (Hlight eq_refl))|].
  split; [exact (proj2 (Hlight eq_refl))|].
  rewrite (Hstring Hne ltac:(discriminate)). reflexivity.
Defined.

(** C3, as the specification states its last sentence, fails: in a theme
    whose keywords have the theme's background colour as their foreground,
    on dark text, the class string of the keywords still has the
    [text-[...]] class of that colour, light and dark. *)
Lemma C3_counterexample :
  In Sample.Keyword Sample.StandardTypes ∧
  Sample.Keyword ≠ Background ∧
  Colour_ (Get Sample.paleStyle Sample.Keyword)
  = Background_ (Get Sample.paleStyle Background) ∧
  mapGet (classes Sample.StandardTypes newFormatter Sample.paleHeap 0%nat None)
         Sample.Keyword
  = "text-[#ffffff] dark:text-[#ffffff]" ∧
  ¬ suppressesTextOnBackground.
Proof.
  assert (In Sample.Keyword Sample.StandardTypes) as Hin by (simpl; tauto).
  split; [exact Hin|]. split; [discriminate|]. split; [reflexivity|].
  split; [by vm_compute|].
  intros Hclaim.
  apply (Hclaim newFormatter Sample.paleHeap 0%nat Sample.Keyword Hin); [discriminate | reflexivity|].
  exists "", "#ffffff] dark:text-[#ffffff]". by vm_compute.
Qed.

Lemma C4_witness :
  (length (cacheAfter Sample.StandardTypes Sample.themed Sample.heap newClassCache
                      Sample.manyAccesses) ≤ 32)%nat ∧
  keyOf <$> cacheAfter Sample.StandardTypes Sample.themed Sample.heap newClassCache
                       Sample.manyAccesses
  = map (λ n, (n, n)) (seq 1 32) ∧
  (0%nat, 0%nat) ∉ keyOf <$> cacheAfter Sample.StandardTypes Sample.themed Sample.heap
                                        newClassCache Sample.manyAccesses.
Proof.
  pose proof (C4_strict_lru Sample.StandardTypes Sample.themed Sample.heap
                Sample.manyAccesses) as (Hlen & _ & _ & _ & _ & Hmany).
  assert (NoDup (accessKey <$> Sample.manyAccesses)) as Hnd.
  { refine (bool_decide_unpack (NoDup (accessKey <$> Sample.manyAccesses)) _).
    vm_compute. exact I. }
  assert (classCacheLimit < length Sample.manyAccesses)%nat as Hlong.
  { vm_compute. lia. }
  destruct (Hmany Hnd Hlong) as (Hkeys & Hfirst).
  split; [exact Hlen|]. split.
  - rewrite Hkeys. reflexivity.
  - exact (Hfirst (0%nat, None) (map (λ n, (n, None)) (seq 1 32)) eq_refl).
Defined.

Lemma C5_witness :
  snd (get Sample.StandardTypes (TabWidth 4 Sample.themed) Sample.heap
           (fst (get Sample.StandardTypes Sample.themed Sample.heap newClassCache
                     0%nat (Some 1%nat)))
           0%nat (Some 1%nat))
  = classes Sample.StandardTypes Sample.themed Sample.heap 0%nat (Some 1%nat).
Proof.
  pose proof (C5_get_idempotent Sample.StandardTypes Sample.themed (TabWidth 4 Sample.themed)
                Sample.heap Sample.heap newClassCache 0%nat (Some 1%nat)) as (Hsame & _).
  rewrite Hsame. reflexivity.
Defined.

Lemma C7_witness :
  sortContract insertionSort (readSlice Sample.callerStore Sample.callerSlice) ∧
  snd (writeLines Sample.TrimSpace Sample.Fields bufferWriter
         (snd (HighlightLines insertionSort Sample.callerSlice Sample.callerStore newFormatter))
         (readSlice
            (fst (HighlightLines insertionSort Sample.callerSlice Sample.callerStore
                                 newFormatter))
            Sample.callerSlice)
         (classes Sample.StandardTypes newFormatter Sample.heap 0%nat None)
         false 1 Sample.sixLines 0 0 "")
  = Sample.plainLine "a" +:+ Sample.plainLine "b" +:+ Sample.markedLine "c" +:+
    Sample.markedLine "d" +:+ Sample.markedLine "e" +:+ Sample.plainLine "f" ∧
  map (inSomeRange [(7, 8); (3, 5)]) [1; 2; 3; 4; 5; 6]
  = [false; false; true; true; true; false].
Proof.
  assert (sortContract insertionSort (readSlice Sample.callerStore Sample.callerSlice))
    as Hsort.
  { split; [vm_compute; apply perm_swap | vm_compute; repeat constructor]. }
  split; [exact Hsort|]. split; [|reflexivity].
  assert (s_off Sample.callerSlice + s_len Sample.callerSlice
          ≤ length (backing Sample.callerStore (s_array Sample.callerSlice)))%nat as Hvalid
    by (vm_compute; lia).
  assert (minInt ≤ baseLineNumber newFormatter) as Hmin by (vm_compute; discriminate).
  assert (baseLineNumber newFormatter + Z.of_nat (length Sample.sixLines) - 1 ≤ maxInt)
    as Hmax by (vm_compute; discriminate).
  destruct (C7_highlight_iff_in_range Sample.TrimSpace Sample.Fields insertionSort
              Sample.callerSlice Sample.callerStore newFormatter bufferWriter
              (classes Sample.StandardTypes newFormatter Sample.heap 0%nat None)
              false 1%nat Sample.sixLines "" Hsort Hvalid Hmin Hmax)
    as (_ & _ & _ & Hblock & _).
  etransitivity; [exact (f_equal snd (Hblock eq_refl))|].
  clear Hblock. vm_compute. reflexivity.
Defined.

Lemma C10_witness :
  sortContract insertionSort (readSlice Sample.callerStore Sample.callerSlice) ∧
  highlightRanges
    (snd (HighlightLines insertionSort Sample.callerSlice Sample.callerStore newFormatter))
  = Sample.callerSlice ∧
  readSlice Sample.callerStore Sample.callerSlice = [(7, 8); (3, 5)] ∧
  readSlice (fst (HighlightLines insertionSort Sample.callerSlice Sample.callerStore
                                 newFormatter)) Sample.callerSlice
  = [(3, 5); (7, 8)] ∧
  snd (writeHTML Sample.StandardTypes Sample.SplitTokensIntoLines Sample.TrimSpace
                 Sample.Fields bufferWriter
                 (snd (HighlightLines insertionSort Sample.callerSlice Sample.callerStore
                                      newFormatter))
                 Sample.heap
                 (<[0%nat := [(1, 1); (7, 8)]]>
                    (fst (HighlightLines insertionSort Sample.callerSlice Sample.callerStore
                                         newFormatter)))
                 newClassCache 0%nat Sample.tokens "")
  ≠ snd (writeHTML Sample.StandardTypes Sample.SplitTokensIntoLines Sample.TrimSpace
                   Sample.Fields bufferWriter
                   (snd (HighlightLines insertionSort Sample.callerSlice Sample.callerStore
                                        newFormatter))
                   Sample.heap
                   (fst (HighlightLines insertionSort Sample.callerSlice Sample.callerStore
                                        newFormatter))
                   newClassCache 0%nat Sample.tokens "").
Proof.
  assert (sortContract insertionSort (readSlice Sample.callerStore Sample.callerSlice))
    as Hsort.
  { split; [vm_compute; apply perm_swap | vm_compute; repeat constructor]. }
  split; [exact Hsort|].
  assert (s_off Sample.callerSlice + s_len Sample.callerSlice ≤
          length (backing Sample.callerStore (s_array Sample.callerSlice)))%nat as Hvalid.
  { vm_compute. lia. }
  pose proof (C10_highlight_lines_sorts_in_place Sample.StandardTypes
                Sample.SplitTokensIntoLines Sample.TrimSpace Sample.Fields insertionSort
                Sample.callerSlice Sample.callerStore newFormatter Hsort Hvalid)
    as (Hsame & Hread & _).
  split; [exact Hsame|]. split; [reflexivity|]. split.
  - rewrite Hread. reflexivity.
  - vm_compute. discriminate.
Defined.

(** With the surrounding markup suppressed, a token whose category has no
    classes is written as its escaped text and nothing else. *)
Example render_escaped_text :
  snd (writeHTML Sample.StandardTypes Sample.SplitTokensIntoLines Sample.TrimSpace
                 Sample.Fields bufferWriter (PreventSurroundingPre true newFormatter)
                 Sample.heap ∅ newClassCache 0%nat [mkToken Sample.Text "<a&b>"] "")
  = "&lt;a&amp;b&gt;".
Proof. by vm_compute. Qed.

(** The classes of a keyword: red and bold in the light theme, salmon and
    not bold in the dark theme. *)
Example classes_of_keyword :
  mapGet (classes Sample.StandardTypes Sample.themed Sample.heap 0%nat (Some 1%nat))
         Sample.Keyword
  = "text-[#d73a49] font-bold dark:text-[#ff7b72] dark:font-normal".
Proof. by vm_compute. Qed.

(** The cursor on the range from 3 to 5: the lines 2 to 6 in order. *)
Example highlight_3_to_5 :
  fst (shouldHighlight [(3, 5)] 0 2) = false ∧
  fst (shouldHighlight [(3, 5)] 0 3) = true ∧
  fst (shouldHighlight [(3, 5)] 0 4) = true ∧
  fst (shouldHighlight [(3, 5)] 0 5) = true ∧
  shouldHighlight [(3, 5)] 0 6 = (false, true).
Proof. by vm_compute. Qed.

(** * Further properties of the code *)

(** ** Joining class strings *)

Lemma joinClasses_nonempty (a b : string) : a ≠ "" → b ≠ "" → joinClasses a b = a +:+ " " +:+ b.
Proof. intros Ha Hb. unfold joinClasses. by rewrite !decide_False. Qed.

Lemma app_nonempty_l (a b : string) : a ≠ "" → a +:+ b ≠ "".
Proof. intros Ha H. by apply app_eq_nil in H as [? _]. Qed.

(** X1. [joinClasses] is a monoid operation on class strings: the empty
    string is neutral on both sides, joining is associative, and the join is
    empty only when both strings are. *)
Theorem X1_joinClasses_monoid (a b c : string) :
  joinClasses "" a = a ∧
  joinClasses a "" = a ∧
  joinClasses a (joinClasses b c) = joinClasses (joinClasses a b) c ∧
  (joinClasses a b = "" ↔ a = "" ∧ b = "").
Proof.
  assert (∀ x, joinClasses "" x = x) as Hl by done.
  assert (∀ x, joinClasses x "" = x) as Hr.
  { intros x. unfold joinClasses. by repeat case_decide. }
  split; [apply Hl|]. split; [apply Hr|]. split.
  - destruct (decide (a = "")) as [->|Ha]; [by rewrite !Hl|].
    destruct (decide (b = "")) as [->|Hb]; [by rewrite Hl, Hr|].
    destruct (decide (c = "")) as [->|Hc]; [by rewrite !Hr|].
    rewrite (joinClasses_nonempty b c), (joinClasses_nonempty a b) by done.
    rewrite !joinClasses_nonempty; try done; try by apply app_nonempty_l.
    by rewrite !app_assoc_s.
  - split.
    + destruct (decide (a = "")) as [->|Ha]; [by rewrite Hl|].
      destruct (decide (b = "")) as [->|Hb]; [by rewrite Hr|].
      rewrite joinClasses_nonempty by done. intros Hj.
      by apply app_eq_nil in Hj as [? _].
    + by intros [-> ->].
Qed.

(** ** The cache is a memo of [classes] *)

Lemma classes_default (StandardTypes : list TokenType) (f : Formatter) (h : Heap)
  (light : loc) (dark : option loc) :
  classes StandardTypes f h light (Some (default light dark)) =
  classes StandardTypes f h light dark.
Proof. by destruct dark. Qed.

Section Memo.

Variable StandardTypes : list TokenType.

(** With one formatter and one heap, every entry holds the mapping of its
    pair. *)
Lemma cacheAfter_coherent (f : Formatter) (h : Heap) (accesses : list (nat * option nat))
  (e : classCacheEntry) :
  e ∈ cacheAfter StandardTypes f h newClassCache accesses →
  e_cache e = classes StandardTypes f h (e_light e) (Some (e_dark e)).
Proof.
  revert e. induction accesses as [|a accesses IH] using rev_ind; intros e He.
  { by apply elem_of_nil in He. }
  rewrite cacheAfter_snoc in He.
  set (c := cacheAfter StandardTypes f h newClassCache accesses) in *.
  destruct (lookupFrom c (length c) a.1 (default a.1 a.2)) as [[i e']|] eqn:Hl.
  - destruct (get_hit_split StandardTypes f h c a.1 a.2 i e' Hl) as (c1 & c2 & Hc & _ & Hg).
    rewrite Hg in He. cbn [fst] in He. apply IH. rewrite Hc.
    apply elem_of_app in He as [He | He]; [apply elem_of_app; by left|].
    apply elem_of_app. right.
    apply elem_of_app in He as [He | ->%list_elem_of_singleton]; [by right | by left].
  - rewrite (get_miss StandardTypes f h c a.1 a.2 Hl) in He. cbn [fst] in He.
    apply elem_of_app in He as [He | ->%list_elem_of_singleton]; [|done].
    apply IH. destruct (classCacheLimit <=? length c)%nat; [|done].
    by eapply elem_of_drop_inv.
Qed.

Lemma get_memo (f : Formatter) (h : Heap)
  (accesses : list (nat * option nat)) (light : loc) (dark : option loc) :
  snd (get StandardTypes f h (cacheAfter StandardTypes f h newClassCache accesses) light dark)
  = classes StandardTypes f h light dark.
Proof.
  set (c := cacheAfter StandardTypes f h newClassCache accesses).
  destruct (lookupFrom c (length c) light (default light dark)) as [[i e]|] eqn:Hl.
  - rewrite (get_hit StandardTypes f h c light dark i e Hl). cbn [snd].
    apply lookupFrom_Some in Hl as (_ & Hc & Hkey & _).
    rewrite (cacheAfter_coherent f h accesses e) by (by eapply list_elem_of_lookup_2).
    injection Hkey as -> ->. apply classes_default.
  - rewrite (get_miss StandardTypes f h c light dark Hl). cbn [snd]. apply classes_default.
Qed.

(** X2. With one formatter and one heap of themes, [get] is a memo of
    [classes]: after any sequence of calls, from the empty cache, a call
    returns the mapping [classes] computes for its two themes, hit or
    miss. *)
Theorem X2_get_memoizes_classes (f : Formatter) (h : Heap)
  (accesses : list (nat * option nat)) (light : loc) (dark : option loc) :
  snd (get StandardTypes f h (cacheAfter StandardTypes f h newClassCache accesses) light dark)
  = classes StandardTypes f h light dark.
Proof. apply get_memo. Qed.

End Memo.

(** ** The cache does not show in the output *)

Lemma snd_bind_ext {W : Writer} {A B C : Type} (m : Render W A)
  (k1 : A → Render W B) (k2 : A → Render W C) (w : sink W) :
  (∀ a w', snd (k1 a w') = snd (k2 a w')) → snd ((m ≫= k1) w) = snd ((m ≫= k2) w).
Proof. intros Hk. unfold mbind, Render_bind. destruct (m w) as [a w']. apply Hk. Qed.

Section RenderCache.

Variable StandardTypes : list TokenType.
Variable SplitTokensIntoLines : list Token → list (list Token).
Variable TrimSpace : string → string.
Variable Fields : string → list string.

(** X3. With one formatter and one heap of themes, a render writes the same
    to the sink and returns the same error whether it starts from the empty
    cache or from the cache left by any sequence of earlier lookups. *)
Theorem X3_render_ignores_cache (W : Writer) (f : Formatter) (h : Heap) (st : Store)
  (accesses : list (nat * option nat)) (style : loc) (tokens : list Token) (w : sink W) :
  let warm := cacheAfter StandardTypes f h newClassCache accesses in
  snd (writeHTML StandardTypes SplitTokensIntoLines TrimSpace Fields W f h st warm
                 style tokens w) =
  snd (writeHTML StandardTypes SplitTokensIntoLines TrimSpace Fields W f h st newClassCache
                 style tokens w) ∧
  snd (fst (writeHTML StandardTypes SplitTokensIntoLines TrimSpace Fields W f h st warm
                      style tokens w)) =
  snd (fst (writeHTML StandardTypes SplitTokensIntoLines TrimSpace Fields W f h st
                      newClassCache style tokens w)).
Proof.
  intros warm. split.
  - pose proof (get_memo StandardTypes f h accesses style (darkStyle f)) as Hwarm.
    pose proof (get_memo StandardTypes f h [] style (darkStyle f)) as Hcold.
    fold warm in Hwarm. change (cacheAfter StandardTypes f h newClassCache []) with
      newClassCache in Hcold.
    unfold writeHTML.
    destruct (get StandardTypes f h warm style (darkStyle f)) as [c1 m1].
    destruct (get StandardTypes f h newClassCache style (darkStyle f)) as [c2 m2].
    cbn [snd] in Hwarm, Hcold. subst m1 m2.
    repeat (apply snd_bind_ext; intros ? ?; cbv beta zeta).
    reflexivity.
  - destruct (writeHTML_writes StandardTypes SplitTokensIntoLines TrimSpace Fields
                f h st warm style tokens) as (ch1 & H1 & _).
    destruct (writeHTML_writes StandardTypes SplitTokensIntoLines TrimSpace Fields
                f h st newClassCache style tokens) as (ch2 & H2 & _).
    by rewrite (H1 W w), (H2 W w).
Qed.

End RenderCache.

(** ** The cursor on any list of ranges *)

(** X4. On any list of ranges, sorted or not, [shouldHighlight] answers yes
    only for a line that lies in a range at or after the cursor; it reports
    an advance exactly when the range at the cursor ended before the line;
    and with the cursor at or past the end it answers no, without an advance
    and without reading a range. *)
Theorem X4_shouldHighlight_sound (ranges : list (Z * Z)) (highlightIndex : nat) (line : Z) :
  let '(highlight, next) := shouldHighlight ranges highlightIndex line in
  (highlight = true →
     ∃ j r, (highlightIndex ≤ j)%nat ∧ ranges !! j = Some r ∧ r.1 ≤ line ≤ r.2) ∧
  (next = true ↔ ∃ r, ranges !! highlightIndex = Some r ∧ r.2 < line) ∧
  ((length ranges ≤ highlightIndex)%nat → highlight = false ∧ next = false).
Proof.
  unfold shouldHighlight.
  destruct (skipEnded_spec (drop highlightIndex ranges) highlightIndex line false)
    as (k & -> & Hk & Hbefore & Hat).
  cbn [orb]. rewrite length_drop in Hk.
  assert ((0 <? k)%nat = true ↔ ∃ r, ranges !! highlightIndex = Some r ∧ r.2 < line) as Hnext.
  { split.
    - intros Hpos%Nat.ltb_lt.
      destruct (drop highlightIndex ranges !! 0%nat) as [r|] eqn:Hr.
      + exists r. split; [|by apply (Hbefore 0%nat r)].
        rewrite lookup_drop, Nat.add_0_r in Hr. done.
      + apply lookup_ge_None in Hr. rewrite length_drop in Hr. lia.
    - intros (r & Hr & Hlt). apply Nat.ltb_lt.
      destruct k as [|k]; [|lia]. exfalso.
      assert (line ≤ r.2); [|lia]. apply Hat. by rewrite lookup_drop, Nat.add_0_r. }
  assert ((length ranges ≤ highlightIndex)%nat → k = 0%nat) as Hend by lia.
  destruct (ranges !! (highlightIndex + k)%nat) as [hr|] eqn:Hcur.
  - destruct ((hr.1 <=? line) && (line <=? hr.2)) eqn:Hin.
    + split; [|split; [done|]].
      * intros _. exists (highlightIndex + k)%nat, hr. split; [lia|]. split; [done|].
        apply andb_true_iff in Hin as [?%Z.leb_le ?%Z.leb_le]. lia.
      * intros Hge. apply lookup_lt_Some in Hcur. lia.
    + split; [done|]. split; [done|].
      intros Hge. apply lookup_lt_Some in Hcur. lia.
  - split; [done|]. split; [done|]. intros Hge. rewrite (Hend Hge). done.
Qed.

(** ** Class attributes *)

Lemma Join_nonempty (parts : list string) (sep : string) :
  parts ≠ [] → (∀ p, In p parts → p ≠ "") → Str.Join parts sep ≠ "".
Proof.
  destruct parts as [|p rest]; [done|]. intros _ Hall.
  assert (p ≠ "") as Hp by (apply Hall; by left).
  destruct rest; [done|]. rewrite Join_cons by done. by apply app_nonempty_l.
Qed.

Lemma prefixedClasses_nonempty (f : Formatter) (l : list string) (c : string) :
  In c (prefixedClasses f l) → c ≠ "".
Proof.
  unfold prefixedClasses. rewrite in_flat_map. intros (name & _ & Hc).
  case_decide as Hname; [done|]. destruct Hc as [<-|[]].
  rewrite prefixClass_app. intros Hnil. by apply app_eq_nil in Hnil as [_ ?].
Qed.

Section ClassAttr.

Variable TrimSpace : string → string.
Variable Fields : string → list string.

(** X5. [classAttr] never writes an empty class attribute: it returns
    either the empty string or [ class="s"] with [s] not empty, whatever the
    extra classes; without extra classes it is empty exactly when the
    category's class string trims to nothing, and otherwise carries the
    trimmed string. *)
Theorem X5_classAttr_never_empty (f : Formatter) (classes : gmap Z string) (tt : TokenType)
  (extraClasses : list string) :
  (classAttr TrimSpace Fields f classes tt extraClasses = "" ∨
   ∃ s, s ≠ "" ∧
        classAttr TrimSpace Fields f classes tt extraClasses = " class=" +:+ quoted s) ∧
  (classAttr TrimSpace Fields f classes tt [] = "" ↔ TrimSpace (mapGet classes tt) = "") ∧
  (TrimSpace (mapGet classes tt) ≠ "" →
   classAttr TrimSpace Fields f classes tt [] =
   " class=" +:+ quoted (TrimSpace (mapGet classes tt))).
Proof.
  split; [|split].
  - unfold classAttr.
    set (parts := _ ++ _).
    assert (∀ p, In p parts → p ≠ "") as Hall.
    { intros p [Hp | Hp]%in_app_or.
      - case_decide as Hcls; [|done]. by destruct Hp as [<-|[]].
      - apply in_flat_map in Hp as (extra & _ & Hp).
        case_decide; [done|].
        destruct (Nat.ltb_spec 0 (length (prefixedClasses f (Fields (TrimSpace extra)))))
          as [Hlen|]; [|done].
        destruct Hp as [<-|[]]. apply Join_nonempty.
        + intros Hnil. rewrite Hnil in Hlen. simpl in Hlen. lia.
        + intros c Hc. by eapply prefixedClasses_nonempty. }
    case_decide as Hlen; [by left|]. right.
    exists (Str.Join parts " "). split; [|done].
    apply Join_nonempty; [|done]. intros Hnil. by rewrite Hnil in Hlen.
  - unfold classAttr. cbn [flat_map]. rewrite List.app_nil_r.
    destruct (decide (TrimSpace (mapGet classes tt) ≠ "")) as [Hne|Heq].
    + cbn [length]. rewrite decide_False by done. split; [|done].
      intros Hnil. by apply app_eq_nil in Hnil as [? _].
    + cbn [length]. rewrite decide_True by done. split; [|done].
      intros _. destruct (decide (TrimSpace (mapGet classes tt) = "")) as [E|E];
        [done | by destruct Heq].
  - intros Hne. unfold classAttr. cbn [flat_map]. rewrite List.app_nil_r.
    destruct (decide (TrimSpace (mapGet classes tt) ≠ "")) as [_|E]; [|done].
    cbn [length]. by rewrite decide_False.
Qed.

End ClassAttr.

(** ** Line ids *)

Lemma Itoa_inj (n m : Z) : Str.Itoa n = Str.Itoa m → n = m.
Proof.
  unfold Str.Itoa. intros Heq. apply DecimalZ.to_int_inj.
  assert (∀ z, Z.to_int z ≠ Decimal.Pos Decimal.Nil ∧ Z.to_int z ≠ Decimal.Neg Decimal.Nil)
    as Hnn.
  { intros [|p|p]; simpl; split; try discriminate; intros [= E];
      by apply DecimalPos.Unsigned.to_uint_nonnil in E. }
  pose proof (NilZero.isi (Z.to_int n) (proj1 (Hnn n)) (proj2 (Hnn n))) as Hn.
  pose proof (NilZero.isi (Z.to_int m) (proj1 (Hnn m)) (proj2 (Hnn m))) as Hm.
  rewrite Heq in Hn. rewrite Hn in Hm. by injection Hm.
Qed.

(** X6. Two lines have the same id only when they have the same number: with
    linkable line numbers the [id] attributes of distinct line numbers are
    distinct, whatever the id prefix; without them the attribute is empty. *)
Theorem X6_line_ids_distinct (f : Formatter) (line1 line2 : Z) :
  (lineID f line1 = lineID f line2 → line1 = line2) ∧
  (linkableLineNumbers f = true →
   lineIDAttribute f line1 = lineIDAttribute f line2 → line1 = line2) ∧
  (linkableLineNumbers f = false → lineIDAttribute f line1 = "").
Proof.
  assert (lineID f line1 = lineID f line2 → line1 = line2) as Hid.
  { unfold lineID. intros Heq%String.app_inj. by apply Itoa_inj. }
  split; [done|]. split.
  - intros Hlink. unfold lineIDAttribute, quoted. rewrite Hlink. cbn [negb].
    intros Heq. apply String.app_inj, String.app_inj in Heq.
    apply Hid. apply (f_equal Str.bytes) in Heq. rewrite !bytes_app in Heq.
    apply app_inv_tail in Heq. by apply bytes_inj.
  - intros Hlink. unfold lineIDAttribute. by rewrite Hlink.
Qed.

(** ** Light and dark classes under any prefix *)

(** X7. Whatever the class prefix, no light class derived from a style
    entry equals a dark-variant class: the dark marker in front of the prefix
    keeps the two sets apart even when the prefix itself contains the
    marker. *)
Theorem X7_light_dark_disjoint (f : Formatter) (entry : StyleEntry) (l d : entryValues) :
  Forall (λ c, ¬ In c (darkVariantClasses f l d))
         (entryValues_classes (entryValuesFrom entry) (prefix f)).
Proof.
  apply Forall_forall. intros c Hlight%list_elem_of_In Hdark.
  apply in_light_classes in Hlight as (fld & Hset & ->).
  destruct (fieldClass_from fld entry Hset) as (_ & Hplain & _).
  apply in_dark_classes in Hdark as (fld2 & [(_ & Heq) | (_ & _ & Heq)]);
    by apply prefix_ne_dark in Heq.
Qed.

Lemma plainHead_not_dark (name : string) :
  plainHead name = true → hasPrefix "dark:" name = false.
Proof.
  destruct name as [|c name]; [done|]. cbn [plainHead hasPrefix].
  destruct (Ascii.eqb_spec "d" c) as [<-|Hne]; [done | done].
Qed.

Lemma underPrefix_plain (p name : string) :
  hasPrefix "dark:" name = false → underPrefix p (prefixClass "" name) = prefixClass p name.
Proof.
  intros Hn. unfold underPrefix. rewrite !prefixClass_app, app_nil_l, Hn. done.
Qed.

Lemma underPrefix_dark (p : string) (f : Formatter) (name : string) :
  underPrefix p (darkClass (ClassPrefix "" f) name) = darkClass (ClassPrefix p f) name.
Proof.
  unfold underPrefix, darkClass. cbn [prefix ClassPrefix].
  by rewrite !prefixClass_app, app_nil_l.
Qed.

Lemma baseClasses_not_dark (f : Formatter) (t : TokenType) (name : string) :
  In name (baseClasses f t) → hasPrefix "dark:" name = false.
Proof.
  unfold baseClasses.
  repeat case_decide;
    try destruct (0 <? s_len (highlightRanges f))%nat;
    try destruct (wrapLongLines f);
    simpl; intros Hin; intuition (subst; reflexivity).
Qed.

Lemma prefixedClasses_underPrefix (p : string) (f : Formatter) (l : list string) :
  (∀ name, In name l → hasPrefix "dark:" name = false) →
  prefixedClasses (ClassPrefix p f) l =
  map (underPrefix p) (prefixedClasses (ClassPrefix "" f) l).
Proof.
  induction l as [|name l IH]; [done|]. intros Hall.
  unfold prefixedClasses in *. cbn [flat_map prefix ClassPrefix] in *.
  rewrite map_app, <- IH by (intros n Hn; apply Hall; by right).
  f_equal. case_decide; [done|]. cbn [map].
  rewrite underPrefix_plain; [done|]. apply Hall. by left.
Qed.

(** X8. The class prefix changes nothing but the prefix: the classes of a
    category under the prefix [p] are, in order, its classes under the empty
    prefix with [p] put in front of each class name, behind the dark marker
    for the dark-variant classes. *)
Theorem X8_prefix_only_prefixes (p : string) (f : Formatter) (L D : Style) (t : TokenType) :
  partsOf (ClassPrefix p f) L D t =
  map (underPrefix p) (partsOf (ClassPrefix "" f) L D t).
Proof.
  unfold partsOf. rewrite !map_app. f_equal; [|f_equal].
  - change (baseClasses (ClassPrefix p f) t) with (baseClasses f t).
    change (baseClasses (ClassPrefix "" f) t) with (baseClasses f t).
    apply prefixedClasses_underPrefix. intros name. apply baseClasses_not_dark.
  - cbn [prefix ClassPrefix]. unfold lightValuesOf.
    set (entry := if decide (t ≠ Background) then _ else _).
    assert (∀ fld, fieldSet fld (entryValuesFrom entry) = true →
                   underPrefix p (prefixClass "" (fieldClass fld (entryValuesFrom entry))) =
                   prefixClass p (fieldClass fld (entryValuesFrom entry))) as Hfld.
    { intros fld Hset. apply underPrefix_plain, plainHead_not_dark.
      by destruct (fieldClass_from fld entry Hset) as (_ & ? & _). }
    pose proof (Hfld FText) as Ht. pose proof (Hfld FBg) as Hb.
    pose proof (Hfld FBold) as Hbo. pose proof (Hfld FItalic) as Hi.
    pose proof (Hfld FUnderline) as Hu.
    cbn [fieldSet fieldClass] in Ht, Hb, Hbo, Hi, Hu.
    unfold entryValues_classes. rewrite !map_app.
    f_equal; [|f_equal; [|f_equal; [|f_equal]]].
    + destruct (decide (text (entryValuesFrom entry) ≠ "")) as [Hs|Hs]; [|reflexivity].
      cbn [map]. by rewrite Ht by (by apply bool_decide_eq_true).
    + destruct (decide (bg (entryValuesFrom entry) ≠ "")) as [Hs|Hs]; [|reflexivity].
      cbn [map]. by rewrite Hb by (by apply bool_decide_eq_true).
    + destruct (bold (entryValuesFrom entry)) eqn:Hs; [|done]. cbn [map].
      by rewrite Hbo.
    + destruct (italic (entryValuesFrom entry)) eqn:Hs; [|done]. cbn [map].
      by rewrite Hi.
    + destruct (underline (entryValuesFrom entry)) eqn:Hs; [|done]. cbn [map].
      by rewrite Hu.
  - unfold darkVariantClasses. rewrite !map_app.
    f_equal; [|f_equal; [|f_equal; [|f_equal]]];
      repeat case_decide;
      repeat match goal with |- context [if ?b then _ else _] => destruct b end;
      cbn [map]; by rewrite ?underPrefix_dark.
Qed.

(** ** The keys of the mapping and the wrapper *)

Section MappingFacts.

Variable StandardTypes : list TokenType.

(** X9. The mapping has an entry for the standard categories, always for
    the whole-block wrapper, and for [Background] also when a tab width is
    set, and for no other category; a missing category reads as the empty
    string; and the wrapper's class string ends with the whole class string
    of [Background]. *)
Theorem X9_mapping_keys (f : Formatter) (h : Heap) (light : loc) (dark : option loc)
  (t : TokenType) :
  let m := classes StandardTypes f h light dark in
  (is_Some (m !! t) ↔
   In t StandardTypes ∨ t = PreWrapper ∨
   (t = Background ∧ tabWidth f ≠ 0 ∧ tabWidth f ≠ 8)) ∧
  (m !! t = None → mapGet m t = "") ∧
  Str.hasSuffix (mapGet m PreWrapper) (mapGet m Background).
Proof.
  intros m. split; [|split].
  - unfold m, classes. rewrite lookup_insert.
    destruct (decide (PreWrapper = t)) as [<-|Hp].
    { split; [intros _; right; by left | intros _; by eexists]. }
    assert (tabWidthClass f ≠ "" ↔ tabWidth f ≠ 0 ∧ tabWidth f ≠ 8) as Htab.
    { split.
      - intros Hne. split; intros Heq; apply Hne, tabWidthClass_default; auto.
      - intros [H0 H8]. rewrite tabWidthClass_set by done.
        intros Hnil. by apply app_eq_nil in Hnil as [? _]. }
    assert (is_Some (standardClasses StandardTypes f (h light) (h (default light dark)) !! t)
            ↔ In t StandardTypes) as Hstd.
    { rewrite standardClasses_lookup, <- list_elem_of_In.
      destruct (decide (t ∈ StandardTypes)) as [Hin|Hin].
      - split; [done | intros _; by eexists].
      - split; [by intros [? ?] | done]. }
    case_decide as Hc.
    + rewrite lookup_insert. destruct (decide (Background = t)) as [<-|Hb].
      * split; [intros _; right; right; by apply Htab in Hc | intros _; by eexists].
      * rewrite Hstd. split; [by left|]. intros [?|[?|[? _]]]; done.
    + rewrite Hstd. split; [by left|]. intros [?|[?|[? Hset]]]; [done | done |].
      by apply Htab in Hset.
  - intros Hnone. unfold mapGet. by rewrite Hnone.
  - unfold m. rewrite classes_PreWrapper. unfold joinClasses.
    case_decide; [by exists ""|]. case_decide as Hb.
    + rewrite Hb. exists (mapGet (standardClasses StandardTypes f (h light)
                                    (h (default light dark))) PreWrapper).
      by rewrite app_nil_r.
    + eexists (_ +:+ " "). by rewrite app_assoc_s.
Qed.

End MappingFacts.

(** X10. Among the classes of the whole-block wrapper, the prefixed class
    [grid] is present exactly when highlight ranges are configured, and the
    prefixed classes [whitespace-pre-wrap] and [break-words] exactly when
    long lines are wrapped, whatever the themes and the prefix. *)
Theorem X10_wrapper_layout_classes (f : Formatter) (L D : Style) :
  (In (prefixClass (prefix f) "grid") (partsOf f L D PreWrapper) ↔
   (0 < s_len (highlightRanges f))%nat) ∧
  (In (prefixClass (prefix f) "whitespace-pre-wrap") (partsOf f L D PreWrapper) ↔
   wrapLongLines f = true) ∧
  (In (prefixClass (prefix f) "break-words") (partsOf f L D PreWrapper) ↔
   wrapLongLines f = true).
Proof.
  assert (∀ name, plainHead name = true → fieldOfName name = None →
            (In (prefixClass (prefix f) name) (partsOf f L D PreWrapper) ↔
             In name (baseClasses f PreWrapper))) as Hbase.
  { intros name Hplain Hnone. unfold partsOf. rewrite !in_app_iff. split.
    - intros [Hin | [Hin | Hin]].
      + apply in_prefixedClasses in Hin as (n & Hn & Heq).
        by apply prefixClass_inj in Heq as ->.
      + apply in_light_classes in Hin as (fld & Hset & Heq).
        apply prefixClass_inj in Heq.
        destruct (fieldClass_from fld _ Hset) as (Hname & _ & _).
        assert (fieldOfName name = Some fld) as Hsome by (rewrite Heq; exact Hname).
        congruence.
      + apply in_dark_classes in Hin as (fld & [(_ & Heq) | (_ & _ & Heq)]);
          by apply prefix_ne_dark in Heq.
    - intros Hin. left. unfold prefixedClasses. apply in_flat_map.
      exists name. split; [done|]. rewrite decide_False; [by left|].
      by intros ->. }
  rewrite !Hbase by done. unfold baseClasses. rewrite decide_True by done.
  rewrite !in_app_iff.
  destruct (Nat.ltb_spec 0 (s_len (highlightRanges f))), (wrapLongLines f); simpl;
    repeat split; intros; intuition (try discriminate; try lia).
Qed.

(** ** Renders without line spans, and standalone documents *)

Lemma snd_bind_post {W : Writer} {A B C : Type} (g : sink W → sink W) (m1 m2 : Render W A)
  (k1 : A → Render W B) (k2 : A → Render W C) (w1 w2 : sink W) :
  m1 w1 = m2 w2 →
  (∀ a w', snd (k1 a w') = g (snd (k2 a w'))) →
  snd ((m1 ≫= k1) w1) = g (snd ((m2 ≫= k2) w2)).
Proof.
  intros Hm Hk. unfold mbind, Render_bind. rewrite Hm. destruct (m2 w2) as [a w']. apply Hk.
Qed.

Section RenderShapes.

Variable StandardTypes : list TokenType.
Variable SplitTokensIntoLines : list Token → list (list Token).
Variable TrimSpace : string → string.
Variable Fields : string → list string.

Lemma writeHTML_suppressed (f : Formatter) (h : Heap) (st : Store) (c : classCache)
  (style : loc) (tokens : list Token) (W : Writer) (w : sink W) :
  preventSurroundingPre f || inlineCode f = true →
  standalone f = false →
  lineNumbers f && lineNumbersInTable f = false →
  let classes := snd (get StandardTypes f h c style (darkStyle f)) in
  snd (writeHTML StandardTypes SplitTokensIntoLines TrimSpace Fields W f h st c style tokens w)
  = writeAll W
      ([Start (preWrapper f) true (classAttr TrimSpace Fields f classes PreWrapper [])] ++
       map (tokenHTML TrimSpace Fields f classes) (List.concat (SplitTokensIntoLines tokens)) ++
       [End_ (preWrapper f) true]) w.
Proof.
  intros Hoff Hdoc Htable classes. unfold writeHTML. subst classes.
  destruct (get StandardTypes f h c style (darkStyle f)) as [c' classes]. cbn [snd].
  rewrite Hdoc, Htable. cbv zeta.
  set (lineDigits := String.length _).
  pose proof (writeLines_suppressed TrimSpace Fields f (readSlice st (highlightRanges f))
                classes false
                lineDigits (SplitTokensIntoLines tokens) 0 0 Hoff) as Hbody.
  assert (Writes
    (λ W, Fprint W (Start (preWrapper f) true (classAttr TrimSpace Fields f classes PreWrapper []))
          ;; writeLines TrimSpace Fields W f (readSlice st (highlightRanges f)) classes false
                        lineDigits (SplitTokensIntoLines tokens) 0 0
          ;; Fprint W (End_ (preWrapper f) true)
          ;; when W false (Fprint W ("</td></tr></table>" +:+ nl) ;; Fprint W ("</div>" +:+ nl))
          ;; when W false (Fprint W (nl +:+ "</body>" +:+ nl) ;; Fprint W ("</html>" +:+ nl))
          ;; mret (c', @None string))
    (c', None)
    ([Start (preWrapper f) true (classAttr TrimSpace Fields f classes PreWrapper [])] ++
     map (tokenHTML TrimSpace Fields f classes) (List.concat (SplitTokensIntoLines tokens)) ++
     [End_ (preWrapper f) true])) as Hw.
  { eapply Writes_eq.
    - eapply Writes_bind; [apply Writes_Fprint|].
      eapply Writes_bind; [apply Hbody|].
      eapply Writes_bind; [apply Writes_Fprint|].
      eapply Writes_bind; [apply Writes_when_false|].
      eapply Writes_bind; [apply Writes_when_false|].
      apply Writes_ret.
    - cbn [app]. rewrite ?List.app_nil_r. reflexivity. }
  specialize (Hw W w). cbn [when] in *.
  etransitivity; [|exact (f_equal snd Hw)]. reflexivity.
Qed.

(** X11. With the line markup suppressed ([PreventSurroundingPre] or
    [InlineCode] set), no standalone document and no line-number table, a
    render writes the wrapper's start, then one write per token of every
    line, then the wrapper's end, and nothing else: no line span, no inline
    line number and no highlight marker, whatever ranges and line-number
    options are configured. *)
Theorem X11_suppressed_line_markup (f : Formatter) (h : Heap) (st : Store) (c : classCache)
  (style : loc) (tokens : list Token) (W : Writer) (w : sink W) :
  preventSurroundingPre f || inlineCode f = true →
  standalone f = false →
  lineNumbers f && lineNumbersInTable f = false →
  let classes := snd (get StandardTypes f h c style (darkStyle f)) in
  snd (writeHTML StandardTypes SplitTokensIntoLines TrimSpace Fields W f h st c style tokens w)
  = writeAll W
      ([Start (preWrapper f) true (classAttr TrimSpace Fields f classes PreWrapper [])] ++
       map (tokenHTML TrimSpace Fields f classes) (List.concat (SplitTokensIntoLines tokens)) ++
       [End_ (preWrapper f) true]) w.
Proof. apply writeHTML_suppressed. Qed.

Lemma tokenHTML_Standalone (b : bool) (f : Formatter) (classes : gmap Z string) (t : Token) :
  tokenHTML TrimSpace Fields (Standalone b f) classes t = tokenHTML TrimSpace Fields f classes t.
Proof. reflexivity. Qed.

Lemma writeTokens_Standalone (W : Writer) (b : bool) (f : Formatter) (classes : gmap Z string)
  (tokens : list Token) :
  writeTokens TrimSpace Fields W (Standalone b f) classes tokens =
  writeTokens TrimSpace Fields W f classes tokens.
Proof.
  induction tokens as [|t rest IH]; [done|]. simpl writeTokens.
  by rewrite IH, tokenHTML_Standalone.
Qed.

Lemma writeLine_Standalone (W : Writer) (b : bool) (f : Formatter) (classes : gmap Z string)
  (wrapInTable : bool) (lineDigits : nat) (line : Z) (highlight : bool) (tokens : list Token) :
  writeLine TrimSpace Fields W (Standalone b f) classes wrapInTable lineDigits line highlight
            tokens =
  writeLine TrimSpace Fields W f classes wrapInTable lineDigits line highlight tokens.
Proof. unfold writeLine. by rewrite writeTokens_Standalone. Qed.

Lemma writeLines_Standalone (W : Writer) (b : bool) (f : Formatter) (ranges : list (Z * Z))
  (classes : gmap Z string) (wrapInTable : bool) (lineDigits : nat)
  (lines : list (list Token)) (index : Z) (highlightIndex : nat) :
  writeLines TrimSpace Fields W (Standalone b f) ranges classes wrapInTable lineDigits lines
             index highlightIndex =
  writeLines TrimSpace Fields W f ranges classes wrapInTable lineDigits lines
             index highlightIndex.
Proof.
  revert index highlightIndex.
  induction lines as [|tokens rest IH]; intros index highlightIndex; [done|].
  simpl writeLines. change (baseLineNumber (Standalone b f)) with (baseLineNumber f).
  destruct (shouldHighlight ranges highlightIndex (int_add (baseLineNumber f) index))
    as [highlight next].
  by rewrite IH, writeLine_Standalone.
Qed.

Lemma writeNumbers_Standalone (W : Writer) (b : bool) (f : Formatter) (ranges : list (Z * Z))
  (classes : gmap Z string) (lineDigits : nat)
  (lines : list (list Token)) (index : Z) (highlightIndex : nat) :
  writeNumbers TrimSpace Fields W (Standalone b f) ranges classes lineDigits lines
               index highlightIndex =
  writeNumbers TrimSpace Fields W f ranges classes lineDigits lines index highlightIndex.
Proof.
  revert index highlightIndex.
  induction lines as [|tokens rest IH]; intros index highlightIndex; [done|].
  simpl writeNumbers. change (baseLineNumber (Standalone b f)) with (baseLineNumber f).
  destruct (shouldHighlight ranges highlightIndex (int_add (baseLineNumber f) index))
    as [highlight next].
  by rewrite IH.
Qed.

Lemma get_Standalone (b : bool) (f : Formatter) (h : Heap) (c : classCache) (light : loc)
  (dark : option loc) :
  get StandardTypes (Standalone b f) h c light dark = get StandardTypes f h c light dark.
Proof. reflexivity. Qed.

(** X12. [Standalone] only wraps the fragment: the render of a standalone
    document writes the two opening lines of the document, the second
    carrying the [Background] classes on the body, then exactly what the
    render of the fragment writes, then the two closing lines; the cache and
    the mapping are the same. *)
Theorem X12_standalone_wraps_fragment (f : Formatter) (h : Heap) (st : Store)
  (c : classCache) (style : loc) (tokens : list Token) (W : Writer) (w : sink W) :
  let classes := snd (get StandardTypes f h c style (darkStyle f)) in
  snd (writeHTML StandardTypes SplitTokensIntoLines TrimSpace Fields W
                 (Standalone true f) h st c style tokens w)
  = writeAll W [nl +:+ "</body>" +:+ nl; "</html>" +:+ nl]
      (snd (writeHTML StandardTypes SplitTokensIntoLines TrimSpace Fields W
                      (Standalone false f) h st c style tokens
                      (writeAll W ["<html>" +:+ nl;
                                   "<body" +:+ classAttr TrimSpace Fields f classes Background []
                                   +:+ ">" +:+ nl] w))) ∧
  fst (writeHTML StandardTypes SplitTokensIntoLines TrimSpace Fields W
                 (Standalone true f) h st c style tokens w)
  = (fst (get StandardTypes f h c style (darkStyle f)), None).
Proof.
  intros classes. split.
  - unfold writeHTML. rewrite !get_Standalone. subst classes.
    change (darkStyle (Standalone true f)) with (darkStyle f).
    change (darkStyle (Standalone false f)) with (darkStyle f).
    destruct (get StandardTypes f h c style (darkStyle f)) as [c' classes]. cbn [snd].
    rewrite !writeLines_Standalone, !writeNumbers_Standalone.
    set (g := writeAll W [nl +:+ "</body>" +:+ nl; "</html>" +:+ nl]).
    cbv zeta.
    repeat (apply (snd_bind_post g); [reflexivity | intros ? ?]).
    reflexivity.
  - destruct (writeHTML_writes StandardTypes SplitTokensIntoLines TrimSpace Fields
                (Standalone true f) h st c style tokens) as (chunks & Hw & _).
    rewrite (Hw W w). cbn [fst]. by rewrite get_Standalone.
Qed.

Lemma get_InlineCode (b : bool) (f : Formatter) (h : Heap) (c : classCache) (light : loc)
  (dark : option loc) :
  get StandardTypes (InlineCode b f) h c light dark = get StandardTypes f h c light dark.
Proof. reflexivity. Qed.

Lemma get_PreventSurroundingPre (b : bool) (f : Formatter) (h : Heap) (c : classCache)
  (light : loc) (dark : option loc) :
  get StandardTypes (PreventSurroundingPre b f) h c light dark
  = get StandardTypes f h c light dark.
Proof. reflexivity. Qed.

(** Without extra classes, the attribute does not depend on the formatter. *)
Lemma classAttr_no_extra (f1 f2 : Formatter) (classes : gmap Z string) (t : TokenType) :
  classAttr TrimSpace Fields f1 classes t [] = classAttr TrimSpace Fields f2 classes t [].
Proof. reflexivity. Qed.

Lemma tokenHTML_formatter (f1 f2 : Formatter) (classes : gmap Z string) :
  tokenHTML TrimSpace Fields f1 classes = tokenHTML TrimSpace Fields f2 classes.
Proof. reflexivity. Qed.

(** X15. [InlineCode] and [PreventSurroundingPre] do not commute: each
    replaces the wrapper the other installed, so the one applied last
    decides it. For a fragment without a line-number table, applying
    [PreventSurroundingPre(true)] last renders the tokens between two empty
    writes, and applying [InlineCode(true)] last renders the same tokens
    inside a [code] element; the classes are those of the formatter before
    either option. *)
Theorem X15_wrapper_options_order (f : Formatter) (h : Heap) (st : Store) (c : classCache)
  (style : loc) (tokens : list Token) (W : Writer) (w : sink W) :
  standalone f = false →
  lineNumbers f && lineNumbersInTable f = false →
  let classes := snd (get StandardTypes f h c style (darkStyle f)) in
  let body := map (tokenHTML TrimSpace Fields f classes)
                  (List.concat (SplitTokensIntoLines tokens)) in
  snd (writeHTML StandardTypes SplitTokensIntoLines TrimSpace Fields W
                 (PreventSurroundingPre true (InlineCode true f)) h st c style tokens w)
  = writeAll W ([""] ++ body ++ [""]) w ∧
  snd (writeHTML StandardTypes SplitTokensIntoLines TrimSpace Fields W
                 (InlineCode true (PreventSurroundingPre true f)) h st c style tokens w)
  = writeAll W (["<code" +:+ classAttr TrimSpace Fields f classes PreWrapper [] +:+ ">"] ++
                body ++ ["</code>"]) w.
Proof.
  intros Hdoc Htable classes body. subst classes body. split.
  - pose proof (writeHTML_suppressed (PreventSurroundingPre true (InlineCode true f))
                  h st c style tokens W w eq_refl Hdoc Htable) as Hw.
    cbv zeta in Hw. rewrite Hw. clear Hw.
    change (darkStyle (PreventSurroundingPre true (InlineCode true f))) with (darkStyle f).
    rewrite get_PreventSurroundingPre, get_InlineCode.
    rewrite (tokenHTML_formatter _ f). reflexivity.
  - pose proof (writeHTML_suppressed (InlineCode true (PreventSurroundingPre true f))
                  h st c style tokens W w eq_refl Hdoc Htable) as Hw.
    cbv zeta in Hw. rewrite Hw. clear Hw.
    change (darkStyle (InlineCode true (PreventSurroundingPre true f))) with (darkStyle f).
    rewrite get_InlineCode, get_PreventSurroundingPre.
    rewrite (tokenHTML_formatter _ f).
    rewrite (classAttr_no_extra _ f). reflexivity.
Qed.

End RenderShapes.

(** ** The ranges as a [sort.Interface] *)

Lemma insert_head_perm {A : Type} (l : list A) (j : nat) (a b : A) :
  l !! j = Some b → b :: <[j := a]> l ≡ₚ a :: l.
Proof.
  revert j. induction l as [|y t IH]; intros [|j] Hb; try done.
  - injection Hb as ->. apply perm_swap.
  - cbn in Hb |- *. rewrite (perm_swap y b), (IH j Hb). apply perm_swap.
Qed.

Lemma swap_perm {A : Type} (l : list A) (i j : nat) (a b : A) :
  l !! i = Some a → l !! j = Some b → <[j := a]> (<[i := b]> l) ≡ₚ l.
Proof.
  revert i j. induction l as [|x t IH]; intros [|i] [|j] Ha Hb; try done; cbn in *.
  - by injection Ha as ->.
  - injection Ha as ->. by apply insert_head_perm.
  - injection Hb as ->. by apply insert_head_perm.
  - f_equiv. by apply IH.
Qed.

Lemma swap_lookup_l {A : Type} (l : list A) (i j : nat) (a b : A) :
  l !! i = Some a → l !! j = Some b → <[j := a]> (<[i := b]> l) !! i = Some b.
Proof.
  intros Ha Hb. apply lookup_lt_Some in Ha as Hi. destruct (decide (i = j)) as [->|Hne].
  - rewrite list_lookup_insert_eq by (by rewrite length_insert). congruence.
  - rewrite list_lookup_insert_ne by done. by apply list_lookup_insert_eq.
Qed.

Lemma swap_lookup_r {A : Type} (l : list A) (i j : nat) (a b : A) :
  l !! j = Some b → <[j := a]> (<[i := b]> l) !! j = Some a.
Proof.
  intros Hb. apply lookup_lt_Some in Hb. apply list_lookup_insert_eq. by rewrite length_insert.
Qed.

Lemma swap_swap {A : Type} (l : list A) (i j : nat) (a b : A) :
  l !! i = Some a → l !! j = Some b →
  <[j := b]> (<[i := a]> (<[j := a]> (<[i := b]> l))) = l.
Proof.
  intros Ha Hb. apply lookup_lt_Some in Ha as Hi. apply lookup_lt_Some in Hb as Hj.
  apply list_eq. intros k.
  destruct (decide (j = k)) as [<-|Hjk].
  { rewrite list_lookup_insert_eq by (by rewrite !length_insert). done. }
  rewrite list_lookup_insert_ne by done.
  destruct (decide (i = k)) as [<-|Hik].
  { rewrite list_lookup_insert_eq by (by rewrite !length_insert). done. }
  by rewrite !list_lookup_insert_ne by done.
Qed.

Lemma writeSlice_backing_length (st : Store) (s : slice) (new : list (Z * Z)) :
  (s_off s + s_len s ≤ length (backing st (s_array s)))%nat →
  length new = s_len s →
  length (backing (writeSlice st s new) (s_array s)) = length (backing st (s_array s)).
Proof.
  intros Hv Hlen. unfold writeSlice, backing at 1.
  rewrite lookup_insert_eq. cbn [default from_option]. unfold id.
  rewrite !length_app, length_take, length_drop. lia.
Qed.

(** X13. The methods of [highlightRanges] behave as [sort.Sort] needs, on a
    slice that lies within its backing array: [Swap(i, j)] runs without a
    panic exactly when both indices are below [Len()]; it writes through
    the slice, and afterwards the slice holds the same ranges as before
    (a permutation), with those at [i] and [j] exchanged and every other
    one in place, so that [Less(i, j)] now answers what [Less(j, i)]
    answered before; a second [Swap(i, j)] restores the ranges. *)
Theorem X13_swap_exchanges (st : Store) (h : slice) (i j : nat) :
  (s_off h + s_len h ≤ length (backing st (s_array h)))%nat →
  (is_Some (highlightRanges_Swap st h i j) ↔
   (i < highlightRanges_Len h)%nat ∧ (j < highlightRanges_Len h)%nat) ∧
  (is_Some (highlightRanges_Less st h i j) ↔
   (i < highlightRanges_Len h)%nat ∧ (j < highlightRanges_Len h)%nat) ∧
  ∀ st', highlightRanges_Swap st h i j = Some st' →
    readSlice st' h ≡ₚ readSlice st h ∧
    readSlice st' h !! i = readSlice st h !! j ∧
    readSlice st' h !! j = readSlice st h !! i ∧
    (∀ k, k ≠ i → k ≠ j → readSlice st' h !! k = readSlice st h !! k) ∧
    highlightRanges_Less st' h i j = highlightRanges_Less st h j i ∧
    ∃ st'', highlightRanges_Swap st' h i j = Some st'' ∧
            readSlice st'' h = readSlice st h.
Proof.
  intros Hv. pose proof (readSlice_length st h Hv) as Hlen.
  unfold highlightRanges_Swap, highlightRanges_Less, highlightRanges_Len.
  split; [|split].
  - rewrite <- Hlen, <- !lookup_lt_is_Some.
    destruct (readSlice st h !! i), (readSlice st h !! j); split;
      try (intros [? ?]); try (intros [[? ?] [? ?]]); try done; eauto.
  - rewrite <- Hlen, <- !lookup_lt_is_Some.
    destruct (readSlice st h !! i), (readSlice st h !! j); split;
      try (intros [? ?]); try (intros [[? ?] [? ?]]); try done; eauto.
  - intros st'.
    destruct (readSlice st h !! i) as [a|] eqn:Ha; [|done].
    destruct (readSlice st h !! j) as [b|] eqn:Hb; [|done].
    intros [= <-].
    assert (length (<[j := a]> (<[i := b]> (readSlice st h))) = s_len h) as Hlen'
      by (by rewrite !length_insert).
    pose proof (writeSlice_backing_length st h _ Hv Hlen') as Hback.
    rewrite !(readSlice_writeSlice st h _ Hv Hlen').
    rewrite (swap_lookup_l _ i j a b Ha Hb), (swap_lookup_r _ i j a b Hb).
    split; [by apply (swap_perm _ i j a b)|].
    split; [done|]. split; [done|].
    split; [intros k Hki Hkj; by rewrite !list_lookup_insert_ne by done|].
    split; [done|].
    eexists. split; [reflexivity|].
    rewrite readSlice_writeSlice.
    + by apply swap_swap.
    + by rewrite Hback.
    + by rewrite !length_insert.
Qed.

Lemma X13_witness :
  is_Some (highlightRanges_Swap Sample.callerStore Sample.callerSlice 0 1) ∧
  ∀ st', highlightRanges_Swap Sample.callerStore Sample.callerSlice 0 1 = Some st' →
    readSlice st' Sample.callerSlice !! 0%nat
    = readSlice Sample.callerStore Sample.callerSlice !! 1%nat.
Proof.
  assert (s_off Sample.callerSlice + s_len Sample.callerSlice
          ≤ length (backing Sample.callerStore (s_array Sample.callerSlice)))%nat as Hv
    by (vm_compute; lia).
  destruct (X13_swap_exchanges Sample.callerStore Sample.callerSlice 0 1 Hv)
    as (Hsome & _ & Hswap).
  split.
  - apply Hsome. vm_compute. lia.
  - intros st' Hst. exact (proj1 (proj2 (Hswap st' Hst))).
Defined.

(** ** One pair of spans per line *)

Lemma countWrites_cons (p c : string) (l : list string) :
  countWrites p (c :: l) = ((if decide (c = p) then 1 else 0) + countWrites p l)%nat.
Proof. unfold countWrites. rewrite filter_cons. by destruct (decide (c = p)). Qed.

Lemma countWrites_app (p : string) (l1 l2 : list string) :
  countWrites p (l1 ++ l2) = (countWrites p l1 + countWrites p l2)%nat.
Proof. unfold countWrites. by rewrite filter_app, length_app. Qed.

Lemma countWrites_plain (p : string) (l : list string) :
  p = "<span" ∨ p = "</span>" → Forall plainWrite l → countWrites p l = 0%nat.
Proof.
  intros Hp. induction 1 as [|c l [Ho Hc] _ IH]; [done|].
  rewrite countWrites_cons, IH. destruct (decide (c = p)) as [->|]; [|done].
  by destruct Hp.
Qed.

Lemma plainWrite_head (c : string) : String.get 0 c ≠ Some "<"%char → plainWrite c.
Proof. intros Hc. split; intros ->; by apply Hc. Qed.

Lemma plainWrite_open (x : string) : x ≠ "" → plainWrite ("<span" +:+ x).
Proof.
  intros Hx. split; intros H.
  - destruct x; [done|]. apply (f_equal String.length) in H. vm_compute in H. discriminate.
  - apply (f_equal (String.get 1)) in H. vm_compute in H. discriminate.
Qed.

Lemma EscapeString_plainWrite (s : string) : plainWrite (EscapeString s).
Proof.
  apply plainWrite_head. destruct s as [|c rest]; [done|].
  cbn [EscapeString]. unfold escapeByte.
  repeat match goal with
         | |- context [Ascii.eqb c ?x] =>
             destruct (Ascii.eqb_spec c x) as [_|?]; [vm_compute; congruence|]
         end.
  change (Some c ≠ Some "<"%char). congruence.
Qed.

Ltac nonempty_app :=
  let H := fresh in
  intros H; repeat (apply app_eq_nil in H as [? H]); done.

Section LineSpans.

Variable TrimSpace : string → string.
Variable Fields : string → list string.

Lemma classAttr_head (f : Formatter) (classes : gmap Z string) (t : TokenType)
  (extraClasses : list string) :
  classAttr TrimSpace Fields f classes t extraClasses = "" ∨
  ∃ r, classAttr TrimSpace Fields f classes t extraClasses = String " " r.
Proof.
  unfold classAttr. destruct (decide _); [by left|]. right. eexists. reflexivity.
Qed.

Lemma classAttr_gt_plain (f : Formatter) (classes : gmap Z string) (t : TokenType) :
  plainWrite (classAttr TrimSpace Fields f classes t [] +:+ ">").
Proof.
  apply plainWrite_head.
  by destruct (classAttr_head f classes t []) as [-> | [r ->]].
Qed.

Lemma tokenHTML_plain (f : Formatter) (classes : gmap Z string) (tokens : list Token) :
  Forall plainWrite (map (tokenHTML TrimSpace Fields f classes) tokens).
Proof.
  apply List.Forall_forall. intros c (token & <- & _)%in_map_iff.
  unfold tokenHTML. destruct (decide _).
  - apply plainWrite_open. nonempty_app.
  - apply EscapeString_plainWrite.
Qed.

(** A line that is not suppressed is written as the opening [<span], writes
    that neither open nor close a line, and two closing [</span>]. *)
Lemma writeLine_shape (f : Formatter) (classes : gmap Z string) (wrapInTable : bool)
  (lineDigits : nat) (line : Z) (highlight : bool) (tokens : list Token) :
  preventSurroundingPre f || inlineCode f = false →
  ∃ mid, Forall plainWrite mid ∧
    Writes (λ W, writeLine TrimSpace Fields W f classes wrapInTable lineDigits line
                           highlight tokens)
           tt (["<span"] ++ mid ++ ["</span>"; "</span>"]).
Proof.
  intros Hon.
  assert (∃ inner, Forall plainWrite inner ∧
    Writes (λ W, writeLine TrimSpace Fields W f classes wrapInTable lineDigits line
                           highlight tokens)
           tt (["<span"] ++ inner ++ map (tokenHTML TrimSpace Fields f classes) tokens ++
               ["</span>"; "</span>"])) as (inner & Hinner & Hw).
  { eexists. split; cycle 1.
    - unfold writeLine. rewrite Hon. cbn [negb].
      eapply Writes_eq.
      + eapply Writes_bind.
        { apply Writes_when_true. eapply Writes_bind; [apply Writes_Fprint|].
          repeat writes_step. }
        eapply Writes_bind; [apply writeTokens_writes|].
        apply Writes_when_true. repeat writes_step.
      + reflexivity.
    - destruct highlight; [destruct (bool_decide _)|];
        destruct (lineNumbers f && negb wrapInTable);
        cbn [app]; repeat apply Forall_cons_2; try apply Forall_nil_2;
        first [ apply classAttr_gt_plain
              | by apply plainWrite_head
              | apply plainWrite_open; nonempty_app ]. }
  exists (inner ++ map (tokenHTML TrimSpace Fields f classes) tokens).
  split; [apply Forall_app; split; [done | apply tokenHTML_plain]|].
  eapply Writes_eq; [exact Hw|]. by rewrite <- List.app_assoc.
Qed.

Lemma writeAll_log (chunks calls : list string) :
  writeAll logWriter chunks calls = calls ++ chunks.
Proof.
  revert calls. induction chunks as [|p chunks IH]; intros calls; simpl.
  - by rewrite List.app_nil_r.
  - rewrite IH. by rewrite <- List.app_assoc.
Qed.

Lemma writeLines_counts (f : Formatter) (ranges : list (Z * Z)) (classes : gmap Z string)
  (wrapInTable : bool) (lineDigits : nat) (lines : list (list Token))
  (index : Z) (highlightIndex : nat) :
  ∃ chunks,
    Writes (λ W, writeLines TrimSpace Fields W f ranges classes wrapInTable lineDigits
                            lines index highlightIndex) tt chunks ∧
    countWrites "<span" chunks
    = (if preventSurroundingPre f || inlineCode f then 0 else length lines)%nat ∧
    countWrites "</span>" chunks
    = (if preventSurroundingPre f || inlineCode f then 0 else 2 * length lines)%nat.
Proof.
  destruct (preventSurroundingPre f || inlineCode f) eqn:Hoff.
  { eexists. split; [by apply writeLines_suppressed|].
    split; apply countWrites_plain; auto using tokenHTML_plain. }
  revert index highlightIndex.
  induction lines as [|tokens rest IH]; intros index highlightIndex.
  { exists []. split; [apply Writes_ret | done]. }
  simpl writeLines.
  destruct (shouldHighlight ranges highlightIndex (int_add (baseLineNumber f) index))
    as [highlight next].
  destruct (IH (index + 1) (if next then S highlightIndex else highlightIndex))
    as (others & Hw & Hopen & Hclose).
  destruct (writeLine_shape f classes wrapInTable lineDigits
              (int_add (baseLineNumber f) index) highlight tokens Hoff)
    as (mid & Hmid & Hline).
  eexists. split; [eapply Writes_bind; [exact Hline | exact Hw]|].
  rewrite !countWrites_app, Hopen, Hclose.
  rewrite !(countWrites_plain _ mid) by auto.
  cbn [length]. split; vm_compute countWrites; lia.
Qed.

(** X14. The loop over the lines of the code block calls [Write] with the
    line-opening [<span] exactly once per line and with [</span>] exactly
    twice per line, whatever the tokens hold and whichever lines are
    highlighted or numbered; with the line markup suppressed it makes
    neither call. *)
Theorem X14_one_span_pair_per_line (f : Formatter) (ranges : list (Z * Z))
  (classes : gmap Z string) (wrapInTable : bool) (lineDigits : nat)
  (lines : list (list Token)) (index : Z) (highlightIndex : nat) :
  let calls := snd (writeLines TrimSpace Fields logWriter f ranges classes wrapInTable
                               lineDigits lines index highlightIndex []) in
  countWrites "<span" calls
  = (if preventSurroundingPre f || inlineCode f then 0 else length lines)%nat ∧
  countWrites "</span>" calls
  = (if preventSurroundingPre f || inlineCode f then 0 else 2 * length lines)%nat.
Proof.
  intros calls. subst calls.
  destruct (writeLines_counts f ranges classes wrapInTable lineDigits lines index
              highlightIndex) as (chunks & Hw & Hcounts).
  rewrite (Hw logWriter []). cbn [snd]. by rewrite writeAll_log.
Qed.

End LineSpans.

(** ** Instances on the sample styles *)

Lemma string_app_inv_head (w a b : string) : w +:+ a = w +:+ b → a = b.
Proof.
  induction w as [|ch w IH]; [done|]. rewrite !app_cons. intros [= H]. by apply IH.
Qed.

Lemma X11_witness :
  snd (writeHTML Sample.StandardTypes Sample.SplitTokensIntoLines Sample.TrimSpace
                 Sample.Fields bufferWriter SampleOptions.inlineNumbered Sample.heap
                 Sample.callerStore newClassCache 0%nat Sample.tokens "")
  = writeAll bufferWriter
      ([Start (preWrapper SampleOptions.inlineNumbered) true
              (classAttr Sample.TrimSpace Sample.Fields SampleOptions.inlineNumbered
                 (snd (get Sample.StandardTypes SampleOptions.inlineNumbered Sample.heap
                           newClassCache 0%nat (darkStyle SampleOptions.inlineNumbered)))
                 PreWrapper [])] ++
       map (tokenHTML Sample.TrimSpace Sample.Fields SampleOptions.inlineNumbered
              (snd (get Sample.StandardTypes SampleOptions.inlineNumbered Sample.heap
                        newClassCache 0%nat (darkStyle SampleOptions.inlineNumbered))))
           (List.concat (Sample.SplitTokensIntoLines Sample.tokens)) ++
       [End_ (preWrapper SampleOptions.inlineNumbered) true]) "".
Proof.
  exact (X11_suppressed_line_markup Sample.StandardTypes Sample.SplitTokensIntoLines
           Sample.TrimSpace Sample.Fields SampleOptions.inlineNumbered Sample.heap
           Sample.callerStore newClassCache 0%nat Sample.tokens bufferWriter ""
           eq_refl eq_refl eq_refl).
Defined.

Lemma X15_witness :
  snd (writeHTML Sample.StandardTypes Sample.SplitTokensIntoLines Sample.TrimSpace
                 Sample.Fields bufferWriter
                 (PreventSurroundingPre true (InlineCode true SampleOptions.customWrapper))
                 Sample.heap Sample.callerStore newClassCache 0%nat Sample.tokens "")
  ≠
  snd (writeHTML Sample.StandardTypes Sample.SplitTokensIntoLines Sample.TrimSpace
                 Sample.Fields bufferWriter
                 (InlineCode true (PreventSurroundingPre true SampleOptions.customWrapper))
                 Sample.heap Sample.callerStore newClassCache 0%nat Sample.tokens "").
Proof.
  destruct (X15_wrapper_options_order Sample.StandardTypes Sample.SplitTokensIntoLines
              Sample.TrimSpace Sample.Fields SampleOptions.customWrapper Sample.heap
              Sample.callerStore newClassCache 0%nat Sample.tokens bufferWriter ""
              eq_refl eq_refl) as [Hlast Hfirst].
  rewrite Hlast, Hfirst. clear Hlast Hfirst.
  rewrite !writeAll_buffer. intros Heq. apply string_app_inv_head in Heq.
  vm_compute in Heq. discriminate Heq.
Defined.

(** * The mapping, class by class *)

Lemma prefixClass_nonempty (p name : string) : name ≠ "" → prefixClass p name ≠ "".
Proof. intros Hn. rewrite prefixClass_app. intros H. by apply app_eq_nil in H as [_ ?]. Qed.

Lemma plainHead_nonempty (name : string) : plainHead name = true → name ≠ "".
Proof. by destruct name. Qed.

Lemma partsOf_nonempty (f : Formatter) (L D : Style) (t : TokenType) (c : string) :
  In c (partsOf f L D t) → c ≠ "".
Proof.
  unfold partsOf. rewrite !in_app_iff. intros [Hc|[Hc|Hc]].
  - by eapply prefixedClasses_nonempty.
  - apply in_light_classes in Hc as (fld & Hset & ->).
    apply prefixClass_nonempty, plainHead_nonempty.
    by destruct (fieldClass_from fld _ Hset) as (_ & ? & _).
  - apply in_dark_classes in Hc as (fld & [(_ & ->) | (_ & _ & ->)]);
      unfold darkClass; intros H; by apply app_eq_nil in H as [? _].
Qed.

Lemma joinClasses_Join (p1 p2 : list string) :
  (∀ c, In c p1 → c ≠ "") → (∀ c, In c p2 → c ≠ "") →
  joinClasses (Str.Join p1 " ") (Str.Join p2 " ") = Str.Join (p1 ++ p2) " ".
Proof.
  intros H1 H2. destruct p1 as [|a p1]; [done|].
  destruct p2 as [|b p2].
  { rewrite List.app_nil_r. unfold joinClasses. by repeat case_decide. }
  rewrite joinClasses_nonempty by (apply Join_nonempty; done).
  by rewrite Join_app.
Qed.



Lemma tabWidthClass_cases (f : Formatter) :
  (tabWidthClass f = "" ∧ (tabWidth f = 0 ∨ tabWidth f = 8)) ∨
  (tabWidthClass f = "[tab-size:" +:+ Str.Itoa (tabWidth f) +:+ "]" ∧
   tabWidth f ≠ 0 ∧ tabWidth f ≠ 8).
Proof.
  destruct (decide (tabWidth f = 0)) as [H0|H0].
  { left. split; [apply tabWidthClass_default|]; auto. }
  destruct (decide (tabWidth f = 8)) as [H8|H8].
  { left. split; [apply tabWidthClass_default|]; auto. }
  right. split; [by apply tabWidthClass_set | done].
Qed.

Lemma tabParts_cases (f : Formatter) :
  (tabParts f = [] ∧ (tabWidth f = 0 ∨ tabWidth f = 8)) ∨
  (tabParts f = [tabSizeClass f (tabWidth f)] ∧ tabWidth f ≠ 0 ∧ tabWidth f ≠ 8).
Proof.
  unfold tabParts, tabSizeClass.
  destruct (tabWidthClass_cases f) as [(-> & Hd) | (-> & Hn)].
  - left. by rewrite decide_False by (by intros ?).
  - right. rewrite decide_True; [done|]. intros H. by apply app_eq_nil in H as [? _].
Qed.

Lemma tabSizeClass_inj (f : Formatter) (n m : Z) :
  tabSizeClass f n = tabSizeClass f m → n = m.
Proof.
  unfold tabSizeClass. intros H%prefixClass_inj.
  apply String.app_inj in H. apply (f_equal Str.bytes) in H. rewrite !bytes_app in H.
  apply app_inv_tail in H. by apply bytes_inj, Itoa_inj in H.
Qed.

Section MappingClaims.

Variable StandardTypes : list TokenType.

Lemma standardParts_get (f : Formatter) (L D : Style) (t : TokenType) :
  mapGet (standardClasses StandardTypes f L D) t
  = Str.Join (standardParts StandardTypes f L D t) " ".
Proof.
  unfold mapGet, standardParts. rewrite standardClasses_lookup. by case_decide.
Qed.

Lemma standardParts_nonempty (f : Formatter) (L D : Style) (t : TokenType) (c : string) :
  In c (standardParts StandardTypes f L D t) → c ≠ "".
Proof. unfold standardParts. case_decide; [apply partsOf_nonempty | done]. Qed.

Lemma standardParts_no_tab (f : Formatter) (L D : Style) (t : TokenType) (c : string) (n : Z) :
  In c (standardParts StandardTypes f L D t) → c ≠ tabSizeClass f n.
Proof. unfold standardParts. case_decide; [apply parts_no_tab | done]. Qed.

Lemma tabParts_nonempty (f : Formatter) (c : string) : In c (tabParts f) → c ≠ "".
Proof.
  destruct (tabParts_cases f) as [(-> & _) | (-> & _)]; [done|].
  intros [<-|[]]. apply tabSizeClass_nonempty.
Qed.

Lemma mappingParts_nonempty (f : Formatter) (L D : Style) (t : TokenType) (c : string) :
  In c (mappingParts StandardTypes f L D t) → c ≠ "".
Proof.
  unfold mappingParts. repeat case_decide; rewrite ?in_app_iff;
    intros Hc;
    repeat match goal with H : _ ∨ _ |- _ => destruct H as [H|H] end;
    first [ by eapply standardParts_nonempty | by eapply tabParts_nonempty ].
Qed.

(** The class string of every category is the join of its classes. *)
Lemma classes_parts (f : Formatter) (h : Heap) (light : loc) (dark : option loc)
  (t : TokenType) :
  mapGet (classes StandardTypes f h light dark) t
  = Str.Join (mappingParts StandardTypes f (h light) (h (default light dark)) t) " ".
Proof.
  set (L := h light). set (D := h (default light dark)).
  assert (mapGet (classes StandardTypes f h light dark) Background
          = Str.Join (standardParts StandardTypes f L D Background ++ tabParts f) " ") as Hbg.
  { rewrite classes_Background. cbv zeta. fold L D. rewrite standardParts_get.
    unfold tabParts. case_decide as Htab; [|by rewrite List.app_nil_r].
    change (prefixClass (prefix f) (tabWidthClass f))
      with (Str.Join [prefixClass (prefix f) (tabWidthClass f)] " ") at 1.
    apply joinClasses_Join; [apply standardParts_nonempty|].
    intros c [<-|[]]. by apply prefixClass_nonempty. }
  unfold mappingParts. destruct (decide (t = PreWrapper)) as [->|Hp].
  - rewrite classes_PreWrapper, Hbg. fold L D. rewrite standardParts_get.
    apply joinClasses_Join; [apply standardParts_nonempty|].
    intros c [Hc|Hc]%in_app_or;
      [by eapply standardParts_nonempty | by eapply tabParts_nonempty].
  - destruct (decide (t = Background)) as [->|Hb]; [exact Hbg|].
    rewrite classes_other by done. apply standardParts_get.
Qed.




(** C9. The class string of every category of the mapping is the join of
    its classes, none of them empty. A tab-size class [[tab-size:n]],
    prefixed, is among the classes of a category exactly when a tab width
    other than the default (neither unset, 0, nor 8) is configured, [n] is
    that width and the category is [Background] or the whole-block wrapper.
    With such a width it is the last class of [Background], behind the
    classes of the loop, and the last class of the wrapper; the [Background]
    string ends with it and the wrapper's string contains it. With the
    default width the classes of every category are those of the loop, the
    wrapper's followed by those of [Background], and none is a tab-size class
    of any width. *)
Theorem C9_tab_size_class (f : Formatter) (h : Heap) (light : loc) (dark : option loc) :
  let m := classes StandardTypes f h light dark in
  let L := h light in
  let D := h (default light dark) in
  let std := standardClasses StandardTypes f L D in
  let loopParts := standardParts StandardTypes f L D in
  let parts := mappingParts StandardTypes f L D in
  (∀ t, mapGet m t = Str.Join (parts t) " ") ∧
  (∀ t c, In c (parts t) → c ≠ "") ∧
  (∀ t c n, In c (loopParts t) → c ≠ tabSizeClass f n) ∧
  (∀ t n, In (tabSizeClass f n) (parts t) ↔
          tabWidth f ≠ 0 ∧ tabWidth f ≠ 8 ∧ n = tabWidth f ∧
          (t = Background ∨ t = PreWrapper)) ∧
  (tabWidth f ≠ 0 → tabWidth f ≠ 8 →
     parts Background = loopParts Background ++ [tabSizeClass f (tabWidth f)] ∧
     parts PreWrapper
     = loopParts PreWrapper ++ loopParts Background ++ [tabSizeClass f (tabWidth f)] ∧
     last (parts Background) = Some (tabSizeClass f (tabWidth f)) ∧
     mapGet m Background = joinClasses (mapGet std Background) (tabSizeClass f (tabWidth f)) ∧
     Str.hasSuffix (mapGet m Background) (tabSizeClass f (tabWidth f)) ∧
     Str.contains (mapGet m PreWrapper) (tabSizeClass f (tabWidth f))) ∧
  (tabWidth f = 0 ∨ tabWidth f = 8 →
     parts Background = loopParts Background ∧
     parts PreWrapper = loopParts PreWrapper ++ loopParts Background ∧
     (∀ t, t ≠ Background → t ≠ PreWrapper → parts t = loopParts t) ∧
     ∀ t c n, In c (parts t) → c ≠ tabSizeClass f n).
Proof.
  intros m L D std loopParts parts.
  assert (∀ t, mapGet m t = Str.Join (parts t) " ") as Hjoin
    by (intros t; apply classes_parts).
  assert (∀ t c n, In c (loopParts t) → c ≠ tabSizeClass f n) as Hloop
    by (intros t c n; apply standardParts_no_tab).
  split; [exact Hjoin|].
  split; [intros t c; apply mappingParts_nonempty|].
  split; [exact Hloop|].
  assert (∀ t, parts t =
            if decide (t = PreWrapper)
            then loopParts PreWrapper ++ loopParts Background ++ tabParts f
            else if decide (t = Background) then loopParts Background ++ tabParts f
            else loopParts t) as Hparts by done.
  split; [|split].
  - intros t n. rewrite Hparts.
    destruct (tabParts_cases f) as [(Htab & Hd) | (Htab & H0 & H8)]; rewrite Htab.
    + split.
      * intros Hin. exfalso. repeat case_decide; rewrite ?in_app_iff in Hin;
          intuition (try done; by eapply Hloop).
      * intros (H0 & H8 & _). destruct Hd; done.
    + split.
      * intros Hin.
        assert (In (tabSizeClass f n) [tabSizeClass f (tabWidth f)] ∧
                (t = Background ∨ t = PreWrapper)) as [[Heq|[]] Ht].
        { repeat case_decide; rewrite ?in_app_iff in Hin;
            intuition (try done; exfalso; by eapply Hloop). }
        apply tabSizeClass_inj in Heq. done.
      * intros (_ & _ & -> & Ht).
        destruct Ht as [-> | ->].
        -- rewrite decide_False by done. rewrite decide_True by done.
           apply in_or_app. right. by left.
        -- rewrite decide_True by done. rewrite !in_app_iff. right. right. by left.
  - intros H0 H8.
    destruct (tabParts_cases f) as [(_ & Hd) | (Htab & _ & _)]; [destruct Hd; done|].
    assert (parts Background = loopParts Background ++ [tabSizeClass f (tabWidth f)]) as Hbg.
    { rewrite Hparts, decide_False by done. by rewrite decide_True, Htab. }
    assert (mapGet m Background =
            joinClasses (mapGet std Background) (tabSizeClass f (tabWidth f))) as Hbgs.
    { unfold m. rewrite classes_Background. cbv zeta.
      rewrite tabWidthClass_set by done. rewrite decide_True by done. done. }
    assert (Str.hasSuffix (mapGet m Background) (tabSizeClass f (tabWidth f))) as Hsuf.
    { rewrite Hbgs. apply joinClasses_suffix, tabSizeClass_nonempty. }
    split; [exact Hbg|].
    split; [rewrite Hparts, decide_True by done; by rewrite Htab|].
    split; [rewrite Hbg; apply last_snoc|].
    split; [exact Hbgs|]. split; [exact Hsuf|].
    unfold m. rewrite classes_PreWrapper. apply contains_joinClasses_r.
    destruct Hsuf as (before & Hsuf). fold m. rewrite Hsuf.
    apply contains_app_r, contains_refl.
  - intros Hdef.
    destruct (tabParts_cases f) as [(Htab & _) | (_ & H0 & H8)]; [|destruct Hdef; done].
    split; [rewrite Hparts, decide_False by done;
            by rewrite decide_True, Htab, List.app_nil_r|].
    split; [rewrite Hparts, decide_True by done; by rewrite Htab, List.app_nil_r|].
    split; [intros t Hb Hp; rewrite Hparts; by rewrite !decide_False|].
    intros t c n. rewrite Hparts, Htab.
    repeat case_decide; rewrite ?List.app_nil_r, ?in_app_iff;
      intuition (by eapply Hloop).
Qed.

End MappingClaims.


Lemma C9_witness :
  tabWidth (TabWidth 4 newFormatter) ≠ 0 ∧ tabWidth (TabWidth 4 newFormatter) ≠ 8 ∧
  Str.hasSuffix
    (mapGet (classes Sample.StandardTypes (TabWidth 4 newFormatter) Sample.heap 0%nat None)
            Background)
    "[tab-size:4]" ∧
  Str.contains
    (mapGet (classes Sample.StandardTypes (TabWidth 4 newFormatter) Sample.heap 0%nat None)
            PreWrapper)
    "[tab-size:4]" ∧
  mappingParts Sample.StandardTypes (TabWidth 4 newFormatter) Sample.lightStyle
               Sample.lightStyle Background
  = ["text-[#24292e]"; "bg-[#ffffff]"; "dark:text-[#24292e]"; "dark:bg-[#ffffff]";
     "[tab-size:4]"] ∧
  ¬ In "[tab-size:8]"
       (mappingParts Sample.StandardTypes (TabWidth 8 newFormatter) Sample.lightStyle
                     Sample.lightStyle Background).
Proof.
  assert (tabWidth (TabWidth 4 newFormatter) ≠ 0) as H0 by discriminate.
  assert (tabWidth (TabWidth 4 newFormatter) ≠ 8) as H8 by discriminate.
  split; [exact H0|]. split; [exact H8|].
  pose proof (C9_tab_size_class Sample.StandardTypes (TabWidth 4 newFormatter) Sample.heap
                0%nat None) as (_ & _ & _ & _ & Hset & _).
  destruct (Hset H0 H8) as (_ & _ & _ & _ & Hsuffix & Hwrapper).
  split; [exact Hsuffix|]. split; [exact Hwrapper|]. split; [reflexivity|].
  pose proof (C9_tab_size_class Sample.StandardTypes (TabWidth 8 newFormatter) Sample.heap
                0%nat None) as (_ & _ & _ & _ & _ & Hdefault).
  destruct (Hdefault (or_intror eq_refl)) as (_ & _ & _ & Hnone).
  intros Hin. exact (Hnone Background _ 8 Hin eq_refl).
Defined.

